(** * RetinaFace training driver (train.py): model and properties

    The driver is glue code: it parses the command line, builds the datasets,
    the network, the optimizer and the scheduler through the tensor framework,
    runs the epoch loop and reports to the experiment tracker.  Every call
    that leaves train.py is an external call here: it is answered by an
    arbitrary handler over an abstract world, it may fail, and it is recorded
    in the trace of the run.  What train.py itself computes (loop structure,
    accumulators, name binding, comparisons, paths) is written out. *)

From Stdlib Require Import Ascii.
From stdpp Require Import gmap strings list.

Open Scope Z_scope.

(** ** The framework: opaque objects and tensor arithmetic *)

Class Framework := {
  Float : Type;      (* Python float *)
  Tensor : Type;     (* torch scalar tensors: the losses *)
  Image : Type;      (* input batch tensor *)
  Annot : Type;      (* one annotation tensor of a batch *)
  Pred : Type;       (* output of the network *)
  AnchorT : Type;    (* the anchors tensor *)
  Model : Type;
  Optim : Type;
  Crit : Type;
  Sched : Type;
  Loader : Type;
  Dataset : Type;
  WRun : Type;       (* wandb run *)
  ArtifactH : Type;  (* wandb artifact *)
  StateDict : Type;
  FeatMap : Type;
  AnchorGen : Type;
  Params : Type;
  ExpDir : Type;
  PyObj : Type;      (* configuration values only handed on to the framework *)
  ExtExn : Type;     (* exceptions raised by the framework or the tracker *)
  World : Type;
  float_1_3 : Float;
  float_0_7 : Float;
  float_of_int : Z → Float;
  float_add : Float → Float → Float;
  float_sub : Float → Float → Float;
  float_div_int : Float → Z → Float;
  int_truediv : Z → Z → Float;
  loader_len : Loader → nat;  (* len(DataLoader) *)
}.

(** Python numbers, and the values a loss variable of train.py can hold. *)
Inductive Num `{Framework} :=
| NInt (z : Z)
| NFloat (f : Float).

Inductive PyNum `{Framework} :=
| PNum (n : Num)
| PTensor (t : Tensor).

Class TensorOps `{Framework} := {
  tensor_add : Tensor → Tensor → Tensor;        (* t + u *)
  tensor_add_num : Tensor → Num → Tensor;       (* t + n *)
  tensor_radd_num : Num → Tensor → Tensor;      (* n + t *)
  tensor_rmul_float : Float → Tensor → Tensor;  (* f * t *)
  tensor_div_int : Tensor → Z → Tensor;         (* t / n, never raises *)
}.

Inductive Device := cuda0 | cpu.

Inductive CollateFn := detection_collate.

(** Python values of the namespace and of the tracker configuration. *)
#[warnings="-register-all"]
Inductive Value `{Framework} :=
| VNone
| VStr (s : string)
| VNum (n : Num)
| VBool (b : bool)
| VList (l : list Value).

(** model/config.py is imported with [*]; its constants are parameters. *)
Class Config `{Framework} := {
  RUN_NAME : string;
  EPOCHS : Z;
  WEIGHT_DECAY : Num;
  MOMENTUM : Num;
  START_FRAME : Num;
  BATCH_SIZE : Num;
  LEARNING_RATE : Num;
  PROJECT : string;
  DATASET : string;
  DATA_PATH : string;
  SAVE_PATH : string;
  RANDOM_SEED : PyObj;
  NUM_WORKERS : PyObj;
  N_CLASSES : PyObj;
  OVERLAP_THRES : PyObj;
  BKG_LABEL : PyObj;
  NEG_MINING : PyObj;
  NEG_OVERLAP : PyObj;
  LR_MILESTONE : PyObj;
}.

(** The namespace returned by parse_args, as the program reads it. *)
Record Args `{Framework} := {
  run : string;
  epoch : Z;
  model : string;
  weight : option string;
  weight_decay : Num;
  momentum : Num;
  startfm : Num;
  batchsize : Num;
  lr : Num;
  download : bool;
  tuning : bool;
}.

Section Driver.
Context `{TO : TensorOps} `{CF : !Config}.

(** ** Python arithmetic on loss values *)

Definition num_add (a b : Num) : Num :=
  match a, b with
  | NInt x, NInt y => NInt (x + y)
  | NInt x, NFloat g => NFloat (float_add (float_of_int x) g)
  | NFloat f, NInt y => NFloat (float_add f (float_of_int y))
  | NFloat f, NFloat g => NFloat (float_add f g)
  end.

Definition py_add (a b : PyNum) : PyNum :=
  match a, b with
  | PNum x, PNum y => PNum (num_add x y)
  | PNum x, PTensor u => PTensor (tensor_radd_num x u)
  | PTensor t, PNum y => PTensor (tensor_add_num t y)
  | PTensor t, PTensor u => PTensor (tensor_add t u)
  end.

(** Exceptions: the ones Python raises inside train.py, and the external ones. *)
Inductive Exn :=
| ZeroDivisionError
| UnboundLocalError
| IndexError
| External (e : ExtExn).

(** [a / n] for an integer [n] (the result of [len]). *)
Definition py_div_len (a : PyNum) (n : Z) : Exn + PyNum :=
  match a with
  | PNum (NInt x) => if decide (n = 0) then inl ZeroDivisionError
                     else inr (PNum (NFloat (int_truediv x n)))
  | PNum (NFloat f) => if decide (n = 0) then inl ZeroDivisionError
                       else inr (PNum (NFloat (float_div_int f n)))
  | PTensor t => inr (PTensor (tensor_div_int t n))
  end.

(** ** External calls *)

Inductive Msg :=
| MsgDevice (name : string)
| MsgExamples (n_train n_valid : Z)
| MsgEpochHeader
| MsgEpochLine (epoch epochs : Z) (loss_box loss_pts loss_cls total : PyNum) (dt : Float).

Inductive Call :=
| WandbInit (project : string) (config : list (string * Value)) (entity : string)
| UseDataWandb (r : WRun) (data_name : string) (dl : bool)
| CudaIsAvailable
| CudaGetDeviceName (d : Device)
| Print (m : Msg)
| WiderFaceDataset (root_path : string) (is_train : bool)
| DatasetLen (d : Dataset)
| ManualSeed (seed : PyObj)
| DataLoader (d : Dataset) (batch_size : Num) (shuffle : bool) (num_workers : PyObj)
             (collate_fn : CollateFn)
| CreateExpDir
| RetinaFace (model_name : string)
| ModelTo (m : Model) (d : Device)
| ModelFeatureMap (m : Model)
| Anchors (pyramid_levels : FeatMap)
| AnchorsForward (g : AnchorGen)
| AnchorsTo (a : AnchorT) (d : Device)
| ModelParameters (m : Model)
| OptimSGD (p : Params) (lr momentum weight_decay : Num)
| MultiBoxLoss (n_classes overlap_thresh : PyObj) (prior_for_matching : bool)
               (bkg_label : PyObj) (neg_pos : bool) (neg_mining neg_overlap : PyObj)
               (encode_target : bool) (d : Device)
| MultiStepLR (o : Optim) (milestones : PyObj) (gamma : Float)
| RunWatch (r : WRun) (m : Model) (c : Crit) (log : string) (log_freq : Z)
| TimeNow
| ModelTrainMode (m : Model)
| NextBatch (l : Loader) (i : nat)
| ImageTo (x : Image) (d : Device)
| AnnotTo (t : Annot) (d : Device)
| Forward (m : Model) (x : Image)
| LossFn (c : Crit) (p : Pred) (a : AnchorT) (ts : list Annot)
| ZeroGrad (o : Optim)
| Backward (loss : Tensor)
| OptStep (o : Optim)
| OnnxExport (m : Model) (x : Image) (path : string)
| ModelStateDict (m : Model)
| TorchSave (sd : StateDict) (path : string)
| WandbLog (data : list (string * PyNum)) (step : Z)
| GetLastLr (s : Sched)
| SchedStep (s : Sched)
| SummarySet (key : string) (v : Z)
| Artifact (name : string) (type : string)
| AddFile (a : ArtifactH) (path : string)
| LogArtifact (a : ArtifactH).

(** What each call hands back to train.py (results the program drops are [unit]). *)
Definition ret (c : Call) : Type :=
  match c with
  | WandbInit _ _ _ => WRun
  | CudaIsAvailable => bool
  | CudaGetDeviceName _ => string
  | WiderFaceDataset _ _ => Dataset
  | DatasetLen _ => Z
  | DataLoader _ _ _ _ _ => Loader
  | CreateExpDir => ExpDir
  | RetinaFace _ => Model
  | ModelTo _ _ => Model
  | ModelFeatureMap _ => FeatMap
  | Anchors _ => AnchorGen
  | AnchorsForward _ => AnchorT
  | AnchorsTo _ _ => AnchorT
  | ModelParameters _ => Params
  | OptimSGD _ _ _ _ => Optim
  | MultiBoxLoss _ _ _ _ _ _ _ _ _ => Crit
  | MultiStepLR _ _ _ => Sched
  | TimeNow => Float
  | NextBatch _ _ => (Image * list Annot)%type
  | ImageTo _ _ => Image
  | AnnotTo _ _ => Annot
  | Forward _ _ => Pred
  | LossFn _ _ _ _ => (Tensor * Tensor * Tensor)%type
  | ModelStateDict _ => StateDict
  | GetLastLr _ => list Num
  | Artifact _ _ => ArtifactH
  | _ => unit
  end.

(** A run records every call with its answer, the failed call with its
    exception, and the two ends of a [with torch.no_grad()] block. *)
Inductive Event :=
| Done (c : Call) (r : ret c)
| Failed (c : Call) (e : ExtExn)
| EnterNoGrad
| ExitNoGrad.

Inductive Outcome (A : Type) :=
| Ok (a : A)
| Raise (e : Exn).
Global Arguments Ok {A} a.
Global Arguments Raise {A} e.

Record Res (A : Type) := MkRes {
  outcome : Outcome A;
  world : World;
  trace : list Event;
}.
Global Arguments MkRes {A} _ _ _.
Global Arguments outcome {A} _.
Global Arguments world {A} _.
Global Arguments trace {A} _.

Definition M (A : Type) : Type := World → Res A.

Definition m_ret {A} (a : A) : M A := λ w, MkRes (Ok a) w [].

Definition m_bind {A B} (m : M A) (k : A → M B) : M B := λ w,
  let r := m w in
  match outcome r with
  | Ok a => let r' := k a (world r) in
            MkRes (outcome r') (world r') (trace r ++ trace r')
  | Raise e => MkRes (Raise e) (world r) (trace r)
  end.

Definition raise {A} (e : Exn) : M A := λ w, MkRes (Raise e) w [].

Definition lift {A} (x : Exn + A) : M A :=
  match x with inl e => raise e | inr a => m_ret a end.

(** The environment: how the framework and the tracker answer a call. *)
Variable handler : ∀ c : Call, World → (ExtExn + ret c) * World.
Variable grad_mode : bool → World → World.

Definition perform (c : Call) : M (ret c) := λ w,
  match handler c w with
  | (inr r, w') => MkRes (Ok r) w' [Done c r]
  | (inl e, w') => MkRes (Raise (External e)) w' [Failed c e]
  end.

(** [with torch.no_grad(): body]: the block is left on both ways out, and an
    exception of the body goes on after the exit. *)
Definition with_no_grad {A} (body : M A) : M A := λ w,
  let r := body (grad_mode false w) in
  MkRes (outcome r) (grad_mode true (world r)) (EnterNoGrad :: trace r ++ [ExitNoGrad]).

Notation "x <- m ;; k" := (m_bind m (λ x, k))
  (at level 100, m at next level, right associativity, only parsing).
Notation "m ;;; k" := (m_bind m (λ _, k))
  (at level 100, right associativity, only parsing).

Fixpoint for_each {A S} (body : A → S → M S) (l : list A) (s : S) : M S :=
  match l with
  | [] => m_ret s
  | x :: l' => s' <- body x s ;; for_each body l' s'
  end.

Fixpoint map_m {A B} (f : A → M B) (l : list A) : M (list B) :=
  match l with
  | [] => m_ret []
  | x :: l' => y <- f x ;; ys <- map_m f l' ;; m_ret (y :: ys)
  end.

(** ** train (train.py, lines 37-72) *)

(** The loop variables: the three accumulators and [input], which is unbound
    until the first batch and is read again after the loop (line 69). *)
Definition LoopState : Type := (PyNum * PyNum * PyNum * option Image)%type.

(** One turn of [for i, (input, targets) in enumerate(trainloader)]. *)
Definition train_batch (model : Model) (anchors : AnchorT) (trainloader : Loader)
    (optimizer : Optim) (loss_function : Crit) (device : Device)
    (i : nat) (s : LoopState) : M LoopState :=
  let '(loss_cls, loss_box, loss_pts, _) := s in
  b <- perform (NextBatch trainloader i) ;;
  let '(input, targets) := (b : Image * list Annot) in
  input <- (perform (ImageTo input device) : M Image) ;;
  targets <- map_m (λ annos, perform (AnnotTo annos device)) targets ;;
  predict <- perform (Forward model input) ;;
  l3 <- perform (LossFn loss_function predict anchors targets) ;;
  let '(loss_l, loss_c, loss_landm) := l3 in
  let loss :=
    tensor_add (tensor_add (tensor_rmul_float float_1_3 loss_l) loss_c) loss_landm in
  let loss_cls := py_add loss_cls (PTensor loss_c) in
  let loss_box := py_add loss_box (PTensor loss_l) in
  let loss_pts := py_add loss_pts (PTensor loss_landm) in
  perform (ZeroGrad optimizer) ;;;
  perform (Backward loss) ;;;
  perform (OptStep optimizer) ;;;
  (m_ret (loss_cls, loss_box, loss_pts, Some input) : M LoopState).

(** Reading the local [input] after the loop. *)
Definition read_input (input : option Image) : M Image :=
  match input with
  | Some x => m_ret x
  | None => raise UnboundLocalError
  end.

(** [args] is the module-level global that line 69 and 70 read. *)
Definition train (args : Args) (model : Model) (anchors : AnchorT) (trainloader : Loader)
    (optimizer : Optim) (loss_function : Crit) (best_ap : Z) (device : Device)
    : M (PyNum * PyNum * PyNum * Z) :=
  perform (ModelTrainMode model) ;;;
  let epoch_ap := 0 in
  s <- for_each (train_batch model anchors trainloader optimizer loss_function device)
         (seq 0 (loader_len trainloader))
         (PNum (NInt 0), PNum (NInt 0), PNum (NInt 0), None) ;;
  let '(loss_cls, loss_box, loss_pts, input) := s in
  loss_cls <- lift (py_div_len loss_cls (Z.of_nat (loader_len trainloader))) ;;
  loss_box <- lift (py_div_len loss_box (Z.of_nat (loader_len trainloader))) ;;
  loss_pts <- lift (py_div_len loss_pts (Z.of_nat (loader_len trainloader))) ;;
  (if epoch_ap >? best_ap then
     input <- read_input input ;;
     perform (OnnxExport model input (SAVE_PATH +:+ run args +:+ ".onnx")) ;;;
     sd <- perform (ModelStateDict model) ;;
     perform (TorchSave sd (SAVE_PATH +:+ run args +:+ ".pth"))
   else m_ret tt) ;;;
  m_ret (loss_cls, loss_box, loss_pts, epoch_ap).

(** ** The main program (train.py, lines 74-165) *)

(** [range(n)] *)
Definition range (n : Z) : list Z := Z.of_nat <$> seq 0 (Z.to_nat n).

(** The body of [for epoch in range(epochs)], from [best_ap] to [best_ap]. *)
Definition epoch_body (args : Args) (model : Model) (anchors : AnchorT)
    (trainloader : Loader) (optimizer : Optim) (criterion : Crit) (scheduler : Sched)
    (device : Device) (epochs : Z) (epoch : Z) (best_ap : Z) : M Z :=
  perform (Print MsgEpochHeader) ;;;
  t0 <- perform TimeNow ;;
  r <- train args model anchors trainloader optimizer criterion best_ap device ;;
  let '(loss_box, loss_pts, loss_cls, train_ap) := r in
  t1 <- perform TimeNow ;;
  let total_loss := py_add (py_add loss_box loss_pts) loss_cls in
  perform (WandbLog [("loss_cls", loss_cls); ("loss_box", loss_box);
                     ("loss_landmark", loss_pts)] epoch) ;;;
  perform (Print (MsgEpochLine epoch epochs loss_box loss_pts loss_cls total_loss
                    (float_sub t1 t0))) ;;;
  lrs <- perform (GetLastLr scheduler) ;;
  lr0 <- match lrs with [] => raise IndexError | x :: _ => m_ret x end ;;
  perform (WandbLog [("lr", PNum lr0)] epoch) ;;;
  perform (SchedStep scheduler) ;;;
  if train_ap >? best_ap then
    let best_ap := train_ap in
    perform (SummarySet "best_accuracy" best_ap) ;;;
    m_ret best_ap
  else m_ret best_ap.

Definition wandb_config (args : Args) : list (string * Value) :=
  [("epoch", VNum (NInt (epoch args)));
   ("weight_decay", VNum (weight_decay args));
   ("momentum", VNum (momentum args));
   ("lr", VNum (lr args));
   ("batchsize", VNum (batchsize args));
   ("startfm", VNum (startfm args))].

(** Lines 161-165. *)
Definition export_artifact (args : Args) : M unit :=
  if tuning args then m_ret tt
  else
    trained_weight <- perform (Artifact (run args) "weights") ;;
    perform (AddFile trained_weight (SAVE_PATH +:+ run args +:+ ".onnx")) ;;;
    perform (AddFile trained_weight (SAVE_PATH +:+ run args +:+ ".pth")) ;;;
    perform (LogArtifact trained_weight).

(** Everything from line 134 on, once the objects are built. *)
Definition training (args : Args) (model : Model) (anchors : AnchorT)
    (trainloader : Loader) (optimizer : Optim) (criterion : Crit) (scheduler : Sched)
    (device : Device) : M unit :=
  let epochs := epoch args in
  for_each (epoch_body args model anchors trainloader optimizer criterion scheduler
              device epochs) (range epochs) (-1) ;;;
  export_artifact args.

(** Lines 116-117: the anchors are computed with gradients switched off. *)
Definition make_anchors (model : Model) (device : Device) : M AnchorT :=
  with_no_grad (
    fm <- perform (ModelFeatureMap model) ;;
    g <- perform (Anchors fm) ;;
    a <- perform (AnchorsForward g) ;;
    perform (AnchorsTo a device)).

(** Lines 75-131: the tracker run, the data and the objects of the training. *)
Definition Objects : Type := (Model * AnchorT * Loader * Optim * Crit * Sched * Device)%type.

Definition setup (args : Args) : M Objects :=
  run_ <- perform (WandbInit PROJECT (wandb_config args) "nmd2000") ;;
  perform (UseDataWandb run_ DATASET (download args)) ;;;
  avail <- perform CudaIsAvailable ;;
  let device := if (avail : bool) then cuda0 else cpu in
  name <- perform (CudaGetDeviceName device) ;;
  perform (Print (MsgDevice name)) ;;;
  train_set <- perform (WiderFaceDataset DATA_PATH true) ;;
  valid_set <- perform (WiderFaceDataset DATA_PATH false) ;;
  n_train <- perform (DatasetLen train_set) ;;
  n_valid <- perform (DatasetLen valid_set) ;;
  perform (Print (MsgExamples n_train n_valid)) ;;;
  perform (ManualSeed RANDOM_SEED) ;;;
  trainloader <- perform (DataLoader train_set BATCH_SIZE true NUM_WORKERS
                            detection_collate) ;;
  validloader <- perform (DataLoader valid_set BATCH_SIZE false NUM_WORKERS
                            detection_collate) ;;
  save_dir <- perform CreateExpDir ;;
  model <- perform (RetinaFace (model args)) ;;
  model <- perform (ModelTo model device) ;;
  anchors <- make_anchors model device ;;
  params <- perform (ModelParameters model) ;;
  optimizer <- perform (OptimSGD params (lr args) (momentum args) (weight_decay args)) ;;
  criterion <- perform (MultiBoxLoss N_CLASSES OVERLAP_THRES true BKG_LABEL true
                          NEG_MINING NEG_OVERLAP false device) ;;
  scheduler <- perform (MultiStepLR optimizer LR_MILESTONE float_0_7) ;;
  perform (RunWatch run_ model criterion "all" 10) ;;;
  m_ret (A:=Objects) (model, anchors, trainloader, optimizer, criterion, scheduler, device).

Definition main (args : Args) : M unit :=
  objs <- setup args ;;
  let '(model, anchors, trainloader, optimizer, criterion, scheduler, device) :=
    (objs : Objects) in
  training args model anchors trainloader optimizer criterion scheduler device.

End Driver.

(** ** parse_args (train.py, lines 19-35)

    The parser is the table that the eleven [add_argument] calls build on top
    of the help option that [ArgumentParser] adds itself.  [parse_args] either
    returns a namespace or leaves through [SystemExit] (usage errors and
    help alike), which is [None] here.  Tokens are read the way argparse reads
    long options: exact name, [name=value], unambiguous prefix. *)

Class Builtins `{Framework} := {
  int_of_str : string → option Z;        (* int(s), None when it raises *)
  float_of_str : string → option Float;  (* float(s), None when it raises *)
}.

Inductive ArgType := TStr | TInt | TFloat.

Inductive Action :=
| Store (type : ArgType)
| StoreTrue
| Help.

(** [opt_default = None] is argparse.SUPPRESS: nothing is put in the namespace. *)
Record Opt `{Framework} := {
  flags : list string;
  dest : string;
  action : Action;
  opt_default : option Value;
}.

Fixpoint strip_dashes (s : string) : string :=
  match s with
  | String "-"%char s' => strip_dashes s'
  | _ => s
  end.

Fixpoint dash_to_underscore (s : string) : string :=
  match s with
  | EmptyString => EmptyString
  | String c s' => String (if Ascii.eqb c "-"%char then "_"%char else c) (dash_to_underscore s')
  end.

Definition add_argument `{Framework} (name : string) (a : Action) (d : Value)
    (parser : list Opt) : list Opt :=
  parser ++ [{| flags := [name]; dest := dash_to_underscore (strip_dashes name);
                action := a; opt_default := Some d |}].

Definition ArgumentParser `{Framework} : list Opt :=
  [{| flags := ["-h"; "--help"]; dest := "help"; action := Help; opt_default := None |}].

Definition store_true : Action := StoreTrue.

Section Parser.
Context `{BI : Builtins} `{CF : !Config}.

Definition parser : list Opt :=
  add_argument "--tuning" store_true (VBool false) (
  add_argument "--download" store_true (VBool false) (
  add_argument "--lr" (Store TFloat) (VNum LEARNING_RATE) (
  add_argument "--batchsize" (Store TInt) (VNum BATCH_SIZE) (
  add_argument "--startfm" (Store TInt) (VNum START_FRAME) (
  add_argument "--momentum" (Store TInt) (VNum MOMENTUM) (
  add_argument "--weight_decay" (Store TInt) (VNum WEIGHT_DECAY) (
  add_argument "--weight" (Store TStr) VNone (
  add_argument "--model" (Store TStr) (VStr "mobilenet0.25") (
  add_argument "--epoch" (Store TInt) (VNum (NInt EPOCHS)) (
  add_argument "--run" (Store TStr) (VStr RUN_NAME)
  ArgumentParser)))))))))).

(** *** Reading one token *)

Fixpoint split_eq (s : string) : option (string * string) :=
  match s with
  | EmptyString => None
  | String c s' =>
      if Ascii.eqb c "="%char then Some (EmptyString, s')
      else match split_eq s' with
           | Some (a, b) => Some (String c a, b)
           | None => None
           end
  end.

Fixpoint split_dot (s : string) : option (string * string) :=
  match s with
  | EmptyString => None
  | String c s' =>
      if Ascii.eqb c "."%char then Some (EmptyString, s')
      else match split_dot s' with
           | Some (a, b) => Some (String c a, b)
           | None => None
           end
  end.

(** The class [\d] of a regular expression on [str] is the decimal digits of
    Unicode (category Nd, Unicode 14 in CPython 3.11), not the ten ASCII
    digits alone.  A token is the string of the UTF-8 bytes of the argument,
    so that a digit is one to four bytes long. *)
Definition is_digit (c : ascii) : bool :=
  let n := nat_of_ascii c in (48 <=? n)%nat && (n <=? 57)%nat.

Definition decimal_ranges : list (N * N) :=
  [(48, 57); (1632, 1641); (1776, 1785); (1984, 1993); (2406, 2415); (2534, 2543); (2662, 2671);
   (2790, 2799); (2918, 2927); (3046, 3055); (3174, 3183); (3302, 3311); (3430, 3439);
   (3558, 3567); (3664, 3673); (3792, 3801); (3872, 3881); (4160, 4169); (4240, 4249);
   (6112, 6121); (6160, 6169); (6470, 6479); (6608, 6617); (6784, 6793); (6800, 6809);
   (6992, 7001); (7088, 7097); (7232, 7241); (7248, 7257); (42528, 42537); (43216, 43225);
   (43264, 43273); (43472, 43481); (43504, 43513); (43600, 43609); (44016, 44025);
   (65296, 65305); (66720, 66729); (68912, 68921); (69734, 69743); (69872, 69881);
   (69942, 69951); (70096, 70105); (70384, 70393); (70736, 70745); (70864, 70873);
   (71248, 71257); (71360, 71369); (71472, 71481); (71904, 71913); (72016, 72025);
   (72784, 72793); (73040, 73049); (73120, 73129); (92768, 92777); (92864, 92873);
   (93008, 93017); (120782, 120831); (123200, 123209); (123632, 123641); (125264, 125273);
   (130032, 130041)]%N.

Definition is_decimal (cp : N) : bool :=
  existsb (λ r, (r.1 <=? cp)%N && (cp <=? r.2)%N) decimal_ranges.

(** The six bits of a continuation byte. *)
Definition continuation (c : ascii) : option N :=
  let b := N_of_ascii c in
  if (128 <=? b)%N && (b <=? 191)%N then Some (b - 128)%N else None.

(** The code point of a well-formed sequence of two, three or four bytes
    (no overlong form, no surrogate, nothing above U+10FFFF). *)
Definition utf8_2 (c1 c2 : ascii) : option N :=
  x2 ← continuation c2;
  let cp := ((N_of_ascii c1 - 192) * 64 + x2)%N in
  if (194 <=? N_of_ascii c1)%N && (N_of_ascii c1 <=? 223)%N then Some cp else None.

Definition utf8_3 (c1 c2 c3 : ascii) : option N :=
  x2 ← continuation c2;
  x3 ← continuation c3;
  let cp := ((N_of_ascii c1 - 224) * 4096 + x2 * 64 + x3)%N in
  if (224 <=? N_of_ascii c1)%N && (N_of_ascii c1 <=? 239)%N && (2048 <=? cp)%N
     && negb ((55296 <=? cp)%N && (cp <=? 57343)%N)
  then Some cp else None.

Definition utf8_4 (c1 c2 c3 c4 : ascii) : option N :=
  x2 ← continuation c2;
  x3 ← continuation c3;
  x4 ← continuation c4;
  let cp := ((N_of_ascii c1 - 240) * 262144 + x2 * 4096 + x3 * 64 + x4)%N in
  if (240 <=? N_of_ascii c1)%N && (N_of_ascii c1 <=? 244)%N && (65536 <=? cp)%N
     && (cp <=? 1114111)%N
  then Some cp else None.

Definition decimal (cp : option N) : bool :=
  match cp with Some n => is_decimal n | None => false end.

(** [\d*] on the whole string. *)
Fixpoint all_digits (s : string) : bool :=
  match s with
  | EmptyString => true
  | String c1 r1 =>
      if (N_of_ascii c1 <? 128)%N then is_digit c1 && all_digits r1
      else match r1 with
      | EmptyString => false
      | String c2 r2 =>
          if (N_of_ascii c1 <? 224)%N then decimal (utf8_2 c1 c2) && all_digits r2
          else match r2 with
          | EmptyString => false
          | String c3 r3 =>
              if (N_of_ascii c1 <? 240)%N then decimal (utf8_3 c1 c2 c3) && all_digits r3
              else match r3 with
              | EmptyString => false
              | String c4 r4 => decimal (utf8_4 c1 c2 c3 c4) && all_digits r4
              end
          end
      end
  end.

(** [\d+] on the whole string. *)
Definition digits1 (s : string) : bool :=
  match s with EmptyString => false | _ => all_digits s end.

Fixpoint has_space (s : string) : bool :=
  match s with
  | EmptyString => false
  | String c s' => Ascii.eqb c " "%char || has_space s'
  end.

(** One newline at the very end does not count for [$]. *)
Fixpoint chomp (s : string) : string :=
  match s with
  | EmptyString => EmptyString
  | String c EmptyString => if Ascii.eqb c "010"%char then EmptyString else s
  | String c s' => String c (chomp s')
  end.

(** [^-\d+$|^-\d*\.\d+$] *)
Definition negative_number (s : string) : bool :=
  match chomp s with
  | String "-"%char r =>
      digits1 r ||
      match split_dot r with
      | Some (a, b) => all_digits a && digits1 b
      | None => false
      end
  | _ => false
  end.

Definition starts_with (p s : string) : bool := String.prefix p s.

Definition in_flags (s : string) (o : Opt) : bool :=
  bool_decide (s ∈ flags o).

(** The option that owns the option string [s], if it is spelled in full. *)
Fixpoint find_exact (p : list Opt) (s : string) : option Opt :=
  match p with
  | [] => None
  | o :: p' => if in_flags s o then Some o else find_exact p' s
  end.

Definition second_is_dash (s : string) : bool :=
  match s with
  | String _ (String "-"%char _) => true
  | _ => false
  end.

Definition first2 (s : string) : string :=
  match s with
  | String a (String b _) => String a (String b EmptyString)
  | _ => s
  end.

Definition after2 (s : string) : string :=
  match s with
  | String _ (String _ r) => r
  | _ => EmptyString
  end.

(** [_get_option_tuples]: every option string that the token abbreviates. *)
Definition get_option_tuples (p : list Opt) (s : string) : list (Opt * option string) :=
  if second_is_dash s then
    let '(option_prefix, explicit_arg) :=
      match split_eq s with
      | Some (a, b) => (a, Some b)
      | None => (s, None)
      end in
    o ← p; f ← flags o;
    if starts_with option_prefix f then [(o, explicit_arg)] else []
  else
    o ← p; f ← flags o;
    if bool_decide (f = first2 s) then [(o, Some (after2 s))]
    else if starts_with s f then [(o, None)] else [].

Inductive Cls :=
| CPositional
| COption (o : Opt) (explicit_arg : option string)
| CUnknown
| CAmbiguous.

Definition is_ambiguous (c : Cls) : bool :=
  match c with CAmbiguous => true | _ => false end.

(** [_parse_optional] *)
Definition parse_optional (p : list Opt) (s : string) : Cls :=
  match s with
  | EmptyString => CPositional
  | String c r =>
      if negb (Ascii.eqb c "-"%char) then CPositional
      else match find_exact p s with
      | Some o => COption o None
      | None =>
          match r with
          | EmptyString => CPositional
          | _ =>
              match (match split_eq s with
                     | Some (a, b) => (λ o, (o, b)) <$> find_exact p a
                     | None => None
                     end) with
              | Some (o, b) => COption o (Some b)
              | None =>
                  match get_option_tuples p s with
                  | [(o, e)] => COption o e
                  | _ :: _ :: _ => CAmbiguous
                  | [] =>
                      if negative_number s then CPositional
                      else if has_space s then CPositional
                      else CUnknown
                  end
              end
          end
      end
  end.

(** *** Filling the namespace *)

Definition get_value (t : ArgType) (s : string) : option Value :=
  match t with
  | TStr => Some (VStr s)
  | TInt => (λ z, VNum (NInt z)) <$> int_of_str s
  | TFloat => (λ f, VNum (NFloat f)) <$> float_of_str s
  end.

(** Defaults are in the namespace before any token is read. *)
Fixpoint set_defaults (p : list Opt) (ns : gmap string Value) : gmap string Value :=
  match p with
  | [] => ns
  | o :: p' =>
      set_defaults p' (match opt_default o with
                       | Some d => <[dest o := d]> ns
                       | None => ns
                       end)
  end.

(** The tokens in order: an option takes its value from [name=value] or from
    the next token, which must not itself read as an option.  From [name=--]
    it takes the empty list: ['--'] is struck from the argument strings of the
    option and nothing is left to convert.  [seen] holds the destinations
    that were given. *)
Fixpoint consume (cs : list (string * Cls)) (ns : gmap string Value) (seen : gset string)
    : option (gmap string Value * gset string) :=
  match cs with
  | [] => Some (ns, seen)
  | (_, COption o e) :: rest =>
      match action o with
      | Help => None
      | StoreTrue =>
          match e with
          | Some _ => None
          | None => consume rest (<[dest o := VBool true]> ns) ({[dest o]} ∪ seen)
          end
      | Store t =>
          match e with
          | Some s =>
              if bool_decide (s = "--")
              then consume rest (<[dest o := VList []]> ns) ({[dest o]} ∪ seen)
              else match get_value t s with
                   | Some v => consume rest (<[dest o := v]> ns) ({[dest o]} ∪ seen)
                   | None => None
                   end
          | None =>
              match rest with
              | (a, CPositional) :: rest' =>
                  match get_value t a with
                  | Some v => consume rest' (<[dest o := v]> ns) ({[dest o]} ∪ seen)
                  | None => None
                  end
              | _ => None
              end
          end
      end
  | _ => None
  end.

(** A string default of an option that was not given goes through the
    option's [type] at the end. *)
Fixpoint convert_defaults (p : list Opt) (seen : gset string) (ns : gmap string Value)
    : option (gmap string Value) :=
  match p with
  | [] => Some ns
  | o :: p' =>
      match action o, opt_default o with
      | Store t, Some (VStr s) =>
          if bool_decide (dest o ∈ seen) then convert_defaults p' seen ns
          else match get_value t s with
               | Some v => convert_defaults p' seen (<[dest o := v]> ns)
               | None => None
               end
      | _, _ => convert_defaults p' seen ns
      end
  end.

Definition classify (argv : list string) : list (string * Cls) :=
  (λ s, (s, parse_optional parser s)) <$> argv.

(** [parser.parse_args()] on the command line [argv] (sys.argv[1:]). *)
Definition parse_args (argv : list string) : option (gmap string Value) :=
  if bool_decide ("--" ∈ argv) then None
  else if existsb (λ c, is_ambiguous c.2) (classify argv) then None
  else
    match consume (classify argv) (set_defaults parser ∅) ∅ with
    | Some (ns, seen) => convert_defaults parser seen ns
    | None => None
    end.

(** The attributes that the main program reads from the namespace. *)
Definition as_str (v : option Value) : option string :=
  match v with Some (VStr s) => Some s | _ => None end.
Definition as_opt_str (v : option Value) : option (option string) :=
  match v with Some (VStr s) => Some (Some s) | Some VNone => Some None | _ => None end.
Definition as_int (v : option Value) : option Z :=
  match v with Some (VNum (NInt z)) => Some z | _ => None end.
Definition as_num (v : option Value) : option Num :=
  match v with Some (VNum n) => Some n | _ => None end.
Definition as_bool (v : option Value) : option bool :=
  match v with Some (VBool b) => Some b | _ => None end.

Definition args_of (ns : gmap string Value) : option Args :=
  r ← as_str (ns !! "run");
  e ← as_int (ns !! "epoch");
  m ← as_str (ns !! "model");
  w ← as_opt_str (ns !! "weight");
  wd ← as_num (ns !! "weight_decay");
  mo ← as_num (ns !! "momentum");
  sf ← as_num (ns !! "startfm");
  bs ← as_num (ns !! "batchsize");
  l ← as_num (ns !! "lr");
  d ← as_bool (ns !! "download");
  t ← as_bool (ns !! "tuning");
  Some {| run := r; epoch := e; model := m; weight := w; weight_decay := wd;
          momentum := mo; startfm := sf; batchsize := bs; lr := l;
          download := d; tuning := t |}.

(** The eleven options that parse_args declares, as the claims list them. *)
Definition declared (flag d : string) (a : Action) (v : Value) : Opt :=
  {| flags := [flag]; dest := d; action := a; opt_default := Some v |}.

Definition declared_options : list Opt :=
  [declared "--run" "run" (Store TStr) (VStr RUN_NAME);
   declared "--epoch" "epoch" (Store TInt) (VNum (NInt EPOCHS));
   declared "--model" "model" (Store TStr) (VStr "mobilenet0.25");
   declared "--weight" "weight" (Store TStr) VNone;
   declared "--weight_decay" "weight_decay" (Store TInt) (VNum WEIGHT_DECAY);
   declared "--momentum" "momentum" (Store TInt) (VNum MOMENTUM);
   declared "--startfm" "startfm" (Store TInt) (VNum START_FRAME);
   declared "--batchsize" "batchsize" (Store TInt) (VNum BATCH_SIZE);
   declared "--lr" "lr" (Store TFloat) (VNum LEARNING_RATE);
   declared "--download" "download" StoreTrue (VBool false);
   declared "--tuning" "tuning" StoreTrue (VBool false)].

(** An invocation omits an option when none of its tokens reads as it. *)
Definition omits (argv : list string) (o : Opt) : Prop :=
  ∀ tok o' e, tok ∈ argv → parse_optional parser tok = COption o' e → dest o' ≠ dest o.

End Parser.

(** *** Shapes of a namespace and of an invocation *)

(** A value of the kind that the action of an option puts in the namespace. *)
Definition fits `{Framework} (a : Action) (v : Value) : bool :=
  match a, v with
  | Store TStr, VStr _ => true
  | Store TInt, VNum (NInt _) => true
  | Store TFloat, VNum (NFloat _) => true
  | StoreTrue, VBool true => true
  | _, _ => false
  end.

(** The abbreviations that two option names share. *)
Definition shared_prefixes : list string :=
  ["--m"; "--mo"; "--w"; "--we"; "--wei"; "--weig"; "--weigh"].

(** The abbreviations of an option name that argparse looks up: every
    prefix that holds more than the two dashes. *)
Fixpoint prefixes (s : string) : list string :=
  match s with
  | EmptyString => [EmptyString]
  | String c s' => EmptyString :: (String c <$> prefixes s')
  end.

Definition abbreviations (f : string) : list string :=
  List.filter (λ p, (3 <=? String.length p)%nat) (prefixes f).

Section ParserShapes.
Context `{BI : Builtins} `{CF : !Config}.

(** Every declared attribute holds its default, a value of its option, or
    the empty list that a token [name=--] of the invocation left. *)
Definition typed (cs : list (string * Cls)) (ns : gmap string Value) : Prop :=
  ∀ o, o ∈ declared_options →
    ns !! dest o = opt_default o
    ∨ (∃ v, ns !! dest o = Some v ∧ fits (action o) v = true)
    ∨ (ns !! dest o = Some (VList []) ∧ ∃ tok, (tok, COption o (Some "--")) ∈ cs).

(** Where the tokens of an accepted invocation stand. *)
Definition well_placed (cs : list (string * Cls)) (i : nat) (c : Cls) : Prop :=
  match c with
  | COption o _ => action o ≠ Help
  | CPositional =>
      ∃ j prev o t, i = S j ∧ cs !! j = Some (prev, COption o None) ∧ action o = Store t
  | CUnknown | CAmbiguous => False
  end.

(** The options --epoch and --tuning of the table. *)
Definition epoch_option : Opt :=
  declared "--epoch" "epoch" (Store TInt) (VNum (NInt EPOCHS)).

Definition tuning_option : Opt := declared "--tuning" "tuning" StoreTrue (VBool false).

End ParserShapes.

(** ** A small concrete framework

    Integers stand for floats and tensors, the world counts the calls that
    were answered, every loader has two batches.  The properties below are
    run on it. *)

Module Sample.

#[export] Instance framework : Framework := {|
  Float := Z; Tensor := Z; Image := nat; Annot := nat; Pred := nat; AnchorT := nat;
  Model := nat; Optim := nat; Crit := nat; Sched := nat; Loader := nat;
  Dataset := nat; WRun := nat; ArtifactH := nat; StateDict := nat; FeatMap := nat;
  AnchorGen := nat; Params := nat; ExpDir := nat; PyObj := nat; ExtExn := nat;
  World := nat;
  float_1_3 := 13; float_0_7 := 7;
  float_of_int := id; float_add := Z.add; float_sub := Z.sub;
  float_div_int := Z.div; int_truediv := Z.div;
  loader_len := λ _, 2%nat;
|}.

#[export] Instance tensor_ops : TensorOps := {|
  tensor_add := Z.add;
  tensor_add_num := λ t n, match n with NInt z => t + z | NFloat f => t + f end;
  tensor_radd_num := λ n t, match n with NInt z => z + t | NFloat f => f + t end;
  tensor_rmul_float := Z.mul;
  tensor_div_int := Z.div;
|}.

#[export] Instance config : Config := {|
  RUN_NAME := "exp"; EPOCHS := 2;
  WEIGHT_DECAY := NFloat 5; MOMENTUM := NFloat 9; START_FRAME := NInt 16;
  BATCH_SIZE := NInt 32; LEARNING_RATE := NFloat 1;
  PROJECT := "retina"; DATASET := "wider"; DATA_PATH := "data/"; SAVE_PATH := "w/";
  RANDOM_SEED := 0%nat; NUM_WORKERS := 2%nat; N_CLASSES := 2%nat; OVERLAP_THRES := 35%nat;
  BKG_LABEL := 0%nat; NEG_MINING := 1%nat; NEG_OVERLAP := 35%nat; LR_MILESTONE := 0%nat;
|}.

(** Decimal digits with an optional sign; enough of [int] for the examples. *)
Fixpoint digits_val (s : string) (acc : Z) : option Z :=
  match s with
  | EmptyString => Some acc
  | String c s' =>
      if is_digit c then digits_val s' (10 * acc + Z.of_nat (nat_of_ascii c) - 48)
      else None
  end.

Definition int_of_decimal (s : string) : option Z :=
  match s with
  | EmptyString => None
  | String "-"%char (String c r) => Z.opp <$> digits_val (String c r) 0
  | String "-"%char EmptyString => None
  | _ => digits_val s 0
  end.

#[export] Instance builtins : Builtins := {|
  int_of_str := int_of_decimal;
  float_of_str := int_of_decimal;
|}.

(** Every call succeeds; the answer of a call is fixed by the call. *)
Definition answer (c : Call) : ret c :=
  match c return ret c with
  | WandbInit _ _ _ => 1%nat
  | CudaIsAvailable => false
  | CudaGetDeviceName _ => "cpu"
  | WiderFaceDataset _ is_train => if is_train then 1%nat else 2%nat
  | DatasetLen _ => 64
  | DataLoader d _ _ _ _ => d
  | CreateExpDir => 0%nat
  | RetinaFace _ => 7%nat
  | ModelTo m _ => m
  | ModelFeatureMap _ => 3%nat
  | Anchors _ => 4%nat
  | AnchorsForward _ => 5%nat
  | AnchorsTo a _ => a
  | ModelParameters _ => 6%nat
  | OptimSGD _ _ _ _ => 8%nat
  | MultiBoxLoss _ _ _ _ _ _ _ _ _ => 9%nat
  | MultiStepLR _ _ _ => 10%nat
  | TimeNow => 0
  | NextBatch _ i => (i, [i; S i])
  | ImageTo x _ => x
  | AnnotTo t _ => t
  | Forward _ x => x
  | LossFn _ p _ _ => (10, 20, 30)
  | ModelStateDict _ => 11%nat
  | GetLastLr _ => [NFloat 1]
  | Artifact _ _ => 12%nat
  | UseDataWandb _ _ _ | Print _ | ManualSeed _ | RunWatch _ _ _ _ _
  | ModelTrainMode _ | ZeroGrad _ | Backward _ | OptStep _ | OnnxExport _ _ _
  | TorchSave _ _ | WandbLog _ _ | SchedStep _ | SummarySet _ _ | AddFile _ _
  | LogArtifact _ => tt
  end.

Definition handler (c : Call) (w : World) : (ExtExn + ret c) * World :=
  (inr (answer c), S w).

(** The same environment, except that the optimizer step fails from the
    fourth answered call on. *)
Definition flaky_handler (c : Call) (w : World) : (ExtExn + ret c) * World :=
  match c with
  | OptStep _ => if (3 <=? w)%nat then (inl 99%nat, w) else (inr (answer c), S w)
  | _ => (inr (answer c), S w)
  end.

Definition grad_mode (b : bool) (w : World) : World := w.

Definition args (epochs : Z) (tune : bool) : Args := {|
  run := "exp"; epoch := epochs; model := "mobilenet0.25"; weight := None;
  weight_decay := NFloat 5; momentum := NFloat 9; startfm := NInt 16;
  batchsize := NInt 32; lr := NFloat 1; download := false; tuning := tune;
|}.

(** A call of train, one epoch and runs of the whole program in this
    environment, all from the world 0. *)
Abbreviation train_call :=
  (train handler (args 2 false) 7%nat 5%nat 1%nat 8%nat 9%nat (-1) cpu 0%nat).

Abbreviation epoch_call :=
  (epoch_body handler (args 2 false) 7%nat 5%nat 1%nat 8%nat 9%nat 10%nat cpu 2 0 (-1)
     0%nat).

Abbreviation program a := (main handler grad_mode a 0%nat).

Abbreviation flaky_program a := (main flaky_handler grad_mode a 0%nat).

Definition train_result : PyNum * PyNum * PyNum * Z :=
  (PTensor 20, PTensor 10, PTensor 30, 0).

(** An invocation and the namespace that parse_args returns for it. *)
Definition argv : list string := ["--epoch"; "3"; "--tuning"].

Definition namespace : gmap string Value :=
  <["tuning" := VBool true]> (<["epoch" := VNum (NInt 3)]> (set_defaults parser ∅)).

(** The configuration that the first call of a trace hands to the tracker. *)
Definition first_config (t : list Event) : option (list (string * Value)) :=
  match t with
  | Done (WandbInit _ c _) _ :: _ => Some c
  | _ => None
  end.

End Sample.

(** ** A framework with loaders of any length

    The loader [n] has [n] batches; only [model.train()] is answered, every
    other call fails. *)

Module Sized.

#[export] Instance framework : Framework := {|
  Float := Z; Tensor := Z; Image := nat; Annot := nat; Pred := nat; AnchorT := nat;
  Model := nat; Optim := nat; Crit := nat; Sched := nat; Loader := nat;
  Dataset := nat; WRun := nat; ArtifactH := nat; StateDict := nat; FeatMap := nat;
  AnchorGen := nat; Params := nat; ExpDir := nat; PyObj := nat; ExtExn := nat;
  World := nat;
  float_1_3 := 13; float_0_7 := 7;
  float_of_int := id; float_add := Z.add; float_sub := Z.sub;
  float_div_int := Z.div; int_truediv := Z.div;
  loader_len := λ l, l;
|}.

#[export] Instance tensor_ops : TensorOps := {|
  tensor_add := Z.add;
  tensor_add_num := λ t n, match n with NInt z => t + z | NFloat f => t + f end;
  tensor_radd_num := λ n t, match n with NInt z => z + t | NFloat f => f + t end;
  tensor_rmul_float := Z.mul;
  tensor_div_int := Z.div;
|}.

#[export] Instance config : Config := {|
  RUN_NAME := "exp"; EPOCHS := 2;
  WEIGHT_DECAY := NFloat 5; MOMENTUM := NFloat 9; START_FRAME := NInt 16;
  BATCH_SIZE := NInt 32; LEARNING_RATE := NFloat 1;
  PROJECT := "retina"; DATASET := "wider"; DATA_PATH := "data/"; SAVE_PATH := "w/";
  RANDOM_SEED := 0%nat; NUM_WORKERS := 2%nat; N_CLASSES := 2%nat; OVERLAP_THRES := 35%nat;
  BKG_LABEL := 0%nat; NEG_MINING := 1%nat; NEG_OVERLAP := 35%nat; LR_MILESTONE := 0%nat;
|}.

Definition handler (c : Call) (w : World) : (ExtExn + ret c) * World :=
  match c return (ExtExn + ret c) * World with
  | ModelTrainMode _ => (inr tt, S w)
  | _ => (inl 1%nat, w)
  end.

Definition args : Args := {|
  run := "exp"; epoch := 1; model := "mobilenet0.25"; weight := None;
  weight_decay := NFloat 5; momentum := NFloat 9; startfm := NInt 16;
  batchsize := NInt 32; lr := NFloat 1; download := false; tuning := false;
|}.

(** A call of train on the empty loader 0. *)
Definition empty_loader : Loader := 0%nat.

Definition train_call : Res (PyNum * PyNum * PyNum * Z) :=
  train handler args 7%nat 5%nat empty_loader 8%nat 9%nat (-1) cpu 0%nat.

Definition train_trace : list Event := [Done (ModelTrainMode 7%nat) tt].

Definition failed_trace (x : ExtExn) : list Event := [Failed (ModelTrainMode 7%nat) x].

End Sized.


(** ** What a run of train looks like from outside *)

(** The answers that the framework gave while one batch was processed. *)
Record BatchRun `{Framework} := {
  raw_input : Image;
  raw_targets : list Annot;
  dev_input : Image;
  dev_targets : list Annot;
  predict : Pred;
  loss_l : Tensor;
  loss_c : Tensor;
  loss_landm : Tensor;
}.

Section Shapes.
Context `{TO : TensorOps} `{CF : !Config}.

(** The scalar of line 49 for the three answers of the loss function. *)
Definition combined_loss (b : BatchRun) : Tensor :=
  tensor_add (tensor_add (tensor_rmul_float float_1_3 (loss_l b)) (loss_c b)) (loss_landm b).

Definition batch_events (model : Model) (anchors : AnchorT) (trainloader : Loader)
    (optimizer : Optim) (loss_function : Crit) (device : Device)
    (i : nat) (b : BatchRun) : list Event :=
  [Done (NextBatch trainloader i) (raw_input b, raw_targets b);
   Done (ImageTo (raw_input b) device) (dev_input b)]
  ++ zip_with (λ t t', Done (AnnotTo t device) t') (raw_targets b) (dev_targets b)
  ++ [Done (Forward model (dev_input b)) (predict b);
      Done (LossFn loss_function (predict b) anchors (dev_targets b))
           (loss_l b, loss_c b, loss_landm b);
      Done (ZeroGrad optimizer) tt;
      Done (Backward (combined_loss b)) tt;
      Done (OptStep optimizer) tt].

Fixpoint batches_events (model : Model) (anchors : AnchorT) (trainloader : Loader)
    (optimizer : Optim) (loss_function : Crit) (device : Device)
    (i : nat) (bs : list BatchRun) : list Event :=
  match bs with
  | [] => []
  | b :: bs' =>
      batch_events model anchors trainloader optimizer loss_function device i b
      ++ batches_events model anchors trainloader optimizer loss_function device (S i) bs'
  end.

(** The checkpoint export of lines 68-70. *)
Definition export_events (args : Args) (model : Model) (input : Image) (sd : StateDict)
    : list Event :=
  [Done (OnnxExport model input (SAVE_PATH +:+ run args +:+ ".onnx")) tt;
   Done (ModelStateDict model) sd;
   Done (TorchSave sd (SAVE_PATH +:+ run args +:+ ".pth")) tt].

(** The accumulators after the batches [bs], from their values [s] before. *)
Definition accumulate (s : PyNum * PyNum * PyNum * option Image) (bs : list BatchRun)
    : PyNum * PyNum * PyNum * option Image :=
  fold_left (λ '(loss_cls, loss_box, loss_pts, _) b,
               (py_add loss_cls (PTensor (loss_c b)),
                py_add loss_box (PTensor (loss_l b)),
                py_add loss_pts (PTensor (loss_landm b)),
                Some (dev_input b))) bs s.

(** The sum of the tensors [ts] the way the loop builds it, starting from 0. *)
Definition total (ts : list Tensor) : PyNum :=
  fold_left (λ acc t, py_add acc (PTensor t)) ts (PNum (NInt 0)).

(** The mean of line 63-65 over [ts]. *)
Definition mean (ts : list Tensor) : Exn + PyNum :=
  py_div_len (total ts) (Z.of_nat (length ts)).

(** *** Views of a trace *)


Definition is_failed (e : Event) : bool :=
  match e with Failed _ _ => true | _ => false end.

Definition is_marker (e : Event) : bool :=
  match e with EnterNoGrad | ExitNoGrad => true | _ => false end.

(** Forward pass, loss and backward pass of a trace, with the answers. *)
Inductive GradEv :=
| GForward (m : Model) (x : Image) (p : Pred)
| GLoss (c : Crit) (p : Pred) (a : AnchorT) (ts : list Annot) (l3 : Tensor * Tensor * Tensor)
| GBackward (loss : Tensor).

Definition grad_view (e : Event) : list GradEv :=
  match e with
  | Done (Forward m x) p => [GForward m x p]
  | Done (LossFn c p a ts) l3 => [GLoss c p a ts l3]
  | Done (Backward loss) _ => [GBackward loss]
  | _ => []
  end.

Definition batch_grad (model : Model) (anchors : AnchorT) (loss_function : Crit)
    (b : BatchRun) : list GradEv :=
  [GForward model (dev_input b) (predict b);
   GLoss loss_function (predict b) anchors (dev_targets b) (loss_l b, loss_c b, loss_landm b);
   GBackward (tensor_add (tensor_add (tensor_rmul_float float_1_3 (loss_l b)) (loss_c b))
                (loss_landm b))].

(** The epoch loop as the tracker and the scheduler see it. *)
Inductive EpochEv :=
| EMultiStepLR (milestones : PyObj) (gamma : Float) (s : Sched)
| ETrain (m : Model)
| EBatch (l : Loader) (i : nat)
| ELog (data : list (string * PyNum)) (step : Z)
| EGetLr (s : Sched) (lrs : list Num)
| ESchedStep (s : Sched).

Definition epoch_view (e : Event) : list EpochEv :=
  match e with
  | Done (MultiStepLR _ ms g) s => [EMultiStepLR ms g s]
  | Done (ModelTrainMode m) _ => [ETrain m]
  | Done (NextBatch l i) _ => [EBatch l i]
  | Done (WandbLog d s) _ => [ELog d s]
  | Done (GetLastLr s) lrs => [EGetLr s lrs]
  | Done (SchedStep s) _ => [ESchedStep s]
  | _ => []
  end.

(** Checkpoint export and best-accuracy summary. *)
Inductive ExportEv :=
| XOnnx (path : string)
| XSave (path : string)
| XBest (v : Z)
| XEpoch.  (* an epoch begins *)

Definition export_view (e : Event) : list ExportEv :=
  match e with
  | Done (OnnxExport _ _ p) _ => [XOnnx p]
  | Done (TorchSave _ p) _ => [XSave p]
  | Done (SummarySet _ v) _ => [XBest v]
  | Done (ModelTrainMode _) _ => [XEpoch]
  | _ => []
  end.

(** The artifact calls. *)
Inductive ArtifactEv :=
| ACreate (name type : string) (a : ArtifactH)
| AAdd (a : ArtifactH) (path : string)
| ALog (a : ArtifactH).

Definition artifact_view (e : Event) : list ArtifactEv :=
  match e with
  | Done (Artifact n t) a => [ACreate n t a]
  | Done (AddFile a p) _ => [AAdd a p]
  | Done (LogArtifact a) _ => [ALog a]
  | _ => []
  end.

(** Construction of the dataloaders and of the network. *)
Inductive BuildEv :=
| BLoader (d : Dataset) (batch_size : Num) (shuffle : bool) (num_workers : PyObj) (l : Loader)
| BModel (model_name : string) (m : Model).

Definition build_view (e : Event) : list BuildEv :=
  match e with
  | Done (DataLoader d b s n _) l => [BLoader d b s n l]
  | Done (RetinaFace n) m => [BModel n m]
  | _ => []
  end.

(** A trace with the batch size entry of the tracker configuration blanked. *)
Definition blank_batchsize (config : list (string * Value)) : list (string * Value) :=
  (λ kv, if bool_decide (kv.1 = "batchsize") then (kv.1, VNone) else kv) <$> config.

Definition blank_event (e : Event) : Event :=
  match e with
  | Done (WandbInit p c n) r => Done (WandbInit p (blank_batchsize c) n) r
  | Failed (WandbInit p c n) x => Failed (WandbInit p (blank_batchsize c) n) x
  | _ => e
  end.

(** The same arguments with other values for [--batchsize] and [--weight]. *)
Definition set_batchsize_weight (a : Args) (b : Num) (wt : option string) : Args :=
  {| run := run a; epoch := epoch a; model := model a; weight := wt;
     weight_decay := weight_decay a; momentum := momentum a; startfm := startfm a;
     batchsize := b; lr := lr a; download := download a; tuning := tuning a |}.

(** The call of an event, answered or failed. *)
Definition call_of (e : Event) : option Call :=
  match e with
  | Done c _ => Some c
  | Failed c _ => Some c
  | _ => None
  end.

(** A loader is built with the constant of the configuration. *)
Definition loader_batch_ok (e : Event) : Prop :=
  match call_of e with
  | Some (DataLoader _ b _ _ _) => b = BATCH_SIZE
  | _ => True
  end.

(** [P] holds of every event of every run of [m]. *)
Definition Always {A} (P : Event → Prop) (m : M A) : Prop :=
  ∀ w, Forall P (trace (m w)).

(** What the trace of a finished call of train ends with. *)
Definition export_tail (args : Args) (model : Model) (best_ap : Z) (bs : list BatchRun)
    (tail : list Event) : Prop :=
  if 0 >? best_ap then
    ∃ x sd, last (dev_input <$> bs) = Some x ∧ tail = export_events args model x sd
  else tail = [].

(** *** One epoch of the main loop *)

(** The answers of one epoch: the clock, the batches, what train returned
    (in the order of its [return]) and the learning rates of the scheduler. *)
Record EpochRun := {
  ep_t0 : Float;
  ep_t1 : Float;
  ep_batches : list BatchRun;
  ep_tail : list Event;
  mean_cls : PyNum;
  mean_box : PyNum;
  mean_pts : PyNum;
  lr0 : Num;
  lr_rest : list Num;
}.

(** [best_ap] after an epoch, train's AP being 0 (lines 157-159). *)
Definition next_best (best_ap : Z) : Z := if 0 >? best_ap then 0 else best_ap.

Section Epochs.
Variables (args : Args) (model : Model) (anchors : AnchorT) (trainloader : Loader)
  (optimizer : Optim) (criterion : Crit) (scheduler : Sched) (device : Device).

Definition epoch_ok (best_ap : Z) (er : EpochRun) : Prop :=
  length (ep_batches er) = loader_len trainloader
  ∧ ep_batches er ≠ []
  ∧ mean (loss_c <$> ep_batches er) = inr (mean_cls er)
  ∧ mean (loss_l <$> ep_batches er) = inr (mean_box er)
  ∧ mean (loss_landm <$> ep_batches er) = inr (mean_pts er)
  ∧ export_tail args model best_ap (ep_batches er) (ep_tail er).

(** Main binds train's tuple to (loss_box, loss_pts, loss_cls, train_ap). *)
Definition epoch_events (epochs : Z) (epoch : Z) (best_ap : Z) (er : EpochRun) : list Event :=
  let loss_box := mean_cls er in
  let loss_pts := mean_box er in
  let loss_cls := mean_pts er in
  [Done (Print MsgEpochHeader) tt; Done TimeNow (ep_t0 er)]
  ++ (Done (ModelTrainMode model) tt
        :: batches_events model anchors trainloader optimizer criterion device 0
             (ep_batches er) ++ ep_tail er)
  ++ [Done TimeNow (ep_t1 er);
      Done (WandbLog [("loss_cls", loss_cls); ("loss_box", loss_box);
                      ("loss_landmark", loss_pts)] epoch) tt;
      Done (Print (MsgEpochLine epoch epochs loss_box loss_pts loss_cls
                     (py_add (py_add loss_box loss_pts) loss_cls)
                     (float_sub (ep_t1 er) (ep_t0 er)))) tt;
      Done (GetLastLr scheduler) (lr0 er :: lr_rest er);
      Done (WandbLog [("lr", PNum (lr0 er))] epoch) tt;
      Done (SchedStep scheduler) tt]
  ++ (if 0 >? best_ap then [Done (SummarySet "best_accuracy" 0) tt] else []).

Fixpoint epochs_events (epochs : Z) (e : nat) (best_ap : Z) (ers : list EpochRun)
    : list Event :=
  match ers with
  | [] => []
  | er :: ers' =>
      epoch_events epochs (Z.of_nat e) best_ap er
      ++ epochs_events epochs (S e) (next_best best_ap) ers'
  end.

Fixpoint epochs_ok (best_ap : Z) (ers : list EpochRun) : Prop :=
  match ers with
  | [] => True
  | er :: ers' => epoch_ok best_ap er ∧ epochs_ok (next_best best_ap) ers'
  end.

(** What the tracker and the scheduler see of epoch number [e]. *)
Definition epoch_summary (e : Z) (er : EpochRun) : list EpochEv :=
  ETrain model :: (EBatch trainloader <$> seq 0 (loader_len trainloader))
  ++ [ELog [("loss_cls", mean_pts er); ("loss_box", mean_cls er);
            ("loss_landmark", mean_box er)] e;
      EGetLr scheduler (lr0 er :: lr_rest er);
      ELog [("lr", PNum (lr0 er))] e;
      ESchedStep scheduler].

Fixpoint epochs_summary (e : nat) (ers : list EpochRun) : list EpochEv :=
  match ers with
  | [] => []
  | er :: ers' => epoch_summary (Z.of_nat e) er ++ epochs_summary (S e) ers'
  end.

End Epochs.

(** Lines 162-165 for the artifact [a]. *)
Definition artifact_events (args : Args) (a : ArtifactH) : list Event :=
  [Done (Artifact (run args) "weights") a;
   Done (AddFile a (SAVE_PATH +:+ run args +:+ ".onnx")) tt;
   Done (AddFile a (SAVE_PATH +:+ run args +:+ ".pth")) tt;
   Done (LogArtifact a) tt].

(** How many times a trace exports the network to ONNX, and saves it. *)
Definition onnx_exports (t : list Event) : nat :=
  length (flat_map (λ x, match x with XOnnx _ => [x] | _ => [] end)
            (flat_map export_view t)).

Definition torch_saves (t : list Event) : nat :=
  length (flat_map (λ x, match x with XSave _ => [x] | _ => [] end)
            (flat_map export_view t)).

(** *** Failures in a trace *)

Definition no_failure (t : list Event) : Prop :=
  Forall (λ e, is_failed e = false) t.

(** The calls of a trace that failed, with what they raised. *)
Definition failed_calls (t : list Event) : list (Call * ExtExn) :=
  flat_map (λ e, match e with Failed c x => [(c, x)] | _ => [] end) t.

(** What a trace holds after its first failed call. *)
Fixpoint after_failure (t : list Event) : list Event :=
  match t with
  | [] => []
  | e :: t' => if is_failed e then t' else after_failure t'
  end.

(** A result is [sound] when an external exception at the top is the one of
    the only failed call of the trace, and nothing but the end of a
    [with] block comes after that call. *)
Definition sound {A} (r : Res A) : Prop :=
  match outcome r with
  | Raise (External x) =>
      ∃ pre c post, trace r = pre ++ Failed c x :: post
                    ∧ no_failure pre ∧ Forall (λ e, is_marker e = true) post
  | _ => no_failure (trace r)
  end.

Definition Sound {A} (m : M A) : Prop := ∀ w, sound (m w).

End Shapes.

(** ** What the set-up and the whole run look like from outside *)

(** The answers of a finished set-up (train.py, lines 88-131), in the order
    in which the calls are made. *)
Record SetupRun `{Framework} := {
  su_run : WRun;
  su_cuda : bool;
  su_device_name : string;
  su_train_set : Dataset;
  su_valid_set : Dataset;
  su_n_train : Z;
  su_n_valid : Z;
  su_trainloader : Loader;
  su_validloader : Loader;
  su_save_dir : ExpDir;
  su_net : Model;
  su_model : Model;
  su_feature_map : FeatMap;
  su_anchor_gen : AnchorGen;
  su_anchors_cpu : AnchorT;
  su_anchors : AnchorT;
  su_params : Params;
  su_optimizer : Optim;
  su_criterion : Crit;
  su_scheduler : Sched;
}.

Section MoreShapes.
Context `{TO : TensorOps} `{CF : !Config}.

Definition su_device (su : SetupRun) : Device := if su_cuda su then cuda0 else cpu.

Definition setup_events (args : Args) (su : SetupRun) : list Event :=
  [Done (WandbInit PROJECT (wandb_config args) "nmd2000") (su_run su);
   Done (UseDataWandb (su_run su) DATASET (download args)) tt;
   Done CudaIsAvailable (su_cuda su);
   Done (CudaGetDeviceName (su_device su)) (su_device_name su);
   Done (Print (MsgDevice (su_device_name su))) tt;
   Done (WiderFaceDataset DATA_PATH true) (su_train_set su);
   Done (WiderFaceDataset DATA_PATH false) (su_valid_set su);
   Done (DatasetLen (su_train_set su)) (su_n_train su);
   Done (DatasetLen (su_valid_set su)) (su_n_valid su);
   Done (Print (MsgExamples (su_n_train su) (su_n_valid su))) tt;
   Done (ManualSeed RANDOM_SEED) tt;
   Done (DataLoader (su_train_set su) BATCH_SIZE true NUM_WORKERS detection_collate)
        (su_trainloader su);
   Done (DataLoader (su_valid_set su) BATCH_SIZE false NUM_WORKERS detection_collate)
        (su_validloader su);
   Done CreateExpDir (su_save_dir su);
   Done (RetinaFace (model args)) (su_net su);
   Done (ModelTo (su_net su) (su_device su)) (su_model su);
   EnterNoGrad;
   Done (ModelFeatureMap (su_model su)) (su_feature_map su);
   Done (Anchors (su_feature_map su)) (su_anchor_gen su);
   Done (AnchorsForward (su_anchor_gen su)) (su_anchors_cpu su);
   Done (AnchorsTo (su_anchors_cpu su) (su_device su)) (su_anchors su);
   ExitNoGrad;
   Done (ModelParameters (su_model su)) (su_params su);
   Done (OptimSGD (su_params su) (lr args) (momentum args) (weight_decay args))
        (su_optimizer su);
   Done (MultiBoxLoss N_CLASSES OVERLAP_THRES true BKG_LABEL true NEG_MINING NEG_OVERLAP
           false (su_device su)) (su_criterion su);
   Done (MultiStepLR (su_optimizer su) LR_MILESTONE float_0_7) (su_scheduler su);
   Done (RunWatch (su_run su) (su_model su) (su_criterion su) "all" 10) tt].

Definition su_objects (su : SetupRun) : Objects :=
  (su_model su, su_anchors su, su_trainloader su, su_optimizer su, su_criterion su,
   su_scheduler su, su_device su).

(** Optimizer steps and checkpoint writes of a trace. *)
Inductive StepEv :=
| SStep (o : Optim)
| SOnnx (path : string)
| SSaved (path : string).

Definition step_view (e : Event) : list StepEv :=
  match e with
  | Done (OptStep o) _ => [SStep o]
  | Done (OnnxExport _ _ p) _ => [SOnnx p]
  | Done (TorchSave _ p) _ => [SSaved p]
  | _ => []
  end.

(** Datasets, loaders and the batches that are read. *)
Inductive DataEv :=
| DDataset (root_path : string) (is_train : bool) (d : Dataset)
| DLoader (d : Dataset) (shuffle : bool) (l : Loader)
| DBatch (l : Loader) (i : nat).

Definition data_view (e : Event) : list DataEv :=
  match e with
  | Done (WiderFaceDataset p t) d => [DDataset p t d]
  | Done (DataLoader d _ s _ _) l => [DLoader d s l]
  | Done (NextBatch l i) _ => [DBatch l i]
  | _ => []
  end.

(** Every exception that ends a run of [m] satisfies [P]. *)
Definition Raises {A} (P : Exn → Prop) (m : M A) : Prop :=
  ∀ w e, outcome (m w) = Raise e → P e.

(** A trace with the start frame entry of the tracker configuration blanked. *)
Definition blank_startfm (config : list (string * Value)) : list (string * Value) :=
  (λ kv, if bool_decide (kv.1 = "startfm") then (kv.1, VNone) else kv) <$> config.

Definition blank_startfm_event (e : Event) : Event :=
  match e with
  | Done (WandbInit p c n) r => Done (WandbInit p (blank_startfm c) n) r
  | Failed (WandbInit p c n) x => Failed (WandbInit p (blank_startfm c) n) x
  | _ => e
  end.

Definition set_startfm (a : Args) (sf : Num) : Args :=
  {| run := run a; epoch := epoch a; model := model a; weight := weight a;
     weight_decay := weight_decay a; momentum := momentum a; startfm := sf;
     batchsize := batchsize a; lr := lr a; download := download a; tuning := tuning a |}.

End MoreShapes.

(** * Properties *)

Section Facts.
Context `{TO : TensorOps} `{CF : !Config}.
Variable handler : ∀ c : Call, World → (ExtExn + ret c) * World.
Variable grad_mode : bool → World → World.

(** ** The monad: how a sequence of calls unfolds *)

Lemma bind_perform {B} (c : Call) (k : ret c → M B) (w : World) :
  m_bind (perform handler c) k w =
  match handler c w with
  | (inr r, w') => MkRes (outcome (k r w')) (world (k r w')) (Done c r :: trace (k r w'))
  | (inl e, w') => MkRes (Raise (External e)) w' [Failed c e]
  end.
Proof.
  unfold m_bind, perform. destruct (handler c w) as [[e | r] w']; reflexivity.
Qed.

Lemma bind_ret {A B} (a : A) (k : A → M B) (w : World) :
  m_bind (m_ret a) k w = k a w.
Proof. unfold m_bind, m_ret. cbn. destruct (k a w); reflexivity. Qed.

Lemma bind_assoc {A B C} (m : M A) (k : A → M B) (k' : B → M C) (w : World) :
  m_bind (m_bind m k) k' w = m_bind m (λ a, m_bind (k a) k') w.
Proof.
  unfold m_bind. destruct (outcome (m w)) as [a | e]; cbn; [| reflexivity].
  destruct (outcome (k a (world (m w)))) as [b | e]; cbn; [| reflexivity].
  rewrite app_assoc. reflexivity.
Qed.

Lemma bind_raise {A B} (e : Exn) (k : A → M B) (w : World) :
  m_bind (raise e) k w = MkRes (Raise e) w [].
Proof. reflexivity. Qed.

Lemma bind_Ok_inv {A B} (m : M A) (k : A → M B) (w : World) (b : B) :
  outcome (m_bind m k w) = Ok b →
  ∃ a, outcome (m w) = Ok a ∧ outcome (k a (world (m w))) = Ok b
       ∧ world (m_bind m k w) = world (k a (world (m w)))
       ∧ trace (m_bind m k w) = trace (m w) ++ trace (k a (world (m w))).
Proof.
  unfold m_bind. destruct (outcome (m w)) as [a | e]; simpl; [| discriminate].
  intros Hk. exists a. auto.
Qed.

Lemma bind_Raise {A B} (m : M A) (k : A → M B) (w : World) (e : Exn) :
  outcome (m w) = Raise e →
  m_bind m k w = MkRes (Raise e) (world (m w)) (trace (m w)).
Proof. unfold m_bind. intros ->. reflexivity. Qed.

Lemma bind_Ok {A B} (m : M A) (k : A → M B) (w : World) (a : A) :
  outcome (m w) = Ok a →
  m_bind m k w = MkRes (outcome (k a (world (m w)))) (world (k a (world (m w))))
                   (trace (m w) ++ trace (k a (world (m w)))).
Proof. unfold m_bind. intros ->. reflexivity. Qed.

Ltac step :=
  repeat first [rewrite bind_assoc | rewrite bind_ret];
  match goal with
  | |- context [m_bind (perform ?h ?c) ?k ?w] =>
      rewrite (bind_perform c);
      let e := fresh "e" in let r := fresh "r" in let w' := fresh "w" in
      destruct (h c w) as [[e | r] w'] eqn:?; cbn [outcome trace world]
  end.

Ltac kill_units :=
  repeat match goal with
         | u : ret ?c |- _ =>
             let T := eval cbn in (ret c) in
             match T with unit => destruct u end
         | u : unit |- _ => destruct u
         end.

(** Moving the annotations of a batch to the device: one call each, in order. *)
Lemma map_m_annot_cases (device : Device) (ts : list Annot) (w : World) :
  let r := map_m (λ annos, perform handler (AnnotTo annos device)) ts w in
  (∃ x, outcome r = Raise (External x)) ∨
  (∃ ts', outcome r = Ok ts'
          ∧ trace r = zip_with (λ t t', Done (AnnotTo t device) t') ts ts'
          ∧ length ts' = length ts).
Proof.
  revert w. induction ts as [| t ts IH]; intros w; cbn [map_m].
  - right. exists []. auto.
  - step; [left; eauto |].
    destruct (IH w0) as [[x E] | (ys & E & Htr & Hlen)].
    + left. exists x. rewrite (bind_Raise _ _ _ _ E). reflexivity.
    + right. exists (r :: ys). rewrite (bind_Ok _ _ _ _ E). cbn.
      rewrite Htr, app_nil_r, Hlen. auto.
Qed.

(** One batch: either a call failed, or the eight steps ran in order. *)
Lemma train_batch_cases (model : Model) (anchors : AnchorT) (trainloader : Loader)
    (optimizer : Optim) (loss_function : Crit) (device : Device)
    (i : nat) (s : LoopState) (w : World) :
  let r := train_batch handler model anchors trainloader optimizer loss_function device
             i s w in
  (∃ x, outcome r = Raise (External x)) ∨
  (∃ b, outcome r = Ok (accumulate s [b])
        ∧ trace r = batch_events model anchors trainloader optimizer loss_function device i b
        ∧ length (dev_targets b) = length (raw_targets b)).
Proof.
  destruct s as [[[loss_cls loss_box] loss_pts] input0]. unfold train_batch.
  step; [left; eauto |]. destruct r as [input targets].
  step; [left; eauto |].
  destruct (map_m_annot_cases device targets w1) as [[x E] | (ts' & E & Htr & Hlen)].
  - left. exists x. rewrite (bind_Raise _ _ _ _ E). reflexivity.
  - rewrite (bind_Ok _ _ _ _ E). cbn [outcome trace world].
    step; [left; eauto |]. step; [left; eauto |].
    match goal with r : ret (LossFn _ _ _ _) |- _ => destruct r as [[l c] lm] end.
    step; [left; eauto |]. step; [left; eauto |]. step; [left; eauto |].
    kill_units.
    right. eexists (@Build_BatchRun _ input targets _ ts' _ l c lm).
    cbn. rewrite Htr. repeat split; assumption.
Qed.

(** The whole pass over the loader. *)
Lemma batch_loop_cases (model : Model) (anchors : AnchorT) (trainloader : Loader)
    (optimizer : Optim) (loss_function : Crit) (device : Device)
    (n i : nat) (s : LoopState) (w : World) :
  let r := for_each (train_batch handler model anchors trainloader optimizer
                       loss_function device) (seq i n) s w in
  (∃ x, outcome r = Raise (External x)) ∨
  (∃ bs, length bs = n ∧ outcome r = Ok (accumulate s bs)
         ∧ trace r = batches_events model anchors trainloader optimizer loss_function
                       device i bs
         ∧ Forall (λ b, length (dev_targets b) = length (raw_targets b)) bs).
Proof.
  revert i s w. induction n as [| n IH]; intros i s w; cbn [seq for_each].
  - right. exists []. repeat split; auto.
  - destruct (train_batch_cases model anchors trainloader optimizer loss_function device
                i s w) as [[x E] | (b & E & Htr & Hlen)].
    + left. exists x. rewrite (bind_Raise _ _ _ _ E). reflexivity.
    + rewrite (bind_Ok _ _ _ _ E). cbn [outcome trace world].
      match goal with |- context [for_each _ (seq (S i) n) ?s' ?w'] =>
        destruct (IH (S i) s' w') as [[x E'] | (bs & Hn & E' & Htr' & Hall)] end.
      * left. eauto.
      * right. exists (b :: bs). rewrite E', Htr, Htr'. cbn. rewrite Hn. auto.
Qed.

Lemma last_cons_from_option {A} (x : A) (l : list A) (o : option A) :
  from_option Some o (last (x :: l)) = from_option Some (Some x) (last l).
Proof.
  destruct l as [| y l]; [reflexivity |].
  change (last (x :: y :: l)) with (last (y :: l)).
  destruct (last (y :: l)) eqn:E; [reflexivity |].
  apply last_None in E. discriminate.
Qed.

Lemma accumulate_spec (loss_cls loss_box loss_pts : PyNum) (input : option Image)
    (bs : list BatchRun) :
  accumulate (loss_cls, loss_box, loss_pts, input) bs =
  (fold_left (λ acc t, py_add acc (PTensor t)) (loss_c <$> bs) loss_cls,
   fold_left (λ acc t, py_add acc (PTensor t)) (loss_l <$> bs) loss_box,
   fold_left (λ acc t, py_add acc (PTensor t)) (loss_landm <$> bs) loss_pts,
   from_option Some input (last (dev_input <$> bs))).
Proof.
  revert loss_cls loss_box loss_pts input.
  induction bs as [| b bs IH]; intros; [reflexivity |].
  cbn [accumulate fold_left fmap list_fmap]. unfold accumulate in IH. rewrite IH.
  f_equal. symmetry. apply last_cons_from_option.
Qed.

Lemma fold_add_tensor (t : Tensor) (ts : list Tensor) :
  ∃ u, fold_left (λ acc x, py_add acc (PTensor x)) ts (PTensor t) = PTensor u.
Proof.
  revert t. induction ts as [| x ts IH]; intros t; cbn; eauto.
Qed.

(** After at least one batch the accumulator is a tensor. *)
Lemma total_tensor (ts : list Tensor) :
  ts ≠ [] → ∃ u, total ts = PTensor u.
Proof.
  destruct ts as [| x ts]; [congruence |]. intros _. unfold total. cbn.
  apply fold_add_tensor.
Qed.

Lemma mean_nonempty (ts : list Tensor) :
  ts ≠ [] → ∃ u, total ts = PTensor u
                 ∧ mean ts = inr (PTensor (tensor_div_int u (Z.of_nat (length ts)))).
Proof.
  intros Hne. destruct (total_tensor ts Hne) as [u Hu]. exists u. split; [assumption |].
  unfold mean. rewrite Hu. reflexivity.
Qed.

(** A call of train: a framework call failed, or the loader was empty and
    line 63 divided by zero, or the epoch ran to the end. *)
Lemma train_cases (args : Args) (model : Model) (anchors : AnchorT) (trainloader : Loader)
    (optimizer : Optim) (loss_function : Crit) (best_ap : Z) (device : Device)
    (w : World) :
  let r := train handler args model anchors trainloader optimizer loss_function
             best_ap device w in
  (∃ x, outcome r = Raise (External x)) ∨
  (loader_len trainloader = 0%nat ∧ outcome r = Raise ZeroDivisionError) ∨
  (∃ bs cl bx pt tail,
      length bs = loader_len trainloader ∧ bs ≠ []
      ∧ Forall (λ b, length (dev_targets b) = length (raw_targets b)) bs
      ∧ mean (loss_c <$> bs) = inr cl
      ∧ mean (loss_l <$> bs) = inr bx
      ∧ mean (loss_landm <$> bs) = inr pt
      ∧ outcome r = Ok (cl, bx, pt, 0)
      ∧ trace r = Done (ModelTrainMode model) tt
                    :: batches_events model anchors trainloader optimizer loss_function
                         device 0 bs ++ tail
      ∧ export_tail args model best_ap bs tail).
Proof.
  unfold train. step; [left; eauto |]. kill_units.
  destruct (batch_loop_cases model anchors trainloader optimizer loss_function device
              (loader_len trainloader) 0 (PNum (NInt 0), PNum (NInt 0), PNum (NInt 0), None)
              w0) as [[x E] | (bs & Hn & E & Htr & Hall)].
  - left. exists x. rewrite (bind_Raise _ _ _ _ E). reflexivity.
  - rewrite (bind_Ok _ _ _ _ E). cbn [outcome trace world]. rewrite Htr.
    rewrite accumulate_spec. rewrite <- Hn.
    destruct bs as [| b0 bs0] eqn:Hbs.
    + right; left. split; reflexivity.
    + rewrite <- Hbs in *. assert (Hne : bs ≠ []) by (subst bs; discriminate).
      assert (Hc : loss_c <$> bs ≠ []) by (subst bs; discriminate).
      assert (Hl : loss_l <$> bs ≠ []) by (subst bs; discriminate).
      assert (Hp : loss_landm <$> bs ≠ []) by (subst bs; discriminate).
      destruct (mean_nonempty _ Hc) as (uc & Huc & Hmc).
      destruct (mean_nonempty _ Hl) as (ul & Hul & Hml).
      destruct (mean_nonempty _ Hp) as (up & Hup & Hmp).
      rewrite length_fmap in Hmc, Hml, Hmp.
      fold (total (loss_c <$> bs)) (total (loss_l <$> bs)) (total (loss_landm <$> bs)).
      rewrite Huc, Hul, Hup. cbn [py_div_len lift].
      rewrite !bind_ret. cbn [outcome trace world].
      assert (Hlast : is_Some (last (dev_input <$> bs))).
      { apply last_is_Some. subst bs. discriminate. }
      destruct Hlast as [xin Hlast].
      unfold export_tail. destruct (0 >? best_ap) eqn:Hgt.
      * rewrite Hlast. cbn [from_option read_input].
        step; [left; eauto |]. step; [left; eauto |]. step; [left; eauto |].
        kill_units. right; right.
        eexists bs, _, _, _, _.
        repeat split; cbn [trace m_ret]; eauto.
      * rewrite !bind_ret. cbn. right; right.
        eexists bs, _, _, _, _.
        repeat split; eauto.
Qed.

(** ** Failures are not handled *)

Lemma Sound_ret {A} (a : A) : Sound (m_ret a).
Proof. intros w. constructor. Qed.

Lemma Sound_raise_ZeroDivisionError {A} : Sound (raise (A:=A) ZeroDivisionError).
Proof. intros w. constructor. Qed.

Lemma Sound_raise_UnboundLocalError {A} : Sound (raise (A:=A) UnboundLocalError).
Proof. intros w. constructor. Qed.

Lemma Sound_raise_IndexError {A} : Sound (raise (A:=A) IndexError).
Proof. intros w. constructor. Qed.

Lemma Sound_lift_div (a : PyNum) (n : Z) : Sound (lift (py_div_len a n)).
Proof.
  intros w. destruct a as [[x | f] | t]; cbn; try destruct (decide (n = 0)); constructor.
Qed.

Lemma Sound_perform (c : Call) : Sound (perform handler c).
Proof.
  intros w. unfold sound, perform. destruct (handler c w) as [[e | r] w']; cbn.
  - exists [], c, []. repeat split; constructor.
  - repeat constructor.
Qed.

Lemma Sound_bind {A B} (m : M A) (k : A → M B) :
  Sound m → (∀ a, Sound (k a)) → Sound (m_bind m k).
Proof.
  intros Hm Hk w. specialize (Hm w). unfold sound in *.
  destruct (outcome (m w)) as [a | e] eqn:E.
  - rewrite (bind_Ok _ _ _ _ E). cbn [outcome trace]. specialize (Hk a (world (m w))).
    unfold sound in Hk.
    destruct (outcome (k a (world (m w)))) as [b | [| | | x]];
      try (apply Forall_app; split; assumption).
    destruct Hk as (pre & c & post & -> & Hpre & Hpost).
    exists (trace (m w) ++ pre), c, post. rewrite app_assoc.
    repeat split; [apply Forall_app; split |]; assumption.
  - rewrite (bind_Raise _ _ _ _ E). cbn [outcome trace]. exact Hm.
Qed.

Lemma Sound_for_each {A S} (body : A → S → M S) (l : list A) (s : S) :
  (∀ a s, Sound (body a s)) → Sound (for_each body l s).
Proof.
  intros Hb. revert s. induction l as [| a l IH]; intros s; cbn [for_each].
  - apply Sound_ret.
  - apply Sound_bind; [apply Hb | intros; apply IH].
Qed.

Lemma Sound_map_m {A B} (f : A → M B) (l : list A) :
  (∀ a, Sound (f a)) → Sound (map_m f l).
Proof.
  intros Hf. induction l as [| a l IH]; cbn [map_m].
  - apply Sound_ret.
  - apply Sound_bind; [apply Hf | intros b].
    apply Sound_bind; [apply IH | intros; apply Sound_ret].
Qed.

Lemma Sound_with_no_grad {A} (body : M A) :
  Sound body → Sound (with_no_grad grad_mode body).
Proof.
  intros Hb w. specialize (Hb (grad_mode false w)). unfold sound, with_no_grad in *.
  cbn [outcome trace].
  destruct (outcome (body (grad_mode false w))) as [a | [| | | x]];
    try (constructor; [reflexivity | apply Forall_app; split; [assumption | repeat constructor]]).
  destruct Hb as (pre & c & post & -> & Hpre & Hpost).
  exists (EnterNoGrad :: pre), c, (post ++ [ExitNoGrad]).
  repeat split.
  - cbn. rewrite <- app_assoc. reflexivity.
  - constructor; [reflexivity | assumption].
  - apply Forall_app; split; [assumption | repeat constructor].
Qed.

Create HintDb sound.
#[local] Hint Resolve Sound_ret Sound_raise_ZeroDivisionError Sound_raise_UnboundLocalError
  Sound_raise_IndexError Sound_lift_div Sound_perform : sound.

Ltac sound_step :=
  first
    [ apply Sound_bind; [| intros ?]
    | apply Sound_for_each; intros ? ?
    | apply Sound_map_m; intros ?
    | apply Sound_with_no_grad
    | match goal with
      | |- Sound (perform _ ?c) => exact (Sound_perform c)
      | |- Sound (match ?x with _ => _ end) => destruct x
      | |- Sound (if ?b then _ else _) => destruct b
      end
    | solve [auto with sound] ].

Lemma Sound_train (args : Args) (model : Model) (anchors : AnchorT) (trainloader : Loader)
    (optimizer : Optim) (loss_function : Crit) (best_ap : Z) (device : Device) :
  Sound (train handler args model anchors trainloader optimizer loss_function best_ap
           device).
Proof. unfold train, train_batch, read_input. repeat sound_step. Qed.

Lemma Sound_main (args : Args) : Sound (main handler grad_mode args).
Proof.
  unfold main, setup, make_anchors, training, export_artifact, epoch_body.
  repeat first [apply Sound_train | sound_step].
Qed.

Lemma no_failure_forallb (t : list Event) :
  forallb (λ e, negb (is_failed e)) t = true → no_failure t.
Proof.
  induction t as [| e t IH]; cbn; [constructor |].
  intros [He Ht]%andb_prop. constructor; [| exact (IH Ht)].
  destruct (is_failed e); [discriminate | reflexivity].
Qed.

Lemma sound_no_failure {A} (r : Res A) (x : ExtExn) :
  sound r → no_failure (trace r) → outcome r ≠ Raise (External x).
Proof.
  unfold sound. intros Hs Hnf E. rewrite E in Hs.
  destruct Hs as (pre & c & post & Htr & _ & _). rewrite Htr in Hnf.
  apply Forall_app in Hnf as [_ Hnf]. inversion Hnf; discriminate.
Qed.

(** ** Views of the trace of train *)

Lemma flat_map_annot_events {V} (f : Event → list V) (device : Device)
    (ts ts' : list Annot) :
  (∀ t t', f (Done (AnnotTo t device) t') = []) →
  flat_map f (zip_with (λ t t', Done (AnnotTo t device) t') ts ts') = [].
Proof.
  intros Hf. revert ts'. induction ts as [| t ts IH]; intros [| t' ts']; cbn; auto.
  rewrite Hf, IH. reflexivity.
Qed.

Section TrainViews.
Variables (model : Model) (anchors : AnchorT) (trainloader : Loader)
  (optimizer : Optim) (loss_function : Crit) (device : Device).

Lemma grad_view_batches (i : nat) (bs : list BatchRun) :
  flat_map grad_view
    (batches_events model anchors trainloader optimizer loss_function device i bs)
  = flat_map (batch_grad model anchors loss_function) bs.
Proof.
  revert i. induction bs as [| b bs IH]; intros i; [reflexivity |].
  cbn [batches_events]. rewrite flat_map_app, IH. unfold batch_events.
  rewrite !flat_map_app, flat_map_annot_events by reflexivity. reflexivity.
Qed.

Lemma epoch_view_batches (i : nat) (bs : list BatchRun) :
  flat_map epoch_view
    (batches_events model anchors trainloader optimizer loss_function device i bs)
  = EBatch trainloader <$> seq i (length bs).
Proof.
  revert i. induction bs as [| b bs IH]; intros i; [reflexivity |].
  cbn [batches_events]. rewrite flat_map_app, IH. unfold batch_events.
  rewrite !flat_map_app, flat_map_annot_events by reflexivity. reflexivity.
Qed.

Lemma export_view_batches (i : nat) (bs : list BatchRun) :
  flat_map export_view
    (batches_events model anchors trainloader optimizer loss_function device i bs) = [].
Proof.
  revert i. induction bs as [| b bs IH]; intros i; [reflexivity |].
  cbn [batches_events]. rewrite flat_map_app, IH. unfold batch_events.
  rewrite !flat_map_app, flat_map_annot_events by reflexivity. reflexivity.
Qed.

Lemma artifact_view_batches (i : nat) (bs : list BatchRun) :
  flat_map artifact_view
    (batches_events model anchors trainloader optimizer loss_function device i bs) = [].
Proof.
  revert i. induction bs as [| b bs IH]; intros i; [reflexivity |].
  cbn [batches_events]. rewrite flat_map_app, IH. unfold batch_events.
  rewrite !flat_map_app, flat_map_annot_events by reflexivity. reflexivity.
Qed.

Lemma export_tail_views (args : Args) (best_ap : Z) (bs : list BatchRun)
    (tail : list Event) :
  export_tail args model best_ap bs tail →
  flat_map grad_view tail = [] ∧ flat_map epoch_view tail = []
  ∧ flat_map artifact_view tail = []
  ∧ flat_map export_view tail =
      if 0 >? best_ap
      then [XOnnx (SAVE_PATH +:+ run args +:+ ".onnx");
            XSave (SAVE_PATH +:+ run args +:+ ".pth")]
      else [].
Proof.
  unfold export_tail. destruct (0 >? best_ap).
  - intros (x & sd & _ & ->). repeat split; reflexivity.
  - intros ->. repeat split; reflexivity.
Qed.

End TrainViews.

(** ** Claims about train *)

(** C1. A finished call of train made one pass over the loader: after
    [model.train()], for the batches 0, 1, ... in order, the batch is fetched,
    the input and each annotation are moved to the device, the network and
    the loss function are called, the gradients are zeroed, the loss is
    back-propagated and the optimizer steps once; then comes the export, when
    it is due, and nothing else.  No batch is left out or done twice. *)
Theorem train_single_pass (args : Args) (model : Model) (anchors : AnchorT)
    (trainloader : Loader) (optimizer : Optim) (loss_function : Crit) (best_ap : Z)
    (device : Device) (w : World) (v : PyNum * PyNum * PyNum * Z) :
  let r := train handler args model anchors trainloader optimizer loss_function
             best_ap device w in
  outcome r = Ok v →
  ∃ bs tail,
    length bs = loader_len trainloader
    ∧ Forall (λ b, length (dev_targets b) = length (raw_targets b)) bs
    ∧ trace r = Done (ModelTrainMode model) tt
                  :: batches_events model anchors trainloader optimizer loss_function
                       device 0 bs ++ tail
    ∧ export_tail args model best_ap bs tail.
Proof.
  intros r Hok. subst r.
  destruct (train_cases args model anchors trainloader optimizer loss_function best_ap
              device w)
    as [[x E] | [[_ E] | (bs & cl & bx & pt & tail & Hn & _ & Hall & _ & _ & _ & _ & Htr & Ht)]];
    [congruence | congruence |].
  exists bs, tail. auto.
Qed.

(** C2. In a finished call of train every batch has one forward pass, one
    call of the loss function on (that output, the anchors, the targets on
    the device) and one backward pass, in this order, and the scalar that is
    back-propagated is 1.3 * loss_l + loss_c + loss_landm for the three
    answers of that call of the loss function. *)
Theorem backward_is_weighted_sum (args : Args) (model : Model) (anchors : AnchorT)
    (trainloader : Loader) (optimizer : Optim) (loss_function : Crit) (best_ap : Z)
    (device : Device) (w : World) (v : PyNum * PyNum * PyNum * Z) :
  let r := train handler args model anchors trainloader optimizer loss_function
             best_ap device w in
  outcome r = Ok v →
  ∃ bs,
    length bs = loader_len trainloader
    ∧ flat_map grad_view (trace r) =
      flat_map (λ b,
        [GForward model (dev_input b) (predict b);
         GLoss loss_function (predict b) anchors (dev_targets b)
           (loss_l b, loss_c b, loss_landm b);
         GBackward (tensor_add (tensor_add (tensor_rmul_float float_1_3 (loss_l b))
                                  (loss_c b)) (loss_landm b))]) bs.
Proof.
  intros r Hok. subst r.
  destruct (train_cases args model anchors trainloader optimizer loss_function best_ap
              device w)
    as [[x E] | [[_ E] | (bs & cl & bx & pt & tail & Hn & _ & _ & _ & _ & _ & _ & Htr & Ht)]];
    [congruence | congruence |].
  exists bs. split; [assumption |]. rewrite Htr.
  apply export_tail_views in Ht as (Hg & _).
  cbn [flat_map grad_view app]. rewrite flat_map_app, grad_view_batches, Hg, app_nil_r.
  reflexivity.
Qed.

(** C4. When the loader has at least one batch and no call fails, a call of
    train makes one pass (one [model.train()], each batch fetched once) and
    returns, in this order, the mean classification loss, the mean box loss,
    the mean landmark loss and the epoch AP 0, each mean being the sum of the
    answers of the loss function divided by [len(trainloader)]. *)
Theorem train_returns_means (args : Args) (model : Model) (anchors : AnchorT)
    (trainloader : Loader) (optimizer : Optim) (loss_function : Crit) (best_ap : Z)
    (device : Device) (w : World) :
  let r := train handler args model anchors trainloader optimizer loss_function
             best_ap device w in
  (1 ≤ loader_len trainloader)%nat →
  no_failure (trace r) →
  ∃ bs cl bx pt,
    length bs = loader_len trainloader
    ∧ flat_map grad_view (trace r) = flat_map (batch_grad model anchors loss_function) bs
    ∧ flat_map epoch_view (trace r)
      = ETrain model :: (EBatch trainloader <$> seq 0 (loader_len trainloader))
    ∧ py_div_len (total (loss_c <$> bs)) (Z.of_nat (loader_len trainloader)) = inr cl
    ∧ py_div_len (total (loss_l <$> bs)) (Z.of_nat (loader_len trainloader)) = inr bx
    ∧ py_div_len (total (loss_landm <$> bs)) (Z.of_nat (loader_len trainloader)) = inr pt
    ∧ outcome r = Ok (cl, bx, pt, 0).
Proof.
  intros r Hlen Hnf. subst r.
  destruct (train_cases args model anchors trainloader optimizer loss_function best_ap
              device w)
    as [[x E] | [[H0 E] | (bs & cl & bx & pt & tail & Hn & _ & _ & Hc & Hl & Hp & Hok & Htr & Ht)]].
  - exfalso. eapply sound_no_failure; [apply Sound_train | exact Hnf | exact E].
  - lia.
  - exists bs, cl, bx, pt. unfold mean in Hc, Hl, Hp.
    rewrite length_fmap, Hn in Hc, Hl, Hp.
    apply export_tail_views in Ht as (Hg & He & _).
    repeat split; try assumption; rewrite Htr.
    + cbn [flat_map grad_view app].
      rewrite flat_map_app, grad_view_batches, Hg, app_nil_r. reflexivity.
    + cbn [flat_map epoch_view app].
      rewrite flat_map_app, epoch_view_batches, He, app_nil_r, Hn. reflexivity.
Qed.

(** ** The epoch loop *)

Section Loop.
Variables (args : Args) (model : Model) (anchors : AnchorT) (trainloader : Loader)
  (optimizer : Optim) (criterion : Crit) (scheduler : Sched) (device : Device).

Lemma epoch_body_cases (epochs epoch best_ap : Z) (w : World) :
  let r := epoch_body handler args model anchors trainloader optimizer criterion
             scheduler device epochs epoch best_ap w in
  (∃ e, outcome r = Raise e) ∨
  (∃ er, epoch_ok args model trainloader best_ap er
         ∧ outcome r = Ok (next_best best_ap)
         ∧ trace r = epoch_events model anchors trainloader optimizer criterion
                       scheduler device epochs epoch best_ap er).
Proof.
  unfold epoch_body. step; [left; eauto |]. step; [left; eauto |].
  destruct (train_cases args model anchors trainloader optimizer criterion best_ap
              device w1)
    as [[x E] | [[_ E] | (bs & cl & bx & pt & tail & Hn & Hne & _ & Hc & Hl & Hp & Hok & Htr & Ht)]].
  - left. rewrite (bind_Raise _ _ _ _ E). eauto.
  - left. rewrite (bind_Raise _ _ _ _ E). eauto.
  - rewrite (bind_Ok _ _ _ _ Hok), Htr. cbn [outcome trace world].
    step; [left; eauto |]. step; [left; eauto |]. step; [left; eauto |].
    step; [left; eauto |].
    match goal with r : ret (GetLastLr _) |- _ => destruct r as [| l0 lrs] end;
      [left; rewrite bind_raise; eauto |].
    step; [left; eauto |]. step; [left; eauto |].
    kill_units. unfold next_best.
    destruct (0 >? best_ap) eqn:Hgt.
    + step; [left; eauto |]. kill_units. right.
      eexists (@Build_EpochRun _ _ _ bs tail cl bx pt l0 lrs).
      unfold epoch_ok, epoch_events. cbn. rewrite Hgt. cbn.
      rewrite <- !app_assoc. repeat split; eauto.
    + right.
      eexists (@Build_EpochRun _ _ _ bs tail cl bx pt l0 lrs).
      unfold epoch_ok, epoch_events. cbn. rewrite Hgt. cbn.
      rewrite <- !app_assoc. repeat split; eauto.
Qed.

Lemma epoch_loop_cases (epochs : Z) (n e : nat) (best_ap : Z) (w : World) :
  let r := for_each (epoch_body handler args model anchors trainloader optimizer criterion
                       scheduler device epochs) (Z.of_nat <$> seq e n) best_ap w in
  (∃ x, outcome r = Raise x) ∨
  (∃ ers, length ers = n
          ∧ epochs_ok args model trainloader best_ap ers
          ∧ outcome r = Ok (Nat.iter n next_best best_ap)
          ∧ trace r = epochs_events model anchors trainloader optimizer criterion
                        scheduler device epochs e best_ap ers).
Proof.
  revert e best_ap w. induction n as [| n IH]; intros e best_ap w.
  - right. exists []. repeat split; auto.
  - cbn [seq fmap list_fmap for_each].
    destruct (epoch_body_cases epochs (Z.of_nat e) best_ap w) as [[x E] | (er & Hok & E & Htr)].
    + left. rewrite (bind_Raise _ _ _ _ E). eauto.
    + rewrite (bind_Ok _ _ _ _ E), Htr. cbn [outcome trace world].
      match goal with |- context [for_each _ _ _ ?w'] =>
        destruct (IH (S e) (next_best best_ap) w') as [[x E'] | (ers & Hn & Hoks & E' & Htr')]
      end.
      * left. eauto.
      * right. exists (er :: ers). rewrite E', Htr'. cbn [length epochs_ok epochs_events].
        rewrite Hn, Nat.iter_succ_r. auto.
Qed.

End Loop.

(** ** Set-up, artifact and the whole program *)

Ltac steps := repeat (step; [left; eauto |]).

Lemma make_anchors_cases (model : Model) (device : Device) (w : World) :
  let r := make_anchors handler grad_mode model device w in
  (∃ e, outcome r = Raise e) ∨
  (∃ fm g a a',
     outcome r = Ok a'
     ∧ trace r = [EnterNoGrad; Done (ModelFeatureMap model) fm; Done (Anchors fm) g;
                  Done (AnchorsForward g) a; Done (AnchorsTo a device) a'; ExitNoGrad]).
Proof.
  unfold make_anchors, with_no_grad. cbn [outcome trace]. steps.
  unfold perform.
  match goal with |- context [handler ?c ?w'] =>
    destruct (handler c w') as [[e | a'] w''] end; cbn [outcome trace].
  - left. eauto.
  - right. eexists _, _, _, _. split; reflexivity.
Qed.

Lemma setup_cases (args : Args) (w : World) :
  let r := setup handler grad_mode args w in
  (∃ e, outcome r = Raise e) ∨
  (∃ net anchors trainloader optimizer criterion scheduler device
     train_set valid_set validloader model0,
     outcome r = Ok (net, anchors, trainloader, optimizer, criterion, scheduler, device)
     ∧ flat_map epoch_view (trace r) = [EMultiStepLR LR_MILESTONE float_0_7 scheduler]
     ∧ flat_map export_view (trace r) = []
     ∧ flat_map artifact_view (trace r) = []
     ∧ flat_map grad_view (trace r) = []
     ∧ flat_map build_view (trace r)
       = [BLoader train_set BATCH_SIZE true NUM_WORKERS trainloader;
          BLoader valid_set BATCH_SIZE false NUM_WORKERS validloader;
          BModel (model args) model0]).
Proof.
  unfold setup. steps.
  match goal with |- context [m_bind (make_anchors _ _ ?m ?d) _ ?w'] =>
    destruct (make_anchors_cases m d w') as [[e E] | (fm & g & a & a' & E & Htr)] end.
  - left. rewrite (bind_Raise _ _ _ _ E). eauto.
  - rewrite (bind_Ok _ _ _ _ E), Htr. cbn [outcome trace world]. steps.
    right. kill_units.
    eexists _, _, _, _, _, _, _, _, _, _, _. cbn. repeat split; reflexivity.
Qed.

Lemma export_artifact_cases (args : Args) (w : World) :
  let r := export_artifact handler args w in
  (∃ e, outcome r = Raise e) ∨
  (outcome r = Ok tt
   ∧ if tuning args then trace r = []
     else ∃ a, trace r = artifact_events args a).
Proof.
  unfold export_artifact. destruct (tuning args).
  - right. split; reflexivity.
  - steps. unfold perform.
    match goal with |- context [handler ?c ?w'] =>
      destruct (handler c w') as [[e | u] w''] end; cbn [outcome trace].
    + left. eauto.
    + right. kill_units. split; [reflexivity |]. eexists. reflexivity.
Qed.

Section EpochViews.
Variables (args : Args) (model : Model) (anchors : AnchorT) (trainloader : Loader)
  (optimizer : Optim) (criterion : Crit) (scheduler : Sched) (device : Device)
  (epochs : Z).

Lemma epoch_view_epoch (e best_ap : Z) (er : EpochRun) :
  epoch_ok args model trainloader best_ap er →
  flat_map epoch_view
    (epoch_events model anchors trainloader optimizer criterion scheduler device
       epochs e best_ap er)
  = epoch_summary model trainloader scheduler e er.
Proof.
  intros (Hn & _ & _ & _ & _ & Ht). apply export_tail_views in Ht as (_ & He & _).
  unfold epoch_events, epoch_summary. cbn zeta.
  rewrite !flat_map_app. cbn [flat_map epoch_view app].
  rewrite flat_map_app, epoch_view_batches, He, Hn, !app_nil_r.
  destruct (0 >? best_ap); cbn; rewrite ?app_nil_r; reflexivity.
Qed.

Lemma epoch_view_epochs (e : nat) (best_ap : Z) (ers : list EpochRun) :
  epochs_ok args model trainloader best_ap ers →
  flat_map epoch_view
    (epochs_events model anchors trainloader optimizer criterion scheduler device
       epochs e best_ap ers)
  = epochs_summary model trainloader scheduler e ers.
Proof.
  revert e best_ap. induction ers as [| er ers IH]; intros e best_ap; [reflexivity |].
  intros [Hok Hoks]. cbn [epochs_events epochs_summary].
  rewrite flat_map_app, (epoch_view_epoch _ _ _ Hok), (IH _ _ Hoks). reflexivity.
Qed.

Lemma export_view_epoch (e best_ap : Z) (er : EpochRun) :
  epoch_ok args model trainloader best_ap er →
  flat_map export_view
    (epoch_events model anchors trainloader optimizer criterion scheduler device
       epochs e best_ap er)
  = XEpoch :: if 0 >? best_ap
              then [XOnnx (SAVE_PATH +:+ run args +:+ ".onnx");
                    XSave (SAVE_PATH +:+ run args +:+ ".pth"); XBest 0]
              else [].
Proof.
  intros (_ & _ & _ & _ & _ & Ht). apply export_tail_views in Ht as (_ & _ & _ & Hx).
  unfold epoch_events. cbn zeta.
  rewrite !flat_map_app. cbn [flat_map export_view app].
  rewrite flat_map_app, export_view_batches, Hx.
  destruct (0 >? best_ap); reflexivity.
Qed.

Lemma export_view_later_epochs (e : nat) (best_ap : Z) (ers : list EpochRun) :
  0 ≤ best_ap →
  epochs_ok args model trainloader best_ap ers →
  flat_map export_view
    (epochs_events model anchors trainloader optimizer criterion scheduler device
       epochs e best_ap ers)
  = replicate (length ers) XEpoch.
Proof.
  intros Hb. revert e. induction ers as [| er ers IH]; intros e; [reflexivity |].
  intros [Hok Hoks]. cbn [epochs_events].
  rewrite flat_map_app, (export_view_epoch _ _ _ Hok).
  assert (Hgt : (0 >? best_ap) = false) by lia.
  unfold next_best in Hoks |- *. rewrite Hgt in Hoks |- *.
  rewrite (IH _ Hoks). reflexivity.
Qed.

Lemma artifact_view_epochs (e : nat) (best_ap : Z) (ers : list EpochRun) :
  epochs_ok args model trainloader best_ap ers →
  flat_map artifact_view
    (epochs_events model anchors trainloader optimizer criterion scheduler device
       epochs e best_ap ers) = [].
Proof.
  revert e best_ap. induction ers as [| er ers IH]; intros e best_ap; [reflexivity |].
  intros [(_ & _ & _ & _ & _ & Ht) Hoks]. apply export_tail_views in Ht as (_ & _ & Ha & _).
  cbn [epochs_events]. rewrite flat_map_app, (IH _ _ Hoks), app_nil_r.
  unfold epoch_events. cbn zeta. rewrite !flat_map_app. cbn [flat_map artifact_view app].
  rewrite flat_map_app, artifact_view_batches, Ha.
  destruct (0 >? best_ap); reflexivity.
Qed.

Lemma grad_view_epochs (e : nat) (best_ap : Z) (ers : list EpochRun) :
  epochs_ok args model trainloader best_ap ers →
  flat_map grad_view
    (epochs_events model anchors trainloader optimizer criterion scheduler device
       epochs e best_ap ers)
  = flat_map (λ er, flat_map (batch_grad model anchors criterion) (ep_batches er)) ers.
Proof.
  revert e best_ap. induction ers as [| er ers IH]; intros e best_ap; [reflexivity |].
  intros [(_ & _ & _ & _ & _ & Ht) Hoks]. apply export_tail_views in Ht as (Hg & _).
  cbn [epochs_events flat_map]. rewrite flat_map_app, (IH _ _ Hoks). f_equal.
  unfold epoch_events. cbn zeta. rewrite !flat_map_app. cbn [flat_map grad_view app].
  rewrite flat_map_app, grad_view_batches, Hg.
  destruct (0 >? best_ap); cbn; rewrite ?app_nil_r; reflexivity.
Qed.

End EpochViews.

Lemma iter_next_best (n : nat) :
  Nat.iter n next_best (-1) = if decide (n = 0%nat) then -1 else 0.
Proof.
  induction n as [| n IH]; [reflexivity |].
  change (Nat.iter (S n) next_best (-1)) with (next_best (Nat.iter n next_best (-1))).
  rewrite IH. destruct n; reflexivity.
Qed.

(** A finished run of the program: the set-up, the epochs, the artifact. *)
Lemma main_cases (args : Args) (w : World) :
  let r := main handler grad_mode args w in
  let s := setup handler grad_mode args w in
  (∃ e, outcome r = Raise e) ∨
  (∃ model anchors trainloader optimizer criterion scheduler device ers tail,
     outcome s = Ok (model, anchors, trainloader, optimizer, criterion, scheduler, device)
     ∧ outcome r = Ok tt
     ∧ length ers = Z.to_nat (epoch args)
     ∧ epochs_ok args model trainloader (-1) ers
     ∧ outcome (for_each (epoch_body handler args model anchors trainloader optimizer
                            criterion scheduler device (epoch args))
                  (range (epoch args)) (-1) (world s))
       = Ok (Nat.iter (Z.to_nat (epoch args)) next_best (-1))
     ∧ trace r = trace s
                 ++ epochs_events model anchors trainloader optimizer criterion scheduler
                      device (epoch args) 0 (-1) ers
                 ++ tail
     ∧ if tuning args then tail = [] else ∃ a, tail = artifact_events args a).
Proof.
  unfold main. cbn zeta.
  destruct (outcome (setup handler grad_mode args w)) as [objs | e] eqn:E.
  2: { left. rewrite (bind_Raise _ _ _ _ E). eauto. }
  rewrite (bind_Ok _ _ _ _ E). cbn [outcome trace world].
  destruct objs as [[[[[[model anchors] trainloader] optimizer] criterion] scheduler] device].
  unfold training, range.
  destruct (epoch_loop_cases args model anchors trainloader optimizer criterion scheduler
              device (epoch args) (Z.to_nat (epoch args)) 0 (-1)
              (world (setup handler grad_mode args w)))
    as [[x E'] | (ers & Hn & Hoks & E' & Htr)].
  - left. rewrite (bind_Raise _ _ _ _ E'). eauto.
  - rewrite (bind_Ok _ _ _ _ E'), Htr. cbn [outcome trace world].
    match goal with |- context [export_artifact _ _ ?w'] =>
      destruct (export_artifact_cases args w') as [[x Ea] | [Ea Ht]] end.
    + left. eauto.
    + right. eexists model, anchors, trainloader, optimizer, criterion, scheduler, device,
        ers, _. repeat split; eauto.
Qed.

(** ** What every run does: invariants of the trace *)

Lemma Always_ret {A} (P : Event → Prop) (a : A) : Always P (m_ret a).
Proof. intros w. constructor. Qed.

Lemma Always_raise {A} (P : Event → Prop) (e : Exn) : Always P (raise (A:=A) e).
Proof. intros w. constructor. Qed.

Lemma Always_lift {A} (P : Event → Prop) (x : Exn + A) : Always P (lift x).
Proof. destruct x; [apply Always_raise | apply Always_ret]. Qed.

Lemma Always_perform (P : Event → Prop) (c : Call) :
  (∀ r, P (Done c r)) → (∀ x, P (Failed c x)) → Always P (perform handler c).
Proof.
  intros Hd Hf w. unfold perform. destruct (handler c w) as [[e | r] w']; cbn; auto.
Qed.

Lemma Always_bind {A B} (P : Event → Prop) (m : M A) (k : A → M B) :
  Always P m → (∀ a, Always P (k a)) → Always P (m_bind m k).
Proof.
  intros Hm Hk w. specialize (Hm w). unfold m_bind.
  destruct (outcome (m w)) as [a | e]; cbn [trace]; [| exact Hm].
  apply Forall_app. split; [exact Hm | apply Hk].
Qed.

Lemma Always_for_each {A S} (P : Event → Prop) (body : A → S → M S) (l : list A) (s : S) :
  (∀ a s, Always P (body a s)) → Always P (for_each body l s).
Proof.
  intros Hb. revert s. induction l as [| a l IH]; intros s; cbn [for_each].
  - apply Always_ret.
  - apply Always_bind; [apply Hb | intros; apply IH].
Qed.

Lemma Always_map_m {A B} (P : Event → Prop) (f : A → M B) (l : list A) :
  (∀ a, Always P (f a)) → Always P (map_m f l).
Proof.
  intros Hf. induction l as [| a l IH]; cbn [map_m].
  - apply Always_ret.
  - apply Always_bind; [apply Hf | intros b].
    apply Always_bind; [apply IH | intros; apply Always_ret].
Qed.

Lemma Always_with_no_grad {A} (P : Event → Prop) (body : M A) :
  P EnterNoGrad → P ExitNoGrad → Always P body → Always P (with_no_grad grad_mode body).
Proof.
  intros He Hx Hb w. unfold with_no_grad. cbn [trace].
  constructor; [exact He |]. apply Forall_app. split; [apply Hb | repeat constructor; exact Hx].
Qed.

Ltac always_step :=
  first
    [ apply Always_bind; [| intros ?]
    | apply Always_for_each; intros ? ?
    | apply Always_map_m; intros ?
    | apply Always_with_no_grad; [first [exact I | reflexivity] ..|]
    | apply Always_ret
    | apply Always_raise
    | apply Always_lift
    | match goal with
      | |- Always _ (perform _ ?c) =>
          apply (Always_perform _ c); intros; first [exact I | reflexivity]
      | |- Always _ (match ?x with _ => _ end) => destruct x
      | |- Always _ (if ?b then _ else _) => destruct b
      end ].

Lemma flat_map_nil_Forall {V} (f : Event → list V) (t : list Event) :
  Forall (λ e, f e = []) t → flat_map f t = [].
Proof.
  induction 1 as [| e t He _ IH]; [reflexivity |]. cbn. rewrite He, IH. reflexivity.
Qed.

(** With [--tuning] no run, finished or not, makes an artifact call. *)
Lemma tuning_makes_no_artifact (args : Args) :
  tuning args = true →
  Always (λ e, artifact_view e = []) (main handler grad_mode args).
Proof.
  intros Ht.
  unfold main, setup, make_anchors, training, export_artifact, epoch_body, train,
    train_batch, read_input.
  rewrite Ht. repeat always_step.
Qed.

(** ** Claims about the main program *)

(** C3 (amended). A finished run has exactly max(0, args.epoch) epochs:
    [args.epoch] of them when that is not negative, none otherwise.  The
    scheduler is the MultiStepLR object built with gamma 0.7; epoch number e
    consists of one call of train over all the batches of the training
    loader, the log of the losses at step e, the reading of [get_last_lr()],
    the log of its first element at step e and then one [scheduler.step()],
    in this order. *)
Theorem epoch_loop_schedule (args : Args) (w : World) :
  let r := main handler grad_mode args w in
  outcome r = Ok tt →
  ∃ model trainloader scheduler ers,
    Z.of_nat (length ers) = Z.max 0 (epoch args)
    ∧ flat_map epoch_view (trace r)
      = EMultiStepLR LR_MILESTONE float_0_7 scheduler
          :: epochs_summary model trainloader scheduler 0 ers.
Proof.
  intros r Hok. subst r.
  destruct (main_cases args w)
    as [[e E] | (model & anchors & ld & opt & crit & sched & dev & ers & tail
                 & Hs & _ & Hn & Hoks & _ & Htr & Ht)]; [congruence |].
  destruct (setup_cases args w)
    as [[e E] | (model' & anchors' & ld' & opt' & crit' & sched' & dev' & ts & vs & vl & m0
                 & Hs' & Hev & _ & _ & _ & _)]; [congruence |].
  rewrite Hs in Hs'. injection Hs' as <- <- <- <- <- <- <-.
  exists model, ld, sched, ers. split; [lia |].
  rewrite Htr, !flat_map_app, Hev.
  rewrite (epoch_view_epochs args model anchors ld opt crit sched dev _ _ _ _ Hoks).
  assert (Hta : flat_map epoch_view tail = []).
  { destruct (tuning args); [subst tail; reflexivity |]. destruct Ht as [a ->]. reflexivity. }
  rewrite Hta, app_nil_r. reflexivity.
Qed.

(** C5. With [--tuning] no run makes an artifact call.  Without it, in a
    finished run the last four calls create the artifact named after the run
    with type 'weights', add SAVE_PATH + run + '.onnx' and
    SAVE_PATH + run + '.pth' to it and log it; these are the only artifact
    calls, and the whole epoch loop comes before them. *)
Theorem artifact_unless_tuning (args : Args) (w : World) :
  let r := main handler grad_mode args w in
  (tuning args = true → flat_map artifact_view (trace r) = [])
  ∧ (tuning args = false → outcome r = Ok tt →
     ∃ pre a,
       trace r = pre ++ [Done (Artifact (run args) "weights") a;
                         Done (AddFile a (SAVE_PATH +:+ run args +:+ ".onnx")) tt;
                         Done (AddFile a (SAVE_PATH +:+ run args +:+ ".pth")) tt;
                         Done (LogArtifact a) tt]
       ∧ flat_map artifact_view pre = []
       ∧ flat_map epoch_view pre = flat_map epoch_view (trace r)).
Proof.
  intros r. split.
  { intros Ht. apply flat_map_nil_Forall, (tuning_makes_no_artifact args Ht w). }
  intros Hnt Hok. subst r.
  destruct (main_cases args w)
    as [[e E] | (model & anchors & ld & opt & crit & sched & dev & ers & tail
                 & Hs & _ & Hn & Hoks & _ & Htr & Ht)]; [congruence |].
  destruct (setup_cases args w)
    as [[e E] | (model' & anchors' & ld' & opt' & crit' & sched' & dev' & ts & vs & vl & m0
                 & Hs' & _ & _ & Hav & _ & _)]; [congruence |].
  pose proof (artifact_view_epochs args model anchors ld opt crit sched dev
                (epoch args) 0 (-1) ers Hoks) as Hae.
  rewrite Hnt in Ht. destruct Ht as [a ->].
  eexists (_ ++ _), a. rewrite Htr. split; [rewrite app_assoc; reflexivity |].
  split.
  - rewrite flat_map_app, Hav, Hae. reflexivity.
  - rewrite (app_assoc (trace _)), (flat_map_app _ (_ ++ _) (artifact_events _ _)).
    cbn [artifact_events flat_map epoch_view app]. rewrite app_nil_r. reflexivity.
Qed.

(** C8. In every epoch that finishes, train returned some tuple
    (cl, bx, pt, ap), which are its mean classification, box and landmark
    losses, and the dictionary that main logs next is 'loss_cls': pt,
    'loss_box': cl, 'loss_landmark': bx: the names are bound to train's
    tuple in the order (loss_box, loss_pts, loss_cls, train_ap). *)
Theorem logged_names_are_shifted (args : Args) (model : Model) (anchors : AnchorT)
    (trainloader : Loader) (optimizer : Optim) (criterion : Crit) (scheduler : Sched)
    (device : Device) (epochs epoch best_ap : Z) (w : World) (v : Z) :
  let r := epoch_body handler args model anchors trainloader optimizer criterion
             scheduler device epochs epoch best_ap w in
  outcome r = Ok v →
  ∃ w' t0 t1 bs cl bx pt ap post,
    outcome (train handler args model anchors trainloader optimizer criterion best_ap
               device w') = Ok (cl, bx, pt, ap)
    ∧ mean (loss_c <$> bs) = inr cl
    ∧ mean (loss_l <$> bs) = inr bx
    ∧ mean (loss_landm <$> bs) = inr pt
    ∧ flat_map grad_view
        (trace (train handler args model anchors trainloader optimizer criterion best_ap
                  device w'))
      = flat_map (batch_grad model anchors criterion) bs
    ∧ trace r = [Done (Print MsgEpochHeader) tt; Done TimeNow t0]
                ++ trace (train handler args model anchors trainloader optimizer criterion
                            best_ap device w')
                ++ [Done TimeNow t1;
                    Done (WandbLog [("loss_cls", pt); ("loss_box", cl);
                                    ("loss_landmark", bx)] epoch) tt]
                ++ post.
Proof.
  intros r. subst r. unfold epoch_body.
  step; [discriminate |]. step; [discriminate |].
  destruct (train_cases args model anchors trainloader optimizer criterion best_ap
              device w1)
    as [[x E] | [[_ E] | (bs & cl & bx & pt & tail & Hn & Hne & _ & Hc & Hl & Hp & Hok & Htr & Ht)]].
  - rewrite (bind_Raise _ _ _ _ E). discriminate.
  - rewrite (bind_Raise _ _ _ _ E). discriminate.
  - rewrite (bind_Ok _ _ _ _ Hok). cbn [outcome trace world].
    step; [discriminate |]. step; [discriminate |].
    kill_units. intros _.
    eexists w1, _, _, bs, cl, bx, pt, 0, _. repeat split; try eassumption.
    + rewrite Htr. apply export_tail_views in Ht as (Hg & _).
      cbn [flat_map grad_view app].
      rewrite flat_map_app, grad_view_batches, Hg, app_nil_r. reflexivity.
Qed.

Lemma for_each_app {A S} (body : A → S → M S) (l1 l2 : list A) (s : S) (w : World) :
  for_each body (l1 ++ l2) s w = m_bind (for_each body l1 s) (for_each body l2) w.
Proof.
  revert s w. induction l1 as [| a l1 IH]; intros s w; cbn [app for_each].
  - rewrite bind_ret. reflexivity.
  - rewrite bind_assoc. destruct (outcome (body a s w)) as [s' | e] eqn:E.
    + rewrite !(bind_Ok _ _ _ _ E), IH. reflexivity.
    + rewrite !(bind_Raise _ _ _ _ E). reflexivity.
Qed.

Lemma flat_map_replicate_nil {A B} (f : A → list B) (n : nat) (x : A) :
  f x = [] → flat_map f (replicate n x) = [].
Proof. intros Hf. induction n as [| n IH]; cbn; [| rewrite Hf, IH]; reflexivity. Qed.

(** C9 (amended). In a finished run with [args.epoch >= 1], train's epoch AP
    being the constant 0 and [best_ap] starting at -1, the ONNX and .pth
    export of train runs exactly once, in the first epoch, and the summary is
    set to 0 at the end of that epoch; no later epoch exports.  After k epochs
    of the run [best_ap] is -1 for k = 0 and 0 for every k >= 1. *)
Theorem export_once_in_first_epoch (args : Args) (w : World) :
  let r := main handler grad_mode args w in
  let s := setup handler grad_mode args w in
  outcome r = Ok tt →
  1 ≤ epoch args →
  flat_map export_view (trace r)
  = [XEpoch; XOnnx (SAVE_PATH +:+ run args +:+ ".onnx");
     XSave (SAVE_PATH +:+ run args +:+ ".pth"); XBest 0]
    ++ replicate (Z.to_nat (epoch args) - 1) XEpoch
  ∧ onnx_exports (trace r) = 1%nat
  ∧ torch_saves (trace r) = 1%nat
  ∧ ∃ model anchors trainloader optimizer criterion scheduler device,
      outcome s = Ok (model, anchors, trainloader, optimizer, criterion, scheduler, device)
      ∧ ∀ k : nat, (k ≤ Z.to_nat (epoch args))%nat →
          outcome (for_each (epoch_body handler args model anchors trainloader optimizer
                               criterion scheduler device (epoch args))
                     (Z.of_nat <$> seq 0 k) (-1) (world s))
          = Ok (if decide (k = 0%nat) then -1 else 0).
Proof.
  intros r s Hok Hpos. subst r s.
  destruct (main_cases args w)
    as [[e E] | (model & anchors & ld & opt & crit & sched & dev & ers & tail
                 & Hs & _ & Hn & Hoks & Hloop & Htr & Ht)]; [congruence |].
  destruct (setup_cases args w)
    as [[e E] | (model' & anchors' & ld' & opt' & crit' & sched' & dev' & ts & vs & vl & m0
                 & Hs' & _ & Hxv & _ & _ & _)]; [congruence |].
  assert (Hview : flat_map export_view (trace (main handler grad_mode args w))
                  = [XEpoch; XOnnx (SAVE_PATH +:+ run args +:+ ".onnx");
                     XSave (SAVE_PATH +:+ run args +:+ ".pth"); XBest 0]
                    ++ replicate (Z.to_nat (epoch args) - 1) XEpoch).
  { rewrite Htr, !flat_map_app, Hxv.
    assert (Hta : flat_map export_view tail = []).
    { destruct (tuning args); [subst tail; reflexivity |]. destruct Ht as [a ->]. reflexivity. }
    rewrite Hta, app_nil_r. cbn [app].
    destruct ers as [| er ers]; [cbn in Hn; lia |].
    destruct Hoks as [Hok1 Hoks]. cbn [epochs_events].
    rewrite flat_map_app, (export_view_epoch args _ _ _ _ _ _ _ _ _ _ _ Hok1).
    change (0 >? -1) with true. cbn [app]. do 4 f_equal.
    rewrite (export_view_later_epochs args _ _ _ _ _ _ _ _ _ 0 ers); [| lia | exact Hoks].
    f_equal. cbn [length] in Hn. lia. }
  split; [exact Hview |].
  split; [| split].
  - unfold onnx_exports. rewrite Hview, flat_map_app. cbn [flat_map app].
    rewrite flat_map_replicate_nil by reflexivity. reflexivity.
  - unfold torch_saves. rewrite Hview, flat_map_app. cbn [flat_map app].
    rewrite flat_map_replicate_nil by reflexivity. reflexivity.
  - exists model, anchors, ld, opt, crit, sched, dev. split; [exact Hs |].
    intros k Hk. unfold range in Hloop.
    replace (Z.to_nat (epoch args)) with (k + (Z.to_nat (epoch args) - k))%nat in Hloop
      at 1 by lia.
    rewrite seq_app, fmap_app, for_each_app in Hloop.
    apply bind_Ok_inv in Hloop as (b & Hb & _).
    destruct (epoch_loop_cases args model anchors ld opt crit sched dev (epoch args) k 0 (-1)
                (world (setup handler grad_mode args w)))
      as [[x E] | (ers' & _ & _ & E & _)]; [congruence |].
    rewrite E, iter_next_best. reflexivity.
Qed.

(** ** No failure is handled *)

Lemma failed_calls_no_failure (t : list Event) :
  no_failure t → failed_calls t = [].
Proof.
  induction 1 as [| e t He _ IH]; [reflexivity |].
  unfold failed_calls in *. cbn [flat_map]. rewrite IH.
  destruct e; try reflexivity; discriminate.
Qed.

Lemma failed_calls_markers (t : list Event) :
  Forall (λ e, is_marker e = true) t → failed_calls t = [].
Proof.
  induction 1 as [| e t He _ IH]; [reflexivity |].
  unfold failed_calls in *. cbn [flat_map]. rewrite IH.
  destruct e; try reflexivity; discriminate.
Qed.

Lemma after_failure_app (pre post : list Event) (c : Call) (x : ExtExn) :
  no_failure pre → after_failure (pre ++ Failed c x :: post) = post.
Proof.
  induction 1 as [| e t He _ IH]; [reflexivity |].
  cbn [app after_failure]. rewrite He. exact IH.
Qed.

(** C7. Nothing in train.py catches an exception.  In every run of the
    program at most one call fails; when a call of the framework or the
    tracker fails with [x], the program ends with this same [x] at the top
    level and makes no further call (only a [with] block is left); and when no
    call fails, the program does not end with an external exception. *)
Theorem failures_propagate (args : Args) (w : World) :
  let r := main handler grad_mode args w in
  match failed_calls (trace r) with
  | [] => ∀ x, outcome r ≠ Raise (External x)
  | [(c, x)] => outcome r = Raise (External x)
                ∧ Forall (λ e, is_marker e = true) (after_failure (trace r))
  | _ => False
  end.
Proof.
  intros r. pose proof (Sound_main args w) as Hs. fold r in Hs. unfold sound in Hs.
  destruct (outcome r) as [u | [| | | x]] eqn:E;
    try (rewrite (failed_calls_no_failure _ Hs); intros x; discriminate).
  destruct Hs as (pre & c & post & -> & Hpre & Hpost).
  unfold failed_calls. rewrite flat_map_app. cbn [flat_map].
  fold (failed_calls pre) (failed_calls post).
  rewrite (failed_calls_no_failure _ Hpre), (failed_calls_markers _ Hpost). cbn [app].
  rewrite (after_failure_app _ _ _ _ Hpre). auto.
Qed.

Lemma loaders_use_BATCH_SIZE (args : Args) :
  Always loader_batch_ok (main handler grad_mode args).
Proof.
  unfold main, setup, make_anchors, training, export_artifact, epoch_body, train,
    train_batch, read_input.
  repeat always_step.
Qed.

Lemma blank_set_batchsize (args : Args) (b : Num) (wt : option string) :
  blank_batchsize (wandb_config (set_batchsize_weight args b wt))
  = blank_batchsize (wandb_config args).
Proof. reflexivity. Qed.

(** C10 (amended). [--weight] is never read, and [--batchsize] only
    reaches the configuration dictionary handed to [wandb.init]: when the
    tracker answers [wandb.init] without looking at that entry, two runs that
    differ only in these two arguments end the same way, in the same world,
    and make the same calls with the same answers, except for that entry; in
    particular they build the same loaders and the same network.  In every
    run both loaders are built with the constant BATCH_SIZE. *)
Theorem batchsize_and_weight_only_reach_config (args : Args) (b : Num)
    (wt : option string) (w : World) :
  (∀ p cfg n w', handler (WandbInit p cfg n) w'
                 = handler (WandbInit p (blank_batchsize cfg) n) w') →
  let r1 := main handler grad_mode args w in
  let r2 := main handler grad_mode (set_batchsize_weight args b wt) w in
  outcome r1 = outcome r2
  ∧ world r1 = world r2
  ∧ blank_event <$> trace r1 = blank_event <$> trace r2
  ∧ flat_map build_view (trace r1) = flat_map build_view (trace r2)
  ∧ Forall loader_batch_ok (trace r1)
  ∧ Forall loader_batch_ok (trace r2).
Proof.
  intros Hh r1 r2.
  assert (Hw1 := loaders_use_BATCH_SIZE args w).
  assert (Hw2 := loaders_use_BATCH_SIZE (set_batchsize_weight args b wt) w).
  fold r1 in Hw1. fold r2 in Hw2.
  repeat match goal with |- _ ∧ _ => split end; try assumption; subst r1 r2;
    unfold main, setup; rewrite !bind_assoc;
    rewrite (bind_perform (WandbInit PROJECT (wandb_config args) "nmd2000"));
    rewrite (bind_perform (WandbInit PROJECT
                             (wandb_config (set_batchsize_weight args b wt)) "nmd2000"));
    pose proof (Hh PROJECT (wandb_config args) "nmd2000" w) as H1;
    pose proof (Hh PROJECT (wandb_config (set_batchsize_weight args b wt)) "nmd2000" w) as H2;
    rewrite blank_set_batchsize in H2; rewrite <- H1 in H2; clear H1;
    destruct (handler (WandbInit PROJECT (wandb_config args) "nmd2000") w)
      as [[e1 | a1] w1];
    destruct (handler (WandbInit PROJECT (wandb_config (set_batchsize_weight args b wt))
                         "nmd2000") w) as [[e2 | a2] w2];
    try discriminate H2; injection H2 as -> ->; reflexivity.
Qed.

End Facts.

(** ** The command line *)

Section ParserFacts.
Context `{BI : Builtins} `{CF : !Config}.

Lemma parser_table : parser = ArgumentParser ++ declared_options.
Proof. reflexivity. Qed.

Lemma find_exact_Some (p : list Opt) (s : string) (o : Opt) :
  find_exact p s = Some o → o ∈ p ∧ s ∈ flags o.
Proof.
  induction p as [| o' p IH]; cbn; [discriminate |].
  unfold in_flags. case_bool_decide as Hin.
  - intros [= <-]. split; [left | exact Hin].
  - intros Hf. destruct (IH Hf). split; [right |]; assumption.
Qed.

Lemma get_option_tuples_in (p : list Opt) (s : string) (o : Opt) (e : option string) :
  (o, e) ∈ get_option_tuples p s → o ∈ p.
Proof.
  unfold get_option_tuples. destruct (second_is_dash s).
  - destruct (match split_eq s with Some (a, b) => (a, Some b) | None => (s, None) end)
      as [pre ex].
    intros Hin. apply list_elem_of_bind in Hin as (o' & Hin & Ho').
    apply list_elem_of_bind in Hin as (f & Hin & _).
    destruct (starts_with pre f); [| inversion Hin].
    apply list_elem_of_singleton in Hin. congruence.
  - intros Hin. apply list_elem_of_bind in Hin as (o' & Hin & Ho').
    apply list_elem_of_bind in Hin as (f & Hin & _).
    case_bool_decide.
    + apply list_elem_of_singleton in Hin. congruence.
    + destruct (starts_with s f); [| inversion Hin].
      apply list_elem_of_singleton in Hin. congruence.
Qed.

Lemma parse_optional_in (p : list Opt) (s : string) (o : Opt) (e : option string) :
  parse_optional p s = COption o e → o ∈ p.
Proof.
  unfold parse_optional. intros H0.
  repeat case_match; simplify_eq;
    repeat match goal with
           | E : _ <$> find_exact _ _ = Some _ |- _ =>
               apply fmap_Some in E as (? & E & ?); simplify_eq
           end;
    try match goal with
        | E : find_exact _ _ = Some ?o |- ?o ∈ _ => exact (proj1 (find_exact_Some _ _ _ E))
        | E : get_option_tuples ?p ?s = [(?o, ?e)] |- ?o ∈ _ =>
            apply (get_option_tuples_in p s o e); rewrite E; left
        end.
Qed.

(** What a successful pass over the tokens did to the namespace. *)
Definition consume_spec (cs : list (string * Cls)) (ns ns' : gmap string Value)
    (seen seen' : gset string) : Prop :=
  (∀ tok o e, (tok, COption o e) ∈ cs → action o ≠ Help)
  ∧ (∀ d, (∀ tok o e, (tok, COption o e) ∈ cs → dest o ≠ d) →
          ns' !! d = ns !! d ∧ (d ∈ seen' ↔ d ∈ seen))
  ∧ ((∀ tok o e, (tok, COption o e) ∈ cs → dest o ∈ dom ns) → dom ns' = dom ns).

Lemma consume_spec_cons (tok : string) (o : Opt) (e : option string) (v : Value)
    (rest : list (string * Cls)) (ns ns' : gmap string Value) (seen seen' : gset string) :
  action o ≠ Help →
  consume_spec rest (<[dest o := v]> ns) ns' ({[dest o]} ∪ seen) seen' →
  consume_spec ((tok, COption o e) :: rest) ns ns' seen seen'.
Proof.
  intros Ha (H1 & H2 & H3). split; [| split].
  - intros tok' o' e' Hin. apply elem_of_cons in Hin as [[= -> -> ->] | Hin]; eauto.
  - intros d Hd.
    assert (Hne : dest o ≠ d) by (eapply Hd; left).
    destruct (H2 d) as [Hl Hs]; [intros; eapply Hd; right; eassumption |].
    split.
    + rewrite Hl. apply lookup_insert_ne. exact Hne.
    + rewrite Hs, elem_of_union, elem_of_singleton.
      split; [intros [Heq | Hin]; [congruence | exact Hin] | auto].
  - intros Hdom.
    assert (Hd : dest o ∈ dom ns) by (eapply Hdom; left).
    rewrite H3.
    + rewrite dom_insert_L. apply subseteq_union_1_L, singleton_subseteq_l, Hd.
    + intros tok' o' e' Hin. rewrite dom_insert_L.
      apply elem_of_union_r. eapply Hdom. right. eassumption.
Qed.

Lemma consume_spec_skip (a : string) (rest : list (string * Cls))
    (tok : string) (o : Opt) (e : option string)
    (ns ns' : gmap string Value) (seen seen' : gset string) :
  consume_spec ((tok, COption o e) :: rest) ns ns' seen seen' →
  consume_spec ((tok, COption o e) :: (a, CPositional) :: rest) ns ns' seen seen'.
Proof.
  assert (Hmem : ∀ tok' o' e',
             (tok', COption o' e') ∈ (tok, COption o e) :: (a, CPositional) :: rest →
             (tok', COption o' e') ∈ (tok, COption o e) :: rest).
  { intros tok' o' e' Hin. apply elem_of_cons in Hin as [-> | Hin]; [left |].
    apply elem_of_cons in Hin as [[=] | Hin]. right. exact Hin. }
  assert (Hmem' : ∀ tok' o' e',
             (tok', COption o' e') ∈ (tok, COption o e) :: rest →
             (tok', COption o' e') ∈ (tok, COption o e) :: (a, CPositional) :: rest).
  { intros tok' o' e' Hin. apply elem_of_cons in Hin as [-> | Hin]; [left |].
    right. right. exact Hin. }
  intros (H1 & H2 & H3). split; [| split].
  - intros tok' o' e' Hin. eapply H1, Hmem, Hin.
  - intros d Hd. apply H2. intros tok' o' e' Hin. eapply Hd, Hmem', Hin.
  - intros Hdom. apply H3. intros tok' o' e' Hin. eapply Hdom, Hmem', Hin.
Qed.

Lemma consume_inv (n : nat) (cs : list (string * Cls)) (ns ns' : gmap string Value)
    (seen seen' : gset string) :
  (length cs ≤ n)%nat →
  consume cs ns seen = Some (ns', seen') →
  consume_spec cs ns ns' seen seen'.
Proof.
  revert cs ns seen. induction n as [| n IH]; intros cs ns seen Hlen Hc.
  - destruct cs; [| cbn in Hlen; lia]. cbn in Hc. injection Hc as <- <-.
    split; [| split]; auto. intros ? ? ? Hin; inversion Hin.
  - destruct cs as [| [tok cl] rest].
    { cbn in Hc. injection Hc as <- <-.
      split; [| split]; auto. intros ? ? ? Hin; inversion Hin. }
    cbn [length] in Hlen. destruct cl as [| o e | |]; cbn [consume] in Hc; try discriminate.
    destruct (action o) as [t | |] eqn:Ha; [| | discriminate].
    + destruct e as [s |].
      * case_bool_decide.
        { eapply consume_spec_cons; [congruence |]. apply IH; [lia | exact Hc]. }
        destruct (get_value t s) as [v |]; [| discriminate].
        eapply consume_spec_cons; [congruence |]. apply IH; [lia | exact Hc].
      * destruct rest as [| [a [| | |]] rest']; try discriminate.
        destruct (get_value t a) as [v |]; [| discriminate].
        apply consume_spec_skip. eapply consume_spec_cons; [congruence |].
        apply IH; [cbn [length] in Hlen; lia | exact Hc].
    + destruct e as [s |]; [discriminate |].
      eapply consume_spec_cons; [congruence |]. apply IH; [lia | exact Hc].
Qed.

Lemma convert_defaults_parser (seen : gset string) (ns : gmap string Value) :
  convert_defaults parser seen ns
  = Some (let ns' := if bool_decide ("run" ∈ seen) then ns
                     else <["run" := VStr RUN_NAME]> ns in
          if bool_decide ("model" ∈ seen) then ns'
          else <["model" := VStr "mobilenet0.25"]> ns').
Proof.
  unfold parser, add_argument, ArgumentParser. cbn.
  repeat case_bool_decide; reflexivity.
Qed.

Lemma defaults_lookup (o : Opt) :
  o ∈ declared_options → set_defaults parser ∅ !! dest o = opt_default o.
Proof.
  unfold declared_options. intros Ho.
  repeat (apply elem_of_cons in Ho as [-> | Ho]); try (vm_compute; reflexivity).
  inversion Ho.
Qed.

Lemma defaults_dom :
  dom (set_defaults parser ∅) = list_to_set (dest <$> declared_options).
Proof. vm_compute. reflexivity. Qed.

Lemma dom_insert_elem (m : gmap string Value) (k : string) (v : Value) :
  k ∈ dom m → dom (<[k := v]> m) = dom m.
Proof.
  intros Hk. rewrite dom_insert_L. apply subseteq_union_1_L, singleton_subseteq_l, Hk.
Qed.

Lemma declared_dest_in_dom (o : Opt) :
  o ∈ declared_options → dest o ∈ dom (set_defaults parser ∅).
Proof.
  intros Ho. rewrite defaults_dom, elem_of_list_to_set, list_elem_of_fmap. eauto.
Qed.

Lemma help_or_declared (o : Opt) :
  o ∈ parser → action o = Help ∨ o ∈ declared_options.
Proof.
  rewrite parser_table. unfold ArgumentParser. intros Ho.
  apply elem_of_cons in Ho as [-> | Ho]; [left; reflexivity | right; exact Ho].
Qed.

Lemma classify_elem (argv : list string) (tok : string) (o : Opt) (e : option string) :
  (tok, COption o e) ∈ classify argv ↔ tok ∈ argv ∧ parse_optional parser tok = COption o e.
Proof.
  unfold classify. rewrite list_elem_of_fmap. split.
  - intros (s & [= -> Hc] & Hin). auto.
  - intros [Hin Hc]. exists tok. rewrite Hc. auto.
Qed.

(** C6. parse_args declares, on top of argparse's own help option, exactly
    the options --run, --epoch, --model, --weight, --weight_decay, --momentum,
    --startfm, --batchsize, --lr (which store a value) and --download, --tuning
    (store_true), each with its default; each of these names reads as its
    option; in an invocation that parse_args accepts every token that reads
    as an option reads as one of the eleven, the namespace has exactly their
    eleven attributes, and every option that the invocation omits has its
    declared default. *)
Theorem parse_args_options_and_defaults (argv : list string) (ns : gmap string Value) :
  parse_args argv = Some ns →
  parser = ArgumentParser ++ declared_options
  ∧ (∀ o f, o ∈ declared_options → f ∈ flags o → parse_optional parser f = COption o None)
  ∧ (∀ tok o e, tok ∈ argv → parse_optional parser tok = COption o e →
                o ∈ declared_options)
  ∧ dom ns = list_to_set (dest <$> declared_options)
  ∧ (∀ o, o ∈ declared_options → omits argv o → ns !! dest o = opt_default o).
Proof.
  unfold parse_args. case_bool_decide as Hsep; [discriminate |].
  destruct (existsb _ _); [discriminate |].
  destruct (consume (classify argv) (set_defaults parser ∅) ∅) as [[ns1 seen1] |] eqn:Hc;
    [| discriminate].
  rewrite convert_defaults_parser. cbn zeta. intros [= <-].
  apply (consume_inv (length (classify argv))) in Hc as (Hhelp & Hkeep & Hdom); [| lia].
  assert (Hdecl : ∀ tok o e, tok ∈ argv → parse_optional parser tok = COption o e →
                             o ∈ declared_options).
  { intros tok o e Hin Hcl.
    destruct (help_or_declared o (parse_optional_in _ _ _ _ Hcl)) as [Hh | Hd]; [| exact Hd].
    exfalso. eapply Hhelp; [apply classify_elem; eauto | exact Hh]. }
  assert (Hdom1 : dom ns1 = dom (set_defaults parser ∅)).
  { apply Hdom. intros tok o e Hin. apply classify_elem in Hin as [Hin Hcl].
    apply declared_dest_in_dom. eauto. }
  split; [reflexivity |]. split; [| split; [exact Hdecl |]; split].
  - intros o f Ho Hf. unfold declared_options in Ho.
    repeat (apply elem_of_cons in Ho as [-> | Ho]);
      try (apply list_elem_of_singleton in Hf as ->; vm_compute; reflexivity).
    inversion Ho.
  - rewrite <- defaults_dom, <- Hdom1.
    assert (Hr : "run" ∈ dom ns1).
    { rewrite Hdom1. vm_compute. reflexivity. }
    assert (Hm : "model" ∈ dom ns1).
    { rewrite Hdom1. vm_compute. reflexivity. }
    assert (Hrun : ∀ v, dom (<["run" := v]> ns1) = dom ns1)
      by (intros; apply dom_insert_elem, Hr).
    repeat case_bool_decide;
      repeat (rewrite dom_insert_elem; [| rewrite ?Hrun; assumption]); reflexivity.
  - intros o Ho Hom.
    destruct (Hkeep (dest o)) as [Hl Hs].
    { intros tok o' e Hin. apply classify_elem in Hin as [Hin Hcl]. eapply Hom; eauto. }
    rewrite (defaults_lookup o Ho) in Hl.
    assert (Hns : dest o ∉ seen1) by (rewrite Hs; apply not_elem_of_empty).
    unfold declared_options in Ho.
    repeat (apply elem_of_cons in Ho as [-> | Ho]); cbn [dest declared opt_default] in *;
      try (repeat case_bool_decide; try contradiction;
           repeat first [rewrite lookup_insert_eq
                        | rewrite lookup_insert_ne by discriminate];
           first [reflexivity | exact Hl]).
    inversion Ho.
Qed.

End ParserFacts.

(** * Further properties of train and of the main program *)

Section MoreFacts.
Context `{TO : TensorOps} `{CF : !Config}.
Variable handler : ∀ c : Call, World → (ExtExn + ret c) * World.
Variable grad_mode : bool → World → World.

Ltac step :=
  repeat first [rewrite bind_assoc | rewrite bind_ret];
  match goal with
  | |- context [m_bind (perform ?h ?c) ?k ?w] =>
      rewrite (bind_perform h c);
      let e := fresh "e" in let r := fresh "r" in let w' := fresh "w" in
      destruct (h c w) as [[e | r] w'] eqn:?; cbn [outcome trace world]
  end.

Ltac kill_units :=
  repeat match goal with
         | u : ret ?c |- _ =>
             let T := eval cbn in (ret c) in
             match T with unit => destruct u end
         | u : unit |- _ => destruct u
         end.

(** ** train on an empty loader *)

(** X1. On an empty loader train never returns.  After [model.train()] it
    divides 0 by [len(trainloader)] = 0 at line 63 and ends with
    ZeroDivisionError, having made no other call: no batch is read and nothing
    is exported, whatever [best_ap] is.  (Or [model.train()] itself failed.) *)
Theorem train_empty_loader (args : Args) (model : Model) (anchors : AnchorT)
    (trainloader : Loader) (optimizer : Optim) (loss_function : Crit) (best_ap : Z)
    (device : Device) (w : World) :
  let r := train handler args model anchors trainloader optimizer loss_function
             best_ap device w in
  loader_len trainloader = 0%nat →
  (outcome r = Raise ZeroDivisionError ∧ trace r = [Done (ModelTrainMode model) tt])
  ∨ (∃ x, outcome r = Raise (External x) ∧ trace r = [Failed (ModelTrainMode model) x]).
Proof.
  intros r Hlen. subst r. unfold train. rewrite Hlen. cbn [seq for_each].
  step.
  - right. eauto.
  - left. kill_units. cbn. split; reflexivity.
Qed.

(** The exceptions that end a call of train. *)
Lemma train_raise_cases (args : Args) (model : Model) (anchors : AnchorT)
    (trainloader : Loader) (optimizer : Optim) (loss_function : Crit) (best_ap : Z)
    (device : Device) (w : World) (e : Exn) :
  outcome (train handler args model anchors trainloader optimizer loss_function
             best_ap device w) = Raise e →
  (∃ x, e = External x) ∨ (e = ZeroDivisionError ∧ loader_len trainloader = 0%nat).
Proof.
  intros He.
  destruct (train_cases handler args model anchors trainloader optimizer loss_function
              best_ap device w)
    as [[x E] | [[Hlen E] | (bs & cl & bx & pt & tail & _ & _ & _ & _ & _ & _ & E & _)]];
    rewrite E in He; [| | discriminate]; injection He as <-; eauto.
Qed.

(** X2. A call of train ends with an exception only in two ways: a call of
    the framework failed and its exception comes out unchanged, or the loader
    is empty and line 63 raises ZeroDivisionError.  In particular the read of
    [input] after the loop (line 69) never raises UnboundLocalError. *)
Theorem train_raises_only (args : Args) (model : Model) (anchors : AnchorT)
    (trainloader : Loader) (optimizer : Optim) (loss_function : Crit) (best_ap : Z)
    (device : Device) (w : World) (e : Exn) :
  let r := train handler args model anchors trainloader optimizer loss_function
             best_ap device w in
  outcome r = Raise e →
  (∃ x, e = External x) ∨ (e = ZeroDivisionError ∧ loader_len trainloader = 0%nat).
Proof. intros r. subst r. apply train_raise_cases. Qed.

(** ** The exceptions of the main program *)

Lemma Raises_ret {A} (P : Exn → Prop) (a : A) : Raises P (m_ret a).
Proof. intros w e. discriminate. Qed.

Lemma Raises_raise {A} (P : Exn → Prop) (e : Exn) : P e → Raises P (raise (A:=A) e).
Proof. intros He w e' [= <-]. exact He. Qed.

Lemma Raises_perform (P : Exn → Prop) (c : Call) :
  (∀ x, P (External x)) → Raises P (perform handler c).
Proof.
  intros Hx w e. unfold perform. destruct (handler c w) as [[x | r] w']; cbn; [| discriminate].
  intros [= <-]. apply Hx.
Qed.

Lemma Raises_bind {A B} (P : Exn → Prop) (m : M A) (k : A → M B) :
  Raises P m → (∀ a, Raises P (k a)) → Raises P (m_bind m k).
Proof.
  intros Hm Hk w e. unfold m_bind.
  destruct (outcome (m w)) as [a | e'] eqn:E; cbn [outcome].
  - apply Hk.
  - intros [= <-]. exact (Hm w e' E).
Qed.

Lemma Raises_for_each {A S} (P : Exn → Prop) (body : A → S → M S) (l : list A) (s : S) :
  (∀ a s, Raises P (body a s)) → Raises P (for_each body l s).
Proof.
  intros Hb. revert s. induction l as [| a l IH]; intros s; cbn [for_each].
  - apply Raises_ret.
  - apply Raises_bind; [apply Hb | intros; apply IH].
Qed.

Lemma Raises_with_no_grad {A} (P : Exn → Prop) (body : M A) :
  Raises P body → Raises P (with_no_grad grad_mode body).
Proof. intros Hb w e. unfold with_no_grad. cbn [outcome]. apply Hb. Qed.

Lemma Raises_train (P : Exn → Prop) (args : Args) (model : Model) (anchors : AnchorT)
    (trainloader : Loader) (optimizer : Optim) (loss_function : Crit) (best_ap : Z)
    (device : Device) :
  (∀ x, P (External x)) → (loader_len trainloader = 0%nat → P ZeroDivisionError) →
  Raises P (train handler args model anchors trainloader optimizer loss_function best_ap
              device).
Proof.
  intros Hx Hz w e He.
  destruct (train_raise_cases args model anchors trainloader optimizer loss_function best_ap
              device w e He) as [[x ->] | [-> Hlen]]; auto.
Qed.

Ltac raises_step tac :=
  first
    [ apply Raises_train; intros; tac
    | apply Raises_bind; [| intros ?]
    | apply Raises_for_each; intros ? ?
    | apply Raises_with_no_grad
    | apply Raises_ret
    | apply Raises_raise; tac
    | match goal with
      | |- Raises ?P (perform ?h ?c) => apply (Raises_perform P c); intros; tac
      | |- Raises _ (match ?x with _ => _ end) => destruct x
      | |- Raises _ (if ?b then _ else _) => destruct b
      end ].

(** X3. A run of the program never ends with UnboundLocalError, and it ends
    with ZeroDivisionError only when the set-up finished and the training
    loader that it built is empty. *)
Theorem main_raises_only (args : Args) (w : World) (e : Exn) :
  let r := main handler grad_mode args w in
  outcome r = Raise e →
  e ≠ UnboundLocalError
  ∧ (e = ZeroDivisionError →
     ∃ model anchors trainloader optimizer criterion scheduler device,
       outcome (setup handler grad_mode args w)
       = Ok (model, anchors, trainloader, optimizer, criterion, scheduler, device)
       ∧ loader_len trainloader = 0%nat).
Proof.
  intros r. subst r. unfold main.
  destruct (outcome (setup handler grad_mode args w)) as [objs | e0] eqn:E.
  - rewrite (bind_Ok _ _ _ _ E). cbn [outcome].
    destruct objs as [[[[[[model anchors] trainloader] optimizer] criterion] scheduler] device].
    revert e.
    assert (Ht : Raises (λ e, e ≠ UnboundLocalError
                              ∧ (e = ZeroDivisionError → loader_len trainloader = 0%nat))
                   (training handler args model anchors trainloader optimizer criterion
                      scheduler device)).
    { unfold training, export_artifact, epoch_body.
      repeat raises_step ltac:(split; [discriminate | first [discriminate | auto]]). }
    intros e He. destruct (Ht _ _ He) as [Hu Hz]. split; [exact Hu |].
    intros Hzd. eexists _, _, _, _, _, _, _. split; [reflexivity | auto].
  - rewrite (bind_Raise _ _ _ _ E). cbn [outcome]. intros [= <-].
    assert (Hs : Raises (λ e, ∃ x, e = External x) (setup handler grad_mode args)).
    { unfold setup, make_anchors. repeat raises_step ltac:(eexists; reflexivity). }
    destruct (Hs _ _ E) as [x ->]. split; discriminate.
Qed.

(** ** Runs without epochs *)

Ltac always_step :=
  first
    [ apply Always_bind; [| intros ?]
    | apply Always_for_each; intros ? ?
    | apply Always_map_m; intros ?
    | apply Always_with_no_grad; [first [exact I | reflexivity] ..|]
    | apply Always_ret
    | apply Always_raise
    | apply Always_lift
    | match goal with
      | |- Always ?P (perform ?h ?c) =>
          apply (Always_perform h P c); intros; first [exact I | reflexivity]
      | |- Always _ (match ?x with _ => _ end) => destruct x
      | |- Always _ (if ?b then _ else _) => destruct b
      end ].

(** X4. With [args.epoch <= 0] the loop body never runs: in every run,
    finished or not, train is not called, nothing is exported, no summary is
    set and there is no forward or backward pass.  A finished run without
    [--tuning] still creates the artifact and adds the two weight files, which
    this run did not write. *)
Theorem no_epochs_no_training (args : Args) (w : World) :
  let r := main handler grad_mode args w in
  epoch args ≤ 0 →
  flat_map export_view (trace r) = []
  ∧ flat_map grad_view (trace r) = []
  ∧ (outcome r = Ok tt → tuning args = false →
     ∃ a, flat_map artifact_view (trace r)
          = [ACreate (run args) "weights" a;
             AAdd a (SAVE_PATH +:+ run args +:+ ".onnx");
             AAdd a (SAVE_PATH +:+ run args +:+ ".pth");
             ALog a]).
Proof.
  intros r Hle. subst r.
  assert (H0 : Z.to_nat (epoch args) = 0%nat) by lia.
  split; [| split].
  - apply flat_map_nil_Forall.
    assert (Ha : Always (λ e, export_view e = []) (main handler grad_mode args)).
    { unfold main, setup, make_anchors, training, export_artifact, range. rewrite H0.
      cbn [seq fmap list_fmap for_each]. repeat always_step. }
    apply Ha.
  - apply flat_map_nil_Forall.
    assert (Ha : Always (λ e, grad_view e = []) (main handler grad_mode args)).
    { unfold main, setup, make_anchors, training, export_artifact, range. rewrite H0.
      cbn [seq fmap list_fmap for_each]. repeat always_step. }
    apply Ha.
  - intros Hok Hnt.
    destruct (main_cases handler grad_mode args w)
      as [[e E] | (model & anchors & ld & opt & crit & sched & dev & ers & tail
                   & Hs & _ & Hn & Hoks & _ & Htr & Ht)]; [congruence |].
    destruct (setup_cases handler grad_mode args w)
      as [[e E] | (model' & anchors' & ld' & opt' & crit' & sched' & dev' & ts & vs & vl & m0
                   & Hs' & _ & _ & Hav & _ & _)]; [congruence |].
    rewrite H0 in Hn. destruct ers; [| discriminate].
    rewrite Hnt in Ht. destruct Ht as [a ->]. exists a.
    rewrite Htr, !flat_map_app, Hav. reflexivity.
Qed.

(** ** The set-up *)

(** The trace of a set-up that finishes, and the objects that it hands on. *)
Lemma setup_trace (args : Args) (w : World) (objs : Objects) :
  outcome (setup handler grad_mode args w) = Ok objs →
  ∃ su, trace (setup handler grad_mode args w) = setup_events args su
        ∧ objs = su_objects su.
Proof.
  unfold setup.
  do 16 (step; [discriminate |]).
  match goal with |- context [m_bind (make_anchors _ _ ?m ?d) _ ?w'] =>
    destruct (make_anchors_cases handler grad_mode m d w')
      as [[e E] | (fm & g & a & a' & E & Htr)] end.
  - rewrite (bind_Raise _ _ _ _ E). discriminate.
  - rewrite (bind_Ok _ _ _ _ E), Htr. cbn [outcome trace world].
    do 5 (step; [discriminate |]). kill_units. unfold m_ret. cbn [outcome trace].
    intros [= <-].
    eexists (Build_SetupRun _ _ _ _ _ _ _ _ _ _ _ _ _ _ _ _ _ _ _ _ _).
    split; reflexivity.
Qed.

(** ** Which weights are saved, and which data is read *)

Section MoreViews.
Variables (args : Args) (model : Model) (anchors : AnchorT) (trainloader : Loader)
  (optimizer : Optim) (criterion : Crit) (scheduler : Sched) (device : Device)
  (epochs : Z).

Lemma step_view_batches (i : nat) (bs : list BatchRun) :
  flat_map step_view
    (batches_events model anchors trainloader optimizer criterion device i bs)
  = replicate (length bs) (SStep optimizer).
Proof.
  revert i. induction bs as [| b bs IH]; intros i; [reflexivity |].
  cbn [batches_events]. rewrite flat_map_app, IH. unfold batch_events.
  rewrite !flat_map_app, flat_map_annot_events by reflexivity. reflexivity.
Qed.

Lemma data_view_batches (i : nat) (bs : list BatchRun) :
  flat_map data_view
    (batches_events model anchors trainloader optimizer criterion device i bs)
  = DBatch trainloader <$> seq i (length bs).
Proof.
  revert i. induction bs as [| b bs IH]; intros i; [reflexivity |].
  cbn [batches_events]. rewrite flat_map_app, IH. unfold batch_events.
  rewrite !flat_map_app, flat_map_annot_events by reflexivity. reflexivity.
Qed.

Lemma export_tail_more_views (best_ap : Z) (bs : list BatchRun) (tail : list Event) :
  export_tail args model best_ap bs tail →
  flat_map data_view tail = []
  ∧ flat_map step_view tail =
      if 0 >? best_ap
      then [SOnnx (SAVE_PATH +:+ run args +:+ ".onnx");
            SSaved (SAVE_PATH +:+ run args +:+ ".pth")]
      else [].
Proof.
  unfold export_tail. destruct (0 >? best_ap).
  - intros (x & sd & _ & ->). split; reflexivity.
  - intros ->. split; reflexivity.
Qed.

Lemma step_view_epoch (e best_ap : Z) (er : EpochRun) :
  epoch_ok args model trainloader best_ap er →
  flat_map step_view
    (epoch_events model anchors trainloader optimizer criterion scheduler device
       epochs e best_ap er)
  = replicate (loader_len trainloader) (SStep optimizer)
    ++ if 0 >? best_ap
       then [SOnnx (SAVE_PATH +:+ run args +:+ ".onnx");
             SSaved (SAVE_PATH +:+ run args +:+ ".pth")]
       else [].
Proof.
  intros (Hn & _ & _ & _ & _ & Ht). apply export_tail_more_views in Ht as (_ & Hx).
  unfold epoch_events. cbn zeta.
  rewrite !flat_map_app. cbn [flat_map step_view app].
  rewrite flat_map_app, step_view_batches, Hx, Hn.
  destruct (0 >? best_ap); cbn; rewrite ?app_nil_r; reflexivity.
Qed.

Lemma step_view_later_epochs (e : nat) (best_ap : Z) (ers : list EpochRun) :
  0 ≤ best_ap →
  epochs_ok args model trainloader best_ap ers →
  flat_map step_view
    (epochs_events model anchors trainloader optimizer criterion scheduler device
       epochs e best_ap ers)
  = replicate (length ers * loader_len trainloader) (SStep optimizer).
Proof.
  intros Hb. revert e. induction ers as [| er ers IH]; intros e; [reflexivity |].
  intros [Hok Hoks]. cbn [epochs_events].
  rewrite flat_map_app, (step_view_epoch _ _ _ Hok).
  assert (Hgt : (0 >? best_ap) = false) by lia.
  unfold next_best in Hoks |- *. rewrite Hgt in Hoks |- *.
  rewrite (IH _ Hoks), app_nil_r. cbn [length Nat.mul]. rewrite replicate_add. reflexivity.
Qed.

Lemma data_view_epoch (e best_ap : Z) (er : EpochRun) :
  epoch_ok args model trainloader best_ap er →
  flat_map data_view
    (epoch_events model anchors trainloader optimizer criterion scheduler device
       epochs e best_ap er)
  = DBatch trainloader <$> seq 0 (loader_len trainloader).
Proof.
  intros (Hn & _ & _ & _ & _ & Ht). apply export_tail_more_views in Ht as (Hd & _).
  unfold epoch_events. cbn zeta.
  rewrite !flat_map_app. cbn [flat_map data_view app].
  rewrite flat_map_app, data_view_batches, Hd, Hn.
  destruct (0 >? best_ap); cbn; rewrite ?app_nil_r; reflexivity.
Qed.

Lemma data_view_epochs (e : nat) (best_ap : Z) (ers : list EpochRun) :
  epochs_ok args model trainloader best_ap ers →
  flat_map data_view
    (epochs_events model anchors trainloader optimizer criterion scheduler device
       epochs e best_ap ers)
  = concat (replicate (length ers) (DBatch trainloader <$> seq 0 (loader_len trainloader))).
Proof.
  revert e best_ap. induction ers as [| er ers IH]; intros e best_ap; [reflexivity |].
  intros [Hok Hoks]. cbn [epochs_events].
  rewrite flat_map_app, (data_view_epoch _ _ _ Hok), (IH _ _ Hoks). reflexivity.
Qed.

End MoreViews.

(** X6. In a finished run with [args.epoch >= 1] the optimizer steps and the
    two checkpoint writes come in this order: the [len(trainloader)] steps of
    the first epoch, the ONNX export, the [torch.save], and then the
    [(args.epoch - 1) * len(trainloader)] steps of the later epochs.  The files
    hold the weights after the first epoch; no later step is saved. *)
Theorem saved_weights_are_from_first_epoch (args : Args) (w : World) :
  let r := main handler grad_mode args w in
  outcome r = Ok tt →
  1 ≤ epoch args →
  ∃ trainloader optimizer,
    flat_map step_view (trace r)
    = replicate (loader_len trainloader) (SStep optimizer)
      ++ [SOnnx (SAVE_PATH +:+ run args +:+ ".onnx");
          SSaved (SAVE_PATH +:+ run args +:+ ".pth")]
      ++ replicate ((Z.to_nat (epoch args) - 1) * loader_len trainloader) (SStep optimizer).
Proof.
  intros r Hok Hpos. subst r.
  destruct (main_cases handler grad_mode args w)
    as [[e E] | (model & anchors & ld & opt & crit & sched & dev & ers & tail
                 & Hs & _ & Hn & Hoks & _ & Htr & Ht)]; [congruence |].
  destruct (setup_trace args w _ Hs) as (su & Hsu & _).
  exists ld, opt. rewrite Htr, Hsu, !flat_map_app.
  assert (Hta : flat_map step_view tail = []).
  { destruct (tuning args); [subst tail; reflexivity |]. destruct Ht as [a ->]. reflexivity. }
  rewrite Hta, app_nil_r.
  change (flat_map step_view (setup_events args su)) with (@nil StepEv). cbn [app].
  destruct ers as [| er ers]; [cbn in Hn; lia |].
  destruct Hoks as [Hok1 Hoks]. cbn [epochs_events].
  rewrite flat_map_app, (step_view_epoch args _ _ _ _ _ _ _ _ _ _ _ Hok1).
  change (0 >? -1) with true.
  rewrite (step_view_later_epochs args _ _ _ _ _ _ _ _ _ 0 ers); [| lia | exact Hoks].
  replace (length ers) with (Z.to_nat (epoch args) - 1)%nat by (cbn [length] in Hn; lia).
  rewrite <- app_assoc. reflexivity.
Qed.

(** X7. In a finished run the two datasets are built from DATA_PATH with
    [is_train] True and False, the training loader is built on the first with
    [shuffle=True] and the validation loader on the second with
    [shuffle=False], and every batch that is read afterwards, in each of the
    [args.epoch] epochs, is read from the training loader: the validation
    loader is built and never iterated. *)
Theorem validation_loader_is_never_read (args : Args) (w : World) :
  let r := main handler grad_mode args w in
  outcome r = Ok tt →
  ∃ train_set valid_set trainloader validloader,
    flat_map data_view (trace r)
    = [DDataset DATA_PATH true train_set;
       DDataset DATA_PATH false valid_set;
       DLoader train_set true trainloader;
       DLoader valid_set false validloader]
      ++ concat (replicate (Z.to_nat (epoch args))
                   (DBatch trainloader <$> seq 0 (loader_len trainloader))).
Proof.
  intros r Hok. subst r.
  destruct (main_cases handler grad_mode args w)
    as [[e E] | (model & anchors & ld & opt & crit & sched & dev & ers & tail
                 & Hs & _ & Hn & Hoks & _ & Htr & Ht)]; [congruence |].
  destruct (setup_trace args w _ Hs) as (su & Hsu & Hobj).
  injection Hobj as -> -> -> -> -> -> ->.
  exists (su_train_set su), (su_valid_set su), (su_trainloader su), (su_validloader su).
  rewrite Htr, Hsu, !flat_map_app.
  assert (Hta : flat_map data_view tail = []).
  { destruct (tuning args); [subst tail; reflexivity |]. destruct Ht as [a ->]. reflexivity. }
  rewrite Hta, app_nil_r.
  rewrite (data_view_epochs args _ _ _ _ _ _ _ _ _ _ _ Hoks), Hn. reflexivity.
Qed.

(** ** The start frame option *)

(** X8. [--startfm] only reaches the configuration dictionary handed to
    [wandb.init]: when the tracker answers [wandb.init] without looking at
    that entry, two runs that differ only in this argument end the same way,
    in the same world, and make the same calls with the same answers, except
    for that entry. *)
Theorem startfm_only_reaches_config (args : Args) (sf : Num) (w : World) :
  (∀ p cfg n w', handler (WandbInit p cfg n) w'
                 = handler (WandbInit p (blank_startfm cfg) n) w') →
  let r1 := main handler grad_mode args w in
  let r2 := main handler grad_mode (set_startfm args sf) w in
  outcome r1 = outcome r2
  ∧ world r1 = world r2
  ∧ blank_startfm_event <$> trace r1 = blank_startfm_event <$> trace r2.
Proof.
  intros Hh r1 r2.
  assert (Hb : blank_startfm (wandb_config (set_startfm args sf))
               = blank_startfm (wandb_config args)) by reflexivity.
  repeat match goal with |- _ ∧ _ => split end; subst r1 r2;
    unfold main, setup; rewrite !bind_assoc;
    rewrite (bind_perform handler (WandbInit PROJECT (wandb_config args) "nmd2000"));
    rewrite (bind_perform handler (WandbInit PROJECT
                             (wandb_config (set_startfm args sf)) "nmd2000"));
    pose proof (Hh PROJECT (wandb_config args) "nmd2000" w) as H1;
    pose proof (Hh PROJECT (wandb_config (set_startfm args sf)) "nmd2000" w) as H2;
    rewrite Hb in H2; rewrite <- H1 in H2; clear H1;
    destruct (handler (WandbInit PROJECT (wandb_config args) "nmd2000") w)
      as [[e1 | a1] w1];
    destruct (handler (WandbInit PROJECT (wandb_config (set_startfm args sf))
                         "nmd2000") w) as [[e2 | a2] w2];
    try discriminate H2; injection H2 as -> ->; reflexivity.
Qed.

End MoreFacts.

(** * Further properties of parse_args *)

Section MoreParserFacts.
Context `{BI : Builtins} `{CF : !Config}.

Lemma NoDup_fmap_eq {A B} (f : A → B) (l : list A) (x y : A) :
  NoDup (f <$> l) → x ∈ l → y ∈ l → f x = f y → x = y.
Proof.
  induction l as [| a l IH]; [intros _ Hx; inversion Hx |].
  rewrite fmap_cons, NoDup_cons. intros [Hna Hnd] Hx Hy Hf.
  apply elem_of_cons in Hx as [-> | Hx]; apply elem_of_cons in Hy as [-> | Hy];
    [reflexivity | | | exact (IH Hnd Hx Hy Hf)]; exfalso; apply Hna.
  - rewrite Hf. apply list_elem_of_fmap. eauto.
  - rewrite <- Hf. apply list_elem_of_fmap. eauto.
Qed.

Lemma parser_dest_NoDup : NoDup (dest <$> parser).
Proof. apply (bool_decide_unpack _). vm_compute. reflexivity. Qed.

Lemma declared_in_parser (o : Opt) : o ∈ declared_options → o ∈ parser.
Proof. rewrite parser_table. intros Ho. apply elem_of_app. right. exact Ho. Qed.

Lemma dest_inj (o o' : Opt) : o ∈ parser → o' ∈ parser → dest o = dest o' → o = o'.
Proof. apply NoDup_fmap_eq, parser_dest_NoDup. Qed.

Lemma get_value_fits (t : ArgType) (s : string) (v : Value) :
  get_value t s = Some v → fits (Store t) v = true.
Proof.
  destruct t; cbn.
  - intros [= <-]. reflexivity.
  - destruct (int_of_str s); [intros [= <-]; reflexivity | discriminate].
  - destruct (float_of_str s); [intros [= <-]; reflexivity | discriminate].
Qed.

Lemma typed_insert (cs : list (string * Cls)) (o : Opt) (v : Value)
    (ns : gmap string Value) :
  o ∈ parser →
  fits (action o) v = true ∨ (v = VList [] ∧ ∃ tok, (tok, COption o (Some "--")) ∈ cs) →
  typed cs ns → typed cs (<[dest o := v]> ns).
Proof.
  intros Ho Hf Hty o' Ho'. destruct (decide (dest o = dest o')) as [Heq | Hne].
  - assert (o = o') as <- by (apply dest_inj; auto using declared_in_parser).
    right. rewrite lookup_insert_eq. destruct Hf as [Hf | [-> Hin]]; [left | right]; eauto.
  - rewrite lookup_insert_ne by exact Hne. apply Hty, Ho'.
Qed.

Lemma consume_typed (all : list (string * Cls)) (n : nat) (cs : list (string * Cls))
    (ns ns' : gmap string Value) (seen seen' : gset string) :
  (length cs ≤ n)%nat →
  (∀ x, x ∈ cs → x ∈ all) →
  (∀ tok o e, (tok, COption o e) ∈ cs → o ∈ parser) →
  typed all ns →
  consume cs ns seen = Some (ns', seen') →
  typed all ns'.
Proof.
  revert cs ns seen. induction n as [| n IH]; intros cs ns seen Hlen Hall Hin Hty Hc.
  - destruct cs; [| cbn in Hlen; lia]. cbn in Hc. injection Hc as <- <-. exact Hty.
  - destruct cs as [| [tok cl] rest].
    { cbn in Hc. injection Hc as <- <-. exact Hty. }
    cbn [length] in Hlen. destruct cl as [| o e | |]; cbn [consume] in Hc; try discriminate.
    assert (Ho : o ∈ parser) by (eapply Hin; left).
    assert (Hhd : (tok, COption o e) ∈ all) by (apply Hall; left).
    assert (Hrest : ∀ tok' o' e', (tok', COption o' e') ∈ rest → o' ∈ parser)
      by (intros; eapply Hin; right; eassumption).
    assert (Hall' : ∀ x, x ∈ rest → x ∈ all) by (intros; apply Hall; right; assumption).
    destruct (action o) as [t | |] eqn:Ha; [| | discriminate].
    + destruct e as [s |].
      * case_bool_decide as Hs.
        { subst s. eapply (IH rest); [lia | exact Hall' | exact Hrest | | exact Hc].
          apply typed_insert; [exact Ho | right; eauto | exact Hty]. }
        destruct (get_value t s) as [v |] eqn:Hv; [| discriminate].
        eapply (IH rest); [lia | exact Hall' | exact Hrest | | exact Hc].
        apply typed_insert;
          [exact Ho | left; rewrite Ha; eapply get_value_fits, Hv | exact Hty].
      * destruct rest as [| [a [| | |]] rest']; try discriminate.
        destruct (get_value t a) as [v |] eqn:Hv; [| discriminate].
        eapply (IH rest'); [cbn [length] in Hlen; lia | | | | exact Hc].
        -- intros; apply Hall'; right; assumption.
        -- intros; eapply Hrest; right; eassumption.
        -- apply typed_insert;
             [exact Ho | left; rewrite Ha; eapply get_value_fits, Hv | exact Hty].
    + destruct e as [s |]; [discriminate |].
      eapply (IH rest); [lia | exact Hall' | exact Hrest | | exact Hc].
      apply typed_insert; [exact Ho | left; rewrite Ha; reflexivity | exact Hty].
Qed.

Lemma typed_defaults (cs : list (string * Cls)) : typed cs (set_defaults parser ∅).
Proof. intros o Ho. left. apply defaults_lookup, Ho. Qed.

Lemma classify_in_parser (argv : list string) (tok : string) (o : Opt) (e : option string) :
  (tok, COption o e) ∈ classify argv → o ∈ parser.
Proof. intros Hin. apply classify_elem in Hin as [_ Hcl]. eapply parse_optional_in, Hcl. Qed.

(** What the conversion of the string defaults leaves of a namespace. *)
Lemma typed_convert (cs : list (string * Cls)) (seen : gset string)
    (ns ns' : gmap string Value) :
  typed cs ns → convert_defaults parser seen ns = Some ns' → typed cs ns'.
Proof.
  rewrite convert_defaults_parser. cbn zeta. intros Hty [= <-].
  assert (Hins : ∀ m o, o ∈ declared_options → typed cs m →
                        typed cs (<[dest o := default VNone (opt_default o)]> m)).
  { intros m o Ho Hm o' Ho'. destruct (decide (dest o = dest o')) as [Heq | Hne].
    - assert (o = o') as <- by (apply dest_inj; auto using declared_in_parser).
      left. rewrite lookup_insert_eq. unfold declared_options in Ho.
      repeat (apply elem_of_cons in Ho as [-> | Ho]); try reflexivity. inversion Ho.
    - rewrite lookup_insert_ne by exact Hne. apply Hm, Ho'. }
  assert (Hrun := λ m, Hins m (declared "--run" "run" (Store TStr) (VStr RUN_NAME))
                         ltac:(unfold declared_options; set_solver)).
  assert (Hmodel := λ m, Hins m (declared "--model" "model" (Store TStr)
                                   (VStr "mobilenet0.25"))
                           ltac:(unfold declared_options; set_solver)).
  cbn in Hrun, Hmodel.
  repeat case_bool_decide; auto.
Qed.

Lemma parse_args_typed (argv : list string) (ns : gmap string Value) :
  parse_args argv = Some ns → typed (classify argv) ns.
Proof.
  unfold parse_args. case_bool_decide as Hsep; [discriminate |].
  destruct (existsb _ _); [discriminate |].
  destruct (consume (classify argv) (set_defaults parser ∅) ∅) as [[ns1 seen1] |] eqn:Hc;
    [| discriminate].
  intros Hcv. eapply typed_convert; [| exact Hcv].
  eapply (consume_typed (classify argv) (length (classify argv)) (classify argv));
    [lia | auto | | | exact Hc].
  - intros tok o e. apply classify_in_parser.
  - apply typed_defaults.
Qed.

(** X10. In the namespace of an accepted invocation every attribute holds
    the declared default of its option, or a value of the option's [type] (a
    string for --run, --model and --weight, an int for --epoch,
    --weight_decay, --momentum, --startfm and --batchsize, a float for --lr,
    True for --download and --tuning), or the empty list; and it holds the
    empty list only when the invocation gives the option as [name=--], which
    argparse accepts for the nine storing options.  So a weight decay or a
    momentum given on the command line is never fractional. *)
Theorem given_values_have_the_declared_type (argv : list string) (ns : gmap string Value)
    (o : Opt) :
  parse_args argv = Some ns →
  o ∈ declared_options →
  ns !! dest o = opt_default o
  ∨ (∃ v, ns !! dest o = Some v ∧ fits (action o) v = true)
  ∨ (ns !! dest o = Some (VList [])
     ∧ ∃ tok, tok ∈ argv ∧ parse_optional parser tok = COption o (Some "--")).
Proof.
  intros Hp Ho.
  destruct (parse_args_typed argv ns Hp o Ho) as [H0 | [H0 | [H0 (tok & Hin)]]]; auto.
  right; right. split; [exact H0 |]. exists tok. apply classify_elem, Hin.
Qed.

(** X9. The namespace of an accepted invocation in which no option is given
    as [name=--] has all eleven attributes that the main program reads, each
    of a kind it can use: the strings [run] and [model], [weight] (a string
    or None), the int [epoch], the numbers [weight_decay], [momentum],
    [startfm], [batchsize] and [lr], and the booleans [download] and
    [tuning].  (An option given as [name=--] leaves the empty list, X10.) *)
Theorem parse_args_gives_all_arguments (argv : list string) (ns : gmap string Value) :
  parse_args argv = Some ns →
  (∀ tok o, tok ∈ argv → parse_optional parser tok ≠ COption o (Some "--")) →
  ∃ a, args_of ns = Some a.
Proof.
  intros Hp Hne. pose proof (parse_args_typed argv ns Hp) as Hty.
  assert (Hat : ∀ i o, declared_options !! i = Some o →
                  ns !! dest o = opt_default o
                  ∨ ∃ v, ns !! dest o = Some v ∧ fits (action o) v = true).
  { intros i o Hi.
    destruct (Hty o) as [H0 | [H0 | [_ (tok & Hin)]]]; [| auto | auto |].
    - eapply list_elem_of_lookup_2, Hi.
    - apply classify_elem in Hin as [Hin Hcl]. destruct (Hne tok o Hin Hcl). }
  assert (H0 : is_Some (as_str (ns !! "run"))).
  { destruct (Hat 0%nat _ eq_refl) as [E | (v & E & Hf)]; cbn in E; rewrite E;
      [eexists; reflexivity |].
    destruct v as [| | [] | |]; try discriminate; eexists; reflexivity. }
  assert (H1 : is_Some (as_int (ns !! "epoch"))).
  { destruct (Hat 1%nat _ eq_refl) as [E | (v & E & Hf)]; cbn in E; rewrite E;
      [eexists; reflexivity |].
    destruct v as [| | [] | |]; try discriminate; eexists; reflexivity. }
  assert (H2 : is_Some (as_str (ns !! "model"))).
  { destruct (Hat 2%nat _ eq_refl) as [E | (v & E & Hf)]; cbn in E; rewrite E;
      [eexists; reflexivity |].
    destruct v as [| | [] | |]; try discriminate; eexists; reflexivity. }
  assert (H3 : is_Some (as_opt_str (ns !! "weight"))).
  { destruct (Hat 3%nat _ eq_refl) as [E | (v & E & Hf)]; cbn in E; rewrite E;
      [eexists; reflexivity |].
    destruct v as [| | [] | |]; try discriminate; eexists; reflexivity. }
  assert (Hnum : ∀ i o, declared_options !! i = Some o →
                   (∃ n, opt_default o = Some (VNum n)) →
                   (∃ t, action o = Store t ∧ t ≠ TStr) →
                   is_Some (as_num (ns !! dest o))).
  { intros i o Hi [n Hd] (t & Ha & Ht).
    destruct (Hat i o Hi) as [E | (v & E & Hf)]; rewrite E.
    - rewrite Hd. eexists; reflexivity.
    - rewrite Ha in Hf. destruct t; [congruence | |];
        destruct v as [| | [] | |]; try discriminate; eexists; reflexivity. }
  assert (H4 : is_Some (as_num (ns !! "weight_decay"))).
  { apply (Hnum 4%nat _ eq_refl); [eexists; reflexivity |].
    exists TInt. split; [reflexivity | discriminate]. }
  assert (H5 : is_Some (as_num (ns !! "momentum"))).
  { apply (Hnum 5%nat _ eq_refl); [eexists; reflexivity |].
    exists TInt. split; [reflexivity | discriminate]. }
  assert (H6 : is_Some (as_num (ns !! "startfm"))).
  { apply (Hnum 6%nat _ eq_refl); [eexists; reflexivity |].
    exists TInt. split; [reflexivity | discriminate]. }
  assert (H7 : is_Some (as_num (ns !! "batchsize"))).
  { apply (Hnum 7%nat _ eq_refl); [eexists; reflexivity |].
    exists TInt. split; [reflexivity | discriminate]. }
  assert (H8 : is_Some (as_num (ns !! "lr"))).
  { apply (Hnum 8%nat _ eq_refl); [eexists; reflexivity |].
    exists TFloat. split; [reflexivity | discriminate]. }
  assert (H9 : is_Some (as_bool (ns !! "download"))).
  { destruct (Hat 9%nat _ eq_refl) as [E | (v & E & Hf)]; cbn in E; rewrite E;
      [eexists; reflexivity |].
    destruct v as [| | [] | |]; try discriminate; eexists; reflexivity. }
  assert (H10 : is_Some (as_bool (ns !! "tuning"))).
  { destruct (Hat 10%nat _ eq_refl) as [E | (v & E & Hf)]; cbn in E; rewrite E;
      [eexists; reflexivity |].
    destruct v as [| | [] | |]; try discriminate; eexists; reflexivity. }
  destruct H0 as [? E0], H1 as [? E1], H2 as [? E2], H3 as [? E3], H4 as [? E4],
    H5 as [? E5], H6 as [? E6], H7 as [? E7], H8 as [? E8], H9 as [? E9], H10 as [? E10].
  unfold args_of. rewrite E0, E1, E2, E3, E4, E5, E6, E7, E8, E9, E10. cbn.
  eexists. reflexivity.
Qed.

(** X11. An invocation in which some token reads as the help option ([-h],
    [--help] or an abbreviation of it) is never accepted, wherever the token
    stands and whatever else is given: parse_args leaves through SystemExit. *)
Theorem help_exits (argv : list string) (tok : string) :
  tok ∈ argv →
  (tok = "-h" ∨ tok = "--help"
   ∨ ∃ o e, parse_optional parser tok = COption o e ∧ action o = Help) →
  parse_args argv = None.
Proof.
  intros Hin Hhelp.
  assert (Hcl : ∃ o e, parse_optional parser tok = COption o e ∧ action o = Help).
  { destruct Hhelp as [-> | [-> | H0]]; [| | exact H0]; eexists _, _; split; reflexivity. }
  destruct Hcl as (o & e & Hcl & Ha).
  destruct (parse_args argv) as [ns |] eqn:Hp; [exfalso | reflexivity].
  unfold parse_args in Hp. case_bool_decide as Hsep; [discriminate |].
  destruct (existsb _ _); [discriminate |].
  destruct (consume (classify argv) (set_defaults parser ∅) ∅) as [[ns1 seen1] |] eqn:Hc;
    [| discriminate].
  apply (consume_inv (length (classify argv))) in Hc as (Hnohelp & _); [| lia].
  eapply Hnohelp; [apply classify_elem; eauto | exact Ha].
Qed.

(** X12. [--m] and [--mo] abbreviate both --model and --momentum, and [--w]
    up to [--weigh] abbreviate both --weight and --weight_decay.  An
    invocation that holds one of them, alone or as [abbreviation=value], is
    rejected, wherever the token stands. *)
Theorem ambiguous_abbreviation_exits (argv : list string) (tok p : string) :
  tok ∈ argv →
  p ∈ shared_prefixes →
  (tok = p ∨ ∃ v, tok = p +:+ "=" +:+ v) →
  parse_args argv = None.
Proof.
  intros Hin Hp Htok.
  assert (Hcl : parse_optional parser tok = CAmbiguous).
  { unfold shared_prefixes in Hp.
    repeat (apply elem_of_cons in Hp as [-> | Hp]); [.. | inversion Hp];
      destruct Htok as [-> | [v ->]]; reflexivity. }
  unfold parse_args. case_bool_decide; [reflexivity |].
  assert (Hex : existsb (λ c, is_ambiguous c.2) (classify argv) = true).
  { apply existsb_exists. exists (tok, CAmbiguous). split; [| reflexivity].
    apply list_elem_of_In. unfold classify. apply list_elem_of_fmap.
    exists tok. rewrite Hcl. auto. }
  rewrite Hex. reflexivity.
Qed.

Lemma declared_flag_exact (o : Opt) (f : string) :
  o ∈ declared_options → f ∈ flags o → parse_optional parser f = COption o None.
Proof.
  intros Ho Hf. unfold declared_options in Ho.
  repeat (apply elem_of_cons in Ho as [-> | Ho]);
    try (apply list_elem_of_singleton in Hf as ->; vm_compute; reflexivity).
  inversion Ho.
Qed.

(** Tokens that follow an option token are consumed on their own. *)
Lemma consume_app (n : nat) (cs tail : list (string * Cls)) (ns : gmap string Value)
    (seen : gset string) (r : gmap string Value * gset string) :
  (length cs ≤ n)%nat →
  (∃ tok o e tl, tail = (tok, COption o e) :: tl) →
  consume (cs ++ tail) ns seen = Some r →
  ∃ ns0 seen0, consume tail ns0 seen0 = Some r.
Proof.
  intros Hlen (tk & o & e0 & tl & ->). revert cs ns seen Hlen.
  induction n as [| n IH]; intros cs ns seen Hlen Hc.
  - destruct cs; [| cbn in Hlen; lia]. eauto.
  - destruct cs as [| [tok cl] rest]; [eauto |].
    cbn [length] in Hlen. rewrite <- app_comm_cons in Hc.
    destruct cl as [| o' e | |]; cbn [consume] in Hc; try discriminate.
    destruct (action o') as [t' | |]; [| | discriminate].
    + destruct e as [s' |].
      * case_bool_decide; [eapply (IH rest); [lia | exact Hc] |].
        destruct (get_value t' s') as [v |]; [| discriminate].
        eapply (IH rest); [lia | exact Hc].
      * destruct rest as [| [a cl'] rest'].
        { cbn [app] in Hc. discriminate. }
        rewrite <- app_comm_cons in Hc. destruct cl'; try discriminate.
        destruct (get_value t' a) as [v |]; [| discriminate].
        eapply (IH rest'); [cbn [length] in Hlen; lia | exact Hc].
    + destruct e as [s' |]; [discriminate |].
      eapply (IH rest); [lia | exact Hc].
Qed.

Lemma declared_flag_eq (o : Opt) (f s : string) (t : ArgType) :
  o ∈ declared_options → f ∈ flags o → action o = Store t →
  parse_optional parser (f +:+ "=" +:+ s) = COption o (Some s).
Proof.
  intros Ho Hf Ha. unfold declared_options in Ho.
  repeat (apply elem_of_cons in Ho as [-> | Ho]); try discriminate Ha;
    try (apply list_elem_of_singleton in Hf as ->; reflexivity).
  inversion Ho.
Qed.

Lemma convert_keeps (seen : gset string) (ns ns' : gmap string Value) (d : string) :
  convert_defaults parser seen ns = Some ns' →
  d ∈ seen ∨ (d ≠ "run" ∧ d ≠ "model") →
  ns' !! d = ns !! d.
Proof.
  rewrite convert_defaults_parser. cbn zeta. intros [= <-] Hd.
  repeat case_bool_decide; try reflexivity;
    destruct Hd as [Hs | [Hr Hm]];
    repeat match goal with
           | |- context [<[?k := _]> _ !! d] =>
               rewrite (lookup_insert_ne _ k d) by congruence
           end; reflexivity.
Qed.

(** X13. When an accepted invocation ends with a storing option and its
    value, written [--name value] or [--name=value], the attribute of the
    option is that value converted by the option's [type], whatever came
    before: the last occurrence wins, and the conversion did not fail.  The
    one exception is [--name=--], which leaves the empty list. *)
Theorem last_occurrence_wins (argv tail : list string) (o : Opt) (f s : string)
    (t : ArgType) (ns : gmap string Value) :
  o ∈ declared_options → f ∈ flags o → action o = Store t →
  tail = [f; s] ∨ tail = [f +:+ "=" +:+ s] →
  parse_args (argv ++ tail) = Some ns →
  (s = "--" ∧ tail = [f +:+ "=" +:+ s] ∧ ns !! dest o = Some (VList []))
  ∨ (s ≠ "--" ∧ ∃ v, get_value t s = Some v ∧ ns !! dest o = Some v).
Proof.
  intros Ho Hf Ha Htail. unfold parse_args. case_bool_decide as Hsep; [discriminate |].
  destruct (existsb _ _); [discriminate |].
  destruct (consume _ _ _) as [[ns1 seen1] |] eqn:Hc; [| discriminate].
  intros Hcv.
  assert (Hlast : dest o ∈ seen1
                  ∧ ((s = "--" ∧ tail = [f +:+ "=" +:+ s] ∧ ns1 !! dest o = Some (VList []))
                     ∨ (s ≠ "--" ∧ ∃ v, get_value t s = Some v ∧ ns1 !! dest o = Some v))).
  { unfold classify in Hc. rewrite fmap_app in Hc.
    apply (consume_app (length ((λ s0, (s0, parse_optional parser s0)) <$> argv)))
      in Hc as (ns0 & seen0 & Hc); [| lia |].
    - destruct Htail as [-> | ->]; cbn [fmap list_fmap] in Hc.
      + assert (Hs : s ≠ "--").
        { intros ->. apply Hsep. apply elem_of_app. right. repeat constructor. }
        rewrite (declared_flag_exact o f Ho Hf) in Hc. cbn [consume] in Hc. rewrite Ha in Hc.
        destruct (parse_optional parser s); try discriminate.
        destruct (get_value t s) as [v |]; [| discriminate]. injection Hc as <- <-.
        rewrite lookup_insert_eq, elem_of_union, elem_of_singleton. eauto 8.
      + rewrite (declared_flag_eq o f s t Ho Hf Ha) in Hc. cbn [consume] in Hc.
        rewrite Ha in Hc. case_bool_decide as Hs.
        * injection Hc as <- <-.
          rewrite lookup_insert_eq, elem_of_union, elem_of_singleton. auto.
        * destruct (get_value t s) as [v |]; [| discriminate]. injection Hc as <- <-.
          rewrite lookup_insert_eq, elem_of_union, elem_of_singleton. eauto 8.
    - destruct Htail as [-> | ->]; cbn [fmap list_fmap].
      + rewrite (declared_flag_exact o f Ho Hf). eauto.
      + rewrite (declared_flag_eq o f s t Ho Hf Ha). eauto. }
  destruct Hlast as [Hs Hl].
  rewrite (convert_keeps _ _ _ (dest o) Hcv (or_introl Hs)). exact Hl.
Qed.

(** A flag that was given stays set. *)
Lemma consume_flag (n : nat) (o : Opt) (cs : list (string * Cls))
    (ns ns' : gmap string Value) (seen seen' : gset string) :
  (length cs ≤ n)%nat →
  o ∈ parser → action o = StoreTrue →
  (∀ tok o' e, (tok, COption o' e) ∈ cs → o' ∈ parser) →
  ns !! dest o = Some (VBool true) ∨ (∃ tok e, (tok, COption o e) ∈ cs) →
  consume cs ns seen = Some (ns', seen') →
  ns' !! dest o = Some (VBool true).
Proof.
  intros Hlen Ho Ha. revert cs ns seen Hlen.
  assert (Hins : ∀ o' v (m : gmap string Value),
            o' ∈ parser → (o' = o → v = VBool true) →
            m !! dest o = Some (VBool true) ∨ o' = o →
            <[dest o' := v]> m !! dest o = Some (VBool true)).
  { intros o' v m Ho' Hv Hm. destruct (decide (dest o' = dest o)) as [Heq | Hne].
    - assert (o' = o) as -> by (apply dest_inj; assumption).
      rewrite lookup_insert_eq, Hv; reflexivity.
    - rewrite lookup_insert_ne by exact Hne. destruct Hm as [Hm | ->]; [exact Hm | congruence]. }
  assert (Hnext : ∀ (tok : string) o' e (rest : list (string * Cls))
                    (m : gmap string Value),
            m !! dest o = Some (VBool true)
            ∨ (∃ tok' e', (tok', COption o e') ∈ (tok, COption o' e) :: rest) →
            (m !! dest o = Some (VBool true) ∨ o' = o)
            ∨ (∃ tok' e', (tok', COption o e') ∈ rest)).
  { intros tok o' e rest m [Hm | (tok' & e' & Hin)]; [auto |].
    apply elem_of_cons in Hin as [[= -> -> ->] | Hin]; eauto. }
  induction n as [| n IH]; intros cs ns seen Hlen Hin Hpre Hc.
  - destruct cs; [| cbn in Hlen; lia]. cbn in Hc. injection Hc as <- <-.
    destruct Hpre as [H0 | (tok & e & H0)]; [exact H0 | inversion H0].
  - destruct cs as [| [tok cl] rest].
    { cbn in Hc. injection Hc as <- <-.
      destruct Hpre as [H0 | (tok & e & H0)]; [exact H0 | inversion H0]. }
    cbn [length] in Hlen. destruct cl as [| o' e | |]; cbn [consume] in Hc; try discriminate.
    assert (Ho' : o' ∈ parser) by (eapply Hin; left).
    assert (Hrest : ∀ tok' o'' e', (tok', COption o'' e') ∈ rest → o'' ∈ parser)
      by (intros; eapply Hin; right; eassumption).
    apply Hnext in Hpre as [Hpre | Hpre].
    2: { (* the flag comes later *)
      destruct (action o') as [t' | |] eqn:Ha'; [| | discriminate].
      - destruct e as [s' |].
        + case_bool_decide;
            [eapply (IH rest); [lia | exact Hrest | right; exact Hpre | exact Hc] |].
          destruct (get_value t' s') as [v |]; [| discriminate].
          eapply (IH rest); [lia | exact Hrest | right; exact Hpre | exact Hc].
        + destruct rest as [| [a [| | |]] rest']; try discriminate.
          destruct (get_value t' a) as [v |]; [| discriminate].
          eapply (IH rest'); [cbn [length] in Hlen; lia | | | exact Hc].
          * intros; eapply Hrest; right; eassumption.
          * right. destruct Hpre as (tok' & e' & Hin').
            apply elem_of_cons in Hin' as [[=] | Hin']. eauto.
      - destruct e as [s' |]; [discriminate |].
        eapply (IH rest); [lia | exact Hrest | right; exact Hpre | exact Hc]. }
    destruct (action o') as [t' | |] eqn:Ha'; [| | discriminate].
    + assert (Hne : o' = o → False) by (intros ->; congruence).
      destruct e as [s' |].
      * case_bool_decide.
        { eapply (IH rest); [lia | exact Hrest | left | exact Hc].
          apply Hins; [exact Ho' | intros E; destruct (Hne E) | exact Hpre]. }
        destruct (get_value t' s') as [v |]; [| discriminate].
        eapply (IH rest); [lia | exact Hrest | left | exact Hc].
        apply Hins; [exact Ho' | intros E; destruct (Hne E) | exact Hpre].
      * destruct rest as [| [a [| | |]] rest']; try discriminate.
        destruct (get_value t' a) as [v |]; [| discriminate].
        eapply (IH rest'); [cbn [length] in Hlen; lia | | left | exact Hc].
        -- intros; eapply Hrest; right; eassumption.
        -- apply Hins; [exact Ho' | intros E; destruct (Hne E) | exact Hpre].
    + destruct e as [s' |]; [discriminate |].
      eapply (IH rest); [lia | exact Hrest | left | exact Hc].
      apply Hins; [exact Ho' | reflexivity | exact Hpre].
Qed.

(** X14. When some token of an accepted invocation reads as --download or
    --tuning, the attribute is True in the namespace: nothing on the command
    line can switch the flag off again. *)
Theorem flag_given_is_true (argv : list string) (tok : string) (o : Opt)
    (e : option string) (ns : gmap string Value) :
  parse_args argv = Some ns →
  tok ∈ argv → parse_optional parser tok = COption o e → action o = StoreTrue →
  ns !! dest o = Some (VBool true).
Proof.
  unfold parse_args. case_bool_decide as Hsep; [discriminate |].
  destruct (existsb _ _); [discriminate |].
  destruct (consume (classify argv) (set_defaults parser ∅) ∅) as [[ns1 seen1] |] eqn:Hc;
    [| discriminate].
  intros Hcv Hin Hcl Ha.
  assert (Ho : o ∈ parser) by (eapply parse_optional_in, Hcl).
  assert (Hd : dest o ≠ "run" ∧ dest o ≠ "model").
  { clear -Ho Ha. unfold parser, add_argument, ArgumentParser in Ho. cbn in Ho.
    repeat (apply elem_of_cons in Ho as [-> | Ho]); try discriminate Ha;
      [split; discriminate .. | inversion Ho]. }
  rewrite (convert_keeps _ _ _ _ Hcv (or_intror Hd)).
  eapply (consume_flag (length (classify argv)) o (classify argv));
    [lia | exact Ho | exact Ha | | | exact Hc].
  - intros tok' o' e'. apply classify_in_parser.
  - right. exists tok, e. apply classify_elem. auto.
Qed.

Lemma well_placed_cons (x : string * Cls) (cs : list (string * Cls)) (i : nat) (c : Cls) :
  well_placed cs i c → well_placed (x :: cs) (S i) c.
Proof.
  destruct c; cbn; auto.
  intros (j & prev & o & t & -> & Hj & Ha). exists (S j), prev, o, t. auto.
Qed.

Lemma consume_shape (n : nat) (cs : list (string * Cls)) (ns : gmap string Value)
    (seen : gset string) (r : gmap string Value * gset string) :
  (length cs ≤ n)%nat →
  consume cs ns seen = Some r →
  ∀ i tok c, cs !! i = Some (tok, c) → well_placed cs i c.
Proof.
  revert cs ns seen. induction n as [| n IH]; intros cs ns seen Hlen Hc i tok c Hi.
  - destruct cs; [| cbn in Hlen; lia]. inversion Hi.
  - destruct cs as [| [tok0 cl] rest]; [inversion Hi |].
    cbn [length] in Hlen. destruct cl as [| o e | |]; cbn [consume] in Hc; try discriminate.
    destruct i as [| i].
    { injection Hi as <- <-. cbn. destruct (action o); [discriminate .. | discriminate Hc]. }
    cbn [lookup list_lookup] in Hi. change (rest !! i = Some (tok, c)) in Hi.
    destruct (action o) as [t | |] eqn:Ha; [| | discriminate].
    + destruct e as [s |].
      * case_bool_decide.
        { apply well_placed_cons. eapply (IH rest); [lia | exact Hc | exact Hi]. }
        destruct (get_value t s) as [v |]; [| discriminate].
        apply well_placed_cons. eapply (IH rest); [lia | exact Hc | exact Hi].
      * destruct rest as [| [a [| | |]] rest']; try discriminate.
        destruct (get_value t a) as [v |]; [| discriminate].
        destruct i as [| i].
        { injection Hi as <- <-. cbn. exists 0%nat, tok0, o, t. auto. }
        change (rest' !! i = Some (tok, c)) in Hi.
        do 2 apply well_placed_cons.
        eapply (IH rest'); [cbn [length] in Hlen; lia | exact Hc | exact Hi].
    + destruct e as [s |]; [discriminate |].
      apply well_placed_cons. eapply (IH rest); [lia | exact Hc | exact Hi].
Qed.

(** X15. parse_args takes no positional argument and no unknown option.  In
    an accepted invocation every token either reads as one of the eleven
    declared options, or is the value of a storing option: it comes directly
    after a token that reads as such an option and carries no [=value]. *)
Theorem values_follow_their_option (argv : list string) (ns : gmap string Value)
    (i : nat) (tok : string) :
  parse_args argv = Some ns →
  argv !! i = Some tok →
  match parse_optional parser tok with
  | COption o _ => o ∈ declared_options
  | CPositional =>
      ∃ j prev o t, i = S j ∧ argv !! j = Some prev
                    ∧ parse_optional parser prev = COption o None
                    ∧ o ∈ declared_options ∧ action o = Store t
  | CUnknown | CAmbiguous => False
  end.
Proof.
  unfold parse_args. case_bool_decide as Hsep; [discriminate |].
  destruct (existsb _ _); [discriminate |].
  destruct (consume (classify argv) (set_defaults parser ∅) ∅) as [r |] eqn:Hc;
    [| discriminate].
  intros _ Hi.
  assert (Hlk : ∀ k, classify argv !! k = (λ s, (s, parse_optional parser s)) <$> argv !! k)
    by (intros; apply list_lookup_fmap).
  assert (Hdecl : ∀ o, o ∈ parser → action o ≠ Help → o ∈ declared_options).
  { intros o Ho Hnh. destruct (help_or_declared o Ho); [contradiction | assumption]. }
  pose proof (consume_shape (length (classify argv)) (classify argv) _ _ r (le_n _) Hc i tok
                (parse_optional parser tok)) as Hw.
  rewrite Hlk, Hi in Hw. specialize (Hw eq_refl).
  destruct (parse_optional parser tok) as [| o e | |] eqn:Hcl; cbn in Hw; try contradiction.
  - destruct Hw as (j & prev & o & t & -> & Hj & Ha).
    rewrite Hlk in Hj. destruct (argv !! j) as [p |] eqn:Hp; [| discriminate].
    injection Hj as -> Hcp. exists j, prev, o, t. repeat split; auto.
    apply Hdecl; [eapply parse_optional_in, Hcp | congruence].
  - apply Hdecl; [eapply parse_optional_in, Hcl | exact Hw].
Qed.

(** X16. Option names can be abbreviated.  Every prefix of a declared option
    name that is longer than the two dashes reads as that option, unless it is
    one of the shared prefixes of X12 or the full name of another option
    ([--weight] is a prefix of [--weight_decay] and reads as --weight). *)
Theorem abbreviations_resolve (o : Opt) (f p : string) :
  o ∈ declared_options → f ∈ flags o → p ∈ abbreviations f →
  p ∈ shared_prefixes
  ∨ ∃ o', parse_optional parser p = COption o' None ∧ (o' = o ∨ p ∈ flags o').
Proof.
  intros Ho Hf Hp. unfold declared_options in Ho.
  repeat (apply elem_of_cons in Ho as [-> | Ho]); [.. | inversion Ho];
    apply list_elem_of_singleton in Hf as ->;
    vm_compute in Hp;
    repeat (apply elem_of_cons in Hp as [-> | Hp]); try (inversion Hp; fail);
    first [ left; solve [repeat constructor]
          | right; eexists; split; [vm_compute; reflexivity |];
            first [left; reflexivity | right; solve [repeat constructor]] ].
Qed.

End MoreParserFacts.

(** * The properties on the sample framework *)

Import Sample.

Lemma train_single_pass_witness :
  outcome Sample.train_call = Ok Sample.train_result
  ∧ ∃ bs tail,
      length bs = loader_len (1%nat : Loader)
      ∧ Forall (λ b, length (dev_targets b) = length (raw_targets b)) bs
      ∧ trace Sample.train_call
        = Done (ModelTrainMode (7%nat : Model)) tt
            :: batches_events (7%nat : Model) (5%nat : AnchorT) (1%nat : Loader)
                 (8%nat : Optim) (9%nat : Crit) cpu 0 bs ++ tail
      ∧ export_tail (Sample.args 2 false) (7%nat : Model) (-1) bs tail.
Proof.
  assert (Hok : outcome Sample.train_call = Ok Sample.train_result)
    by (vm_compute; reflexivity).
  split; [exact Hok |].
  exact (train_single_pass Sample.handler (Sample.args 2 false) 7%nat 5%nat 1%nat 8%nat
           9%nat (-1) cpu 0%nat Sample.train_result Hok).
Defined.

Lemma backward_is_weighted_sum_witness :
  outcome Sample.train_call = Ok Sample.train_result
  ∧ ∃ bs,
      length bs = loader_len (1%nat : Loader)
      ∧ flat_map grad_view (trace Sample.train_call) =
        flat_map (λ b,
          [GForward (7%nat : Model) (dev_input b) (predict b);
           GLoss (9%nat : Crit) (predict b) (5%nat : AnchorT) (dev_targets b)
             (loss_l b, loss_c b, loss_landm b);
           GBackward (tensor_add (tensor_add (tensor_rmul_float float_1_3 (loss_l b))
                                    (loss_c b)) (loss_landm b))]) bs.
Proof.
  assert (Hok : outcome Sample.train_call = Ok Sample.train_result)
    by (vm_compute; reflexivity).
  split; [exact Hok |].
  exact (backward_is_weighted_sum Sample.handler (Sample.args 2 false) 7%nat 5%nat 1%nat
           8%nat 9%nat (-1) cpu 0%nat Sample.train_result Hok).
Defined.

(** On the sample the weighted sum is 13 * 10 + 20 + 30 for every batch. *)
Example backward_sample :
  flat_map (λ e, match e with GBackward l => [l] | _ => [] end)
    (flat_map grad_view (trace Sample.train_call)) = [180; 180].
Proof. vm_compute. reflexivity. Qed.

Lemma train_returns_means_witness :
  (1 ≤ loader_len (1%nat : Loader))%nat
  ∧ no_failure (trace Sample.train_call)
  ∧ ∃ bs cl bx pt,
      length bs = loader_len (1%nat : Loader)
      ∧ flat_map grad_view (trace Sample.train_call)
        = flat_map (batch_grad (7%nat : Model) (5%nat : AnchorT) (9%nat : Crit)) bs
      ∧ flat_map epoch_view (trace Sample.train_call)
        = ETrain (7%nat : Model)
            :: (EBatch (1%nat : Loader) <$> seq 0 (loader_len (1%nat : Loader)))
      ∧ py_div_len (total (loss_c <$> bs)) (Z.of_nat (loader_len (1%nat : Loader))) = inr cl
      ∧ py_div_len (total (loss_l <$> bs)) (Z.of_nat (loader_len (1%nat : Loader))) = inr bx
      ∧ py_div_len (total (loss_landm <$> bs)) (Z.of_nat (loader_len (1%nat : Loader)))
        = inr pt
      ∧ outcome Sample.train_call = Ok (cl, bx, pt, 0).
Proof.
  assert (Hlen : (1 ≤ loader_len (1%nat : Loader))%nat) by (vm_compute; lia).
  assert (Hnf : no_failure (trace Sample.train_call))
    by (apply no_failure_forallb; vm_compute; reflexivity).
  split; [exact Hlen |]. split; [exact Hnf |].
  exact (train_returns_means Sample.handler (Sample.args 2 false) 7%nat 5%nat 1%nat 8%nat
           9%nat (-1) cpu 0%nat Hlen Hnf).
Defined.

Lemma epoch_loop_schedule_witness :
  outcome (Sample.program (Sample.args 2 false)) = Ok tt
  ∧ ∃ (model : Model) (trainloader : Loader) (scheduler : Sched) ers,
      Z.of_nat (length ers) = Z.max 0 (epoch (Sample.args 2 false))
      ∧ flat_map epoch_view (trace (Sample.program (Sample.args 2 false)))
        = EMultiStepLR LR_MILESTONE float_0_7 scheduler
            :: epochs_summary model trainloader scheduler 0 ers.
Proof.
  assert (Hok : outcome (Sample.program (Sample.args 2 false)) = Ok tt)
    by (vm_compute; reflexivity).
  split; [exact Hok |].
  exact (epoch_loop_schedule Sample.handler Sample.grad_mode (Sample.args 2 false) 0%nat
           Hok).
Defined.

(** C3 as stated fails for [--epoch -1 --tuning]: the invocation is accepted
    with [args.epoch = -1], the run finishes, and it has no epoch at all;
    no run has -1 epochs. *)
Lemma negative_epoch_runs_none :
  (λ ns, ns !! "epoch") <$> parse_args ["--epoch"; "-1"; "--tuning"]
  = Some (Some (VNum (NInt (-1))))
  ∧ outcome (Sample.program (Sample.args (-1) true)) = Ok tt
  ∧ flat_map epoch_view (trace (Sample.program (Sample.args (-1) true)))
    = [EMultiStepLR LR_MILESTONE float_0_7 (10%nat : Sched)]
  ∧ ¬ ∃ (model : Model) (trainloader : Loader) (scheduler : Sched) ers,
        Z.of_nat (length ers) = epoch (Sample.args (-1) true)
        ∧ flat_map epoch_view (trace (Sample.program (Sample.args (-1) true)))
          = EMultiStepLR LR_MILESTONE float_0_7 scheduler
              :: epochs_summary model trainloader scheduler 0 ers.
Proof.
  split; [reflexivity |]. split; [vm_compute; reflexivity |].
  split; [vm_compute; reflexivity |].
  intros (m & l & sc & ers & Hlen & _). cbn in Hlen. lia.
Qed.

Lemma artifact_unless_tuning_witness :
  tuning (Sample.args 2 false) = false
  ∧ outcome (Sample.program (Sample.args 2 false)) = Ok tt
  ∧ ∃ pre (a : ArtifactH),
      trace (Sample.program (Sample.args 2 false))
      = pre ++ [Done (Artifact (run (Sample.args 2 false)) "weights") a;
                Done (AddFile a (SAVE_PATH +:+ run (Sample.args 2 false) +:+ ".onnx")) tt;
                Done (AddFile a (SAVE_PATH +:+ run (Sample.args 2 false) +:+ ".pth")) tt;
                Done (LogArtifact a) tt]
      ∧ flat_map artifact_view pre = []
      ∧ flat_map epoch_view pre
        = flat_map epoch_view (trace (Sample.program (Sample.args 2 false))).
Proof.
  assert (Hnt : tuning (Sample.args 2 false) = false) by reflexivity.
  assert (Hok : outcome (Sample.program (Sample.args 2 false)) = Ok tt)
    by (vm_compute; reflexivity).
  split; [exact Hnt |]. split; [exact Hok |].
  exact (proj2 (artifact_unless_tuning Sample.handler Sample.grad_mode
                  (Sample.args 2 false) 0%nat) Hnt Hok).
Defined.

(** With [--tuning] the sample run makes no artifact call; without it the
    four calls are there. *)
Example tuning_sample :
  flat_map artifact_view (trace (Sample.program (Sample.args 2 true))) = []
  ∧ flat_map artifact_view (trace (Sample.program (Sample.args 2 false)))
    = [ACreate "exp" "weights" 12%nat; AAdd 12%nat "w/exp.onnx"; AAdd 12%nat "w/exp.pth";
       ALog 12%nat].
Proof. split; vm_compute; reflexivity. Qed.

Lemma logged_names_are_shifted_witness :
  outcome Sample.epoch_call = Ok 0
  ∧ ∃ (w' : World) (t0 t1 : Float) bs cl bx pt ap post,
      outcome (train Sample.handler (Sample.args 2 false) 7%nat 5%nat 1%nat 8%nat 9%nat (-1)
                 cpu w') = Ok (cl, bx, pt, ap)
      ∧ mean (loss_c <$> bs) = inr cl
      ∧ mean (loss_l <$> bs) = inr bx
      ∧ mean (loss_landm <$> bs) = inr pt
      ∧ flat_map grad_view
          (trace (train Sample.handler (Sample.args 2 false) 7%nat 5%nat 1%nat 8%nat 9%nat
                    (-1) cpu w'))
        = flat_map (batch_grad (7%nat : Model) (5%nat : AnchorT) (9%nat : Crit)) bs
      ∧ trace Sample.epoch_call
        = [Done (Print MsgEpochHeader) tt; Done TimeNow t0]
          ++ trace (train Sample.handler (Sample.args 2 false) 7%nat 5%nat 1%nat 8%nat 9%nat
                      (-1) cpu w')
          ++ [Done TimeNow t1;
              Done (WandbLog [("loss_cls", pt); ("loss_box", cl);
                              ("loss_landmark", bx)] 0) tt]
          ++ post.
Proof.
  assert (Hok : outcome Sample.epoch_call = Ok 0) by (vm_compute; reflexivity).
  split; [exact Hok |].
  exact (logged_names_are_shifted Sample.handler (Sample.args 2 false) 7%nat 5%nat 1%nat
           8%nat 9%nat 10%nat cpu 2 0 (-1) 0%nat 0 Hok).
Defined.

(** On the sample the loss function answers (box 10, classification 20,
    landmark 30): the tracker gets the landmark mean under 'loss_cls', the
    classification mean under 'loss_box' and the box mean under
    'loss_landmark'. *)
Example logged_names_sample :
  flat_map (λ e, match e with ELog d s => [(d, s)] | _ => [] end)
    (flat_map epoch_view (trace Sample.epoch_call))
  = [([("loss_cls", PTensor 30); ("loss_box", PTensor 20); ("loss_landmark", PTensor 10)], 0);
     ([("lr", PNum (NFloat 1))], 0)].
Proof. vm_compute. reflexivity. Qed.

Lemma export_once_in_first_epoch_witness :
  outcome (Sample.program (Sample.args 2 false)) = Ok tt
  ∧ 1 ≤ epoch (Sample.args 2 false)
  ∧ flat_map export_view (trace (Sample.program (Sample.args 2 false)))
    = [XEpoch; XOnnx (SAVE_PATH +:+ run (Sample.args 2 false) +:+ ".onnx");
       XSave (SAVE_PATH +:+ run (Sample.args 2 false) +:+ ".pth"); XBest 0]
      ++ replicate (Z.to_nat (epoch (Sample.args 2 false)) - 1) XEpoch
  ∧ onnx_exports (trace (Sample.program (Sample.args 2 false))) = 1%nat
  ∧ torch_saves (trace (Sample.program (Sample.args 2 false))) = 1%nat
  ∧ ∃ (model : Model) (anchors : AnchorT) (trainloader : Loader) (optimizer : Optim)
      (criterion : Crit) (scheduler : Sched) (device : Device),
      outcome (setup Sample.handler Sample.grad_mode (Sample.args 2 false) 0%nat)
      = Ok (model, anchors, trainloader, optimizer, criterion, scheduler, device)
      ∧ ∀ k : nat, (k ≤ Z.to_nat (epoch (Sample.args 2 false)))%nat →
          outcome (for_each (epoch_body Sample.handler (Sample.args 2 false) model anchors
                               trainloader optimizer criterion scheduler device
                               (epoch (Sample.args 2 false)))
                     (Z.of_nat <$> seq 0 k) (-1)
                     (world (setup Sample.handler Sample.grad_mode (Sample.args 2 false)
                               0%nat)))
          = Ok (if decide (k = 0%nat) then -1 else 0).
Proof.
  assert (Hok : outcome (Sample.program (Sample.args 2 false)) = Ok tt)
    by (vm_compute; reflexivity).
  assert (Hpos : 1 ≤ epoch (Sample.args 2 false)) by (vm_compute; discriminate).
  split; [exact Hok |]. split; [exact Hpos |].
  exact (export_once_in_first_epoch Sample.handler Sample.grad_mode (Sample.args 2 false)
           0%nat Hok Hpos).
Defined.

(** C9 as stated fails for [--epoch 0 --tuning]: the run finishes, and the
    export of train has run zero times, not once. *)
Lemma no_epoch_no_export :
  outcome (Sample.program (Sample.args 0 true)) = Ok tt
  ∧ onnx_exports (trace (Sample.program (Sample.args 0 true))) = 0%nat
  ∧ torch_saves (trace (Sample.program (Sample.args 0 true))) = 0%nat
  ∧ onnx_exports (trace (Sample.program (Sample.args 0 true))) ≠ 1%nat.
Proof. repeat split; vm_compute; (reflexivity || discriminate). Qed.

(** A failing optimizer step ends the sample run with its exception. *)
Example failures_propagate_sample :
  failed_calls (trace (Sample.flaky_program (Sample.args 2 false)))
  = [(OptStep (8%nat : Optim), 99%nat : ExtExn)]
  ∧ outcome (Sample.flaky_program (Sample.args 2 false)) = Raise (External (99%nat : ExtExn))
  ∧ after_failure (trace (Sample.flaky_program (Sample.args 2 false))) = [].
Proof. repeat split; vm_compute; reflexivity. Qed.

Lemma batchsize_and_weight_only_reach_config_witness :
  (∀ p cfg n w', Sample.handler (WandbInit p cfg n) w'
                 = Sample.handler (WandbInit p (blank_batchsize cfg) n) w')
  ∧ outcome (Sample.program (Sample.args 2 false))
    = outcome (Sample.program
                 (set_batchsize_weight (Sample.args 2 false) (NInt 64) (Some "w.pth")))
  ∧ world (Sample.program (Sample.args 2 false))
    = world (Sample.program
               (set_batchsize_weight (Sample.args 2 false) (NInt 64) (Some "w.pth")))
  ∧ blank_event <$> trace (Sample.program (Sample.args 2 false))
    = blank_event <$> trace (Sample.program
                               (set_batchsize_weight (Sample.args 2 false) (NInt 64)
                                  (Some "w.pth")))
  ∧ flat_map build_view (trace (Sample.program (Sample.args 2 false)))
    = flat_map build_view
        (trace (Sample.program
                  (set_batchsize_weight (Sample.args 2 false) (NInt 64) (Some "w.pth"))))
  ∧ Forall loader_batch_ok (trace (Sample.program (Sample.args 2 false)))
  ∧ Forall loader_batch_ok
      (trace (Sample.program
                (set_batchsize_weight (Sample.args 2 false) (NInt 64) (Some "w.pth")))).
Proof.
  assert (Hh : ∀ p cfg n w', Sample.handler (WandbInit p cfg n) w'
                             = Sample.handler (WandbInit p (blank_batchsize cfg) n) w')
    by (intros; reflexivity).
  split; [exact Hh |].
  exact (batchsize_and_weight_only_reach_config Sample.handler Sample.grad_mode
           (Sample.args 2 false) (NInt 64) (Some "w.pth") 0%nat Hh).
Defined.

(** C10 as stated fails: two invocations that differ only in [--batchsize]
    do not make the same calls, the first call already differs. *)
Lemma batchsize_reaches_the_tracker :
  trace (Sample.program (Sample.args 1 true))
  ≠ trace (Sample.program (set_batchsize_weight (Sample.args 1 true) (NInt 64) None)).
Proof.
  intros Heq. apply (f_equal Sample.first_config) in Heq. cbv in Heq. discriminate.
Qed.

Lemma parse_args_options_and_defaults_witness :
  parse_args Sample.argv = Some Sample.namespace
  ∧ parser = ArgumentParser ++ declared_options
  ∧ (∀ o f, o ∈ declared_options → f ∈ flags o → parse_optional parser f = COption o None)
  ∧ (∀ tok o e, tok ∈ Sample.argv → parse_optional parser tok = COption o e →
                o ∈ declared_options)
  ∧ dom Sample.namespace = list_to_set (dest <$> declared_options)
  ∧ (∀ o, o ∈ declared_options → omits Sample.argv o →
          Sample.namespace !! dest o = opt_default o).
Proof.
  assert (Hp : parse_args Sample.argv = Some Sample.namespace) by reflexivity.
  split; [exact Hp |].
  exact (parse_args_options_and_defaults Sample.argv Sample.namespace Hp).
Defined.

(** On the sample: [--epoch 3 --tuning] leaves [--run] and [--lr] at their
    defaults, and [--help] makes parse_args leave. *)
Example parse_args_sample :
  Sample.namespace !! "epoch" = Some (VNum (NInt 3))
  ∧ Sample.namespace !! "tuning" = Some (VBool true)
  ∧ Sample.namespace !! "run" = Some (VStr RUN_NAME)
  ∧ Sample.namespace !! "lr" = Some (VNum LEARNING_RATE)
  ∧ parse_args ["--help"] = None
  ∧ parse_args ["--w"; "x"] = None
  ∧ is_Some (parse_args ["--ru"; "a"; "--weight_d=3"]).
Proof. repeat split; try reflexivity. eexists. reflexivity. Qed.

(** * The further properties on the sample frameworks *)

Lemma train_empty_loader_witness :
  loader_len Sized.empty_loader = 0%nat
  ∧ ((outcome Sized.train_call = Raise ZeroDivisionError
      ∧ trace Sized.train_call = Sized.train_trace)
     ∨ (∃ x, outcome Sized.train_call = Raise (External x)
             ∧ trace Sized.train_call = Sized.failed_trace x)).
Proof.
  assert (Hlen : loader_len Sized.empty_loader = 0%nat) by reflexivity.
  split; [exact Hlen |].
  exact (train_empty_loader Sized.handler Sized.args 7%nat 5%nat Sized.empty_loader 8%nat
           9%nat (-1) cpu 0%nat Hlen).
Defined.

Example train_empty_loader_sample :
  outcome Sized.train_call = Raise ZeroDivisionError.
Proof. reflexivity. Qed.

(** One call of train in the environment whose optimizer step fails. *)
Lemma train_raises_only_witness :
  outcome (train Sample.flaky_handler (Sample.args 2 false) 7%nat 5%nat 1%nat 8%nat 9%nat
             (-1) cpu 0%nat) = Raise (External (99%nat : ExtExn))
  ∧ ((∃ x, External (99%nat : ExtExn) = External x)
     ∨ (External (99%nat : ExtExn) = ZeroDivisionError
        ∧ loader_len (1%nat : Loader) = 0%nat)).
Proof.
  assert (He : outcome (train Sample.flaky_handler (Sample.args 2 false) 7%nat 5%nat 1%nat
                          8%nat 9%nat (-1) cpu 0%nat) = Raise (External (99%nat : ExtExn)))
    by (vm_compute; reflexivity).
  split; [exact He |].
  exact (train_raises_only Sample.flaky_handler (Sample.args 2 false) 7%nat 5%nat 1%nat
           8%nat 9%nat (-1) cpu 0%nat (External (99%nat : ExtExn)) He).
Defined.

Lemma main_raises_only_witness :
  outcome (Sample.flaky_program (Sample.args 2 false)) = Raise (External (99%nat : ExtExn))
  ∧ External (99%nat : ExtExn) ≠ UnboundLocalError
  ∧ (External (99%nat : ExtExn) = ZeroDivisionError →
     ∃ (model : Model) (anchors : AnchorT) (trainloader : Loader) (optimizer : Optim)
       (criterion : Crit) (scheduler : Sched) (device : Device),
       outcome (setup Sample.flaky_handler Sample.grad_mode (Sample.args 2 false) 0%nat)
       = Ok (model, anchors, trainloader, optimizer, criterion, scheduler, device)
       ∧ loader_len trainloader = 0%nat).
Proof.
  assert (He : outcome (Sample.flaky_program (Sample.args 2 false))
               = Raise (External (99%nat : ExtExn))) by (vm_compute; reflexivity).
  split; [exact He |].
  exact (main_raises_only Sample.flaky_handler Sample.grad_mode (Sample.args 2 false) 0%nat
           (External (99%nat : ExtExn)) He).
Defined.

Lemma no_epochs_no_training_witness :
  epoch (Sample.args 0 false) ≤ 0
  ∧ flat_map export_view (trace (Sample.program (Sample.args 0 false))) = []
  ∧ flat_map grad_view (trace (Sample.program (Sample.args 0 false))) = []
  ∧ (outcome (Sample.program (Sample.args 0 false)) = Ok tt →
     tuning (Sample.args 0 false) = false →
     ∃ a : ArtifactH,
       flat_map artifact_view (trace (Sample.program (Sample.args 0 false)))
       = [ACreate (run (Sample.args 0 false)) "weights" a;
          AAdd a (SAVE_PATH +:+ run (Sample.args 0 false) +:+ ".onnx");
          AAdd a (SAVE_PATH +:+ run (Sample.args 0 false) +:+ ".pth");
          ALog a]).
Proof.
  assert (Hle : epoch (Sample.args 0 false) ≤ 0) by (vm_compute; discriminate).
  split; [exact Hle |].
  exact (no_epochs_no_training Sample.handler Sample.grad_mode (Sample.args 0 false) 0%nat
           Hle).
Defined.

(** The run without epochs finishes and uploads the two files all the same. *)
Example no_epochs_sample :
  outcome (Sample.program (Sample.args 0 false)) = Ok tt
  ∧ flat_map artifact_view (trace (Sample.program (Sample.args 0 false)))
    = [ACreate "exp" "weights" 12%nat; AAdd 12%nat "w/exp.onnx"; AAdd 12%nat "w/exp.pth";
       ALog 12%nat].
Proof. split; vm_compute; reflexivity. Qed.

Lemma saved_weights_are_from_first_epoch_witness :
  outcome (Sample.program (Sample.args 2 false)) = Ok tt
  ∧ 1 ≤ epoch (Sample.args 2 false)
  ∧ ∃ (trainloader : Loader) (optimizer : Optim),
      flat_map step_view (trace (Sample.program (Sample.args 2 false)))
      = replicate (loader_len trainloader) (SStep optimizer)
        ++ [SOnnx (SAVE_PATH +:+ run (Sample.args 2 false) +:+ ".onnx");
            SSaved (SAVE_PATH +:+ run (Sample.args 2 false) +:+ ".pth")]
        ++ replicate ((Z.to_nat (epoch (Sample.args 2 false)) - 1) * loader_len trainloader)
             (SStep optimizer).
Proof.
  assert (Hok : outcome (Sample.program (Sample.args 2 false)) = Ok tt)
    by (vm_compute; reflexivity).
  assert (Hpos : 1 ≤ epoch (Sample.args 2 false)) by (vm_compute; discriminate).
  split; [exact Hok |]. split; [exact Hpos |].
  exact (saved_weights_are_from_first_epoch Sample.handler Sample.grad_mode
           (Sample.args 2 false) 0%nat Hok Hpos).
Defined.

(** On the sample: two steps, the two files, two more steps. *)
Example saved_weights_sample :
  flat_map step_view (trace (Sample.program (Sample.args 2 false)))
  = [SStep 8%nat; SStep 8%nat; SOnnx "w/exp.onnx"; SSaved "w/exp.pth";
     SStep 8%nat; SStep 8%nat].
Proof. vm_compute. reflexivity. Qed.

Lemma validation_loader_is_never_read_witness :
  outcome (Sample.program (Sample.args 2 false)) = Ok tt
  ∧ ∃ (train_set valid_set : Dataset) (trainloader validloader : Loader),
      flat_map data_view (trace (Sample.program (Sample.args 2 false)))
      = [DDataset DATA_PATH true train_set;
         DDataset DATA_PATH false valid_set;
         DLoader train_set true trainloader;
         DLoader valid_set false validloader]
        ++ concat (replicate (Z.to_nat (epoch (Sample.args 2 false)))
                     (DBatch trainloader <$> seq 0 (loader_len trainloader))).
Proof.
  assert (Hok : outcome (Sample.program (Sample.args 2 false)) = Ok tt)
    by (vm_compute; reflexivity).
  split; [exact Hok |].
  exact (validation_loader_is_never_read Sample.handler Sample.grad_mode
           (Sample.args 2 false) 0%nat Hok).
Defined.

Lemma startfm_only_reaches_config_witness :
  (∀ p cfg n w', Sample.handler (WandbInit p cfg n) w'
                 = Sample.handler (WandbInit p (blank_startfm cfg) n) w')
  ∧ outcome (Sample.program (Sample.args 2 false))
    = outcome (Sample.program (set_startfm (Sample.args 2 false) (NInt 8)))
  ∧ world (Sample.program (Sample.args 2 false))
    = world (Sample.program (set_startfm (Sample.args 2 false) (NInt 8)))
  ∧ blank_startfm_event <$> trace (Sample.program (Sample.args 2 false))
    = blank_startfm_event
        <$> trace (Sample.program (set_startfm (Sample.args 2 false) (NInt 8))).
Proof.
  assert (Hh : ∀ p cfg n w', Sample.handler (WandbInit p cfg n) w'
                             = Sample.handler (WandbInit p (blank_startfm cfg) n) w')
    by (intros; reflexivity).
  split; [exact Hh |].
  exact (startfm_only_reaches_config Sample.handler Sample.grad_mode (Sample.args 2 false)
           (NInt 8) 0%nat Hh).
Defined.

Lemma parse_args_gives_all_arguments_witness :
  parse_args Sample.argv = Some Sample.namespace
  ∧ (∀ tok o, tok ∈ Sample.argv → parse_optional parser tok ≠ COption o (Some "--"))
  ∧ ∃ a, args_of Sample.namespace = Some a.
Proof.
  assert (Hp : parse_args Sample.argv = Some Sample.namespace) by reflexivity.
  assert (Hne : ∀ tok o, tok ∈ Sample.argv →
                         parse_optional parser tok ≠ COption o (Some "--")).
  { intros tok o Hin. unfold Sample.argv in Hin.
    repeat (apply elem_of_cons in Hin as [-> | Hin]); [.. | inversion Hin];
      vm_compute; discriminate. }
  split; [exact Hp |]. split; [exact Hne |].
  exact (parse_args_gives_all_arguments Sample.argv Sample.namespace Hp Hne).
Defined.

(** [--epoch 3 --tuning] gives the arguments of a run of three epochs. *)
Example parse_args_arguments_sample :
  args_of Sample.namespace
  = Some {| run := "exp"; epoch := 3; model := "mobilenet0.25"; weight := None;
            weight_decay := NFloat 5; momentum := NFloat 9; startfm := NInt 16;
            batchsize := NInt 32; lr := NFloat 1; download := false; tuning := true |}.
Proof. reflexivity. Qed.

Lemma given_values_have_the_declared_type_witness :
  parse_args Sample.argv = Some Sample.namespace
  ∧ epoch_option ∈ declared_options
  ∧ (Sample.namespace !! dest epoch_option = opt_default epoch_option
     ∨ (∃ v, Sample.namespace !! dest epoch_option = Some v
             ∧ fits (action epoch_option) v = true)
     ∨ (Sample.namespace !! dest epoch_option = Some (VList [])
        ∧ ∃ tok, tok ∈ Sample.argv
                 ∧ parse_optional parser tok = COption epoch_option (Some "--"))).
Proof.
  assert (Hp : parse_args Sample.argv = Some Sample.namespace) by reflexivity.
  assert (Ho : epoch_option ∈ declared_options)
    by (apply list_elem_of_further, list_elem_of_here).
  split; [exact Hp |]. split; [exact Ho |].
  exact (given_values_have_the_declared_type Sample.argv Sample.namespace epoch_option Hp Ho).
Defined.

(** [--epoch=--] is accepted and leaves the empty list in [epoch]; a minus
    and an Arabic-Indic three is read as a value, not as an option. *)
Example empty_list_sample :
  (λ ns, ns !! "epoch") <$> parse_args ["--epoch=--"] = Some (Some (VList []))
  ∧ (λ ns, args_of ns) <$> parse_args ["--epoch=--"] = Some None
  ∧ parse_optional parser (String "-" (String "217" (String "163" EmptyString)))
    = CPositional
  ∧ (λ ns, ns !! "run")
      <$> parse_args ["--run"; String "-" (String "217" (String "163" EmptyString))]
    = Some (Some (VStr (String "-" (String "217" (String "163" EmptyString))))).
Proof. repeat split; reflexivity. Qed.

Lemma help_exits_witness :
  "-h" ∈ ["--epoch"; "3"; "-h"]
  ∧ ("-h" = "-h" ∨ "-h" = "--help"
     ∨ ∃ o e, parse_optional parser "-h" = COption o e ∧ action o = Help)
  ∧ parse_args ["--epoch"; "3"; "-h"] = None.
Proof.
  assert (Hin : "-h" ∈ ["--epoch"; "3"; "-h"]) by (repeat constructor).
  assert (Hh : "-h" = "-h" ∨ "-h" = "--help"
               ∨ ∃ o e, parse_optional parser "-h" = COption o e ∧ action o = Help)
    by (left; reflexivity).
  split; [exact Hin |]. split; [exact Hh |].
  exact (help_exits ["--epoch"; "3"; "-h"] "-h" Hin Hh).
Defined.

Lemma ambiguous_abbreviation_exits_witness :
  "--w=x.pth" ∈ ["--epoch"; "3"; "--w=x.pth"]
  ∧ "--w" ∈ shared_prefixes
  ∧ ("--w=x.pth" = "--w" ∨ ∃ v, "--w=x.pth" = "--w" +:+ "=" +:+ v)
  ∧ parse_args ["--epoch"; "3"; "--w=x.pth"] = None.
Proof.
  assert (Hin : "--w=x.pth" ∈ ["--epoch"; "3"; "--w=x.pth"]) by (repeat constructor).
  assert (Hp : "--w" ∈ shared_prefixes) by (repeat constructor).
  assert (Ht : "--w=x.pth" = "--w" ∨ ∃ v, "--w=x.pth" = "--w" +:+ "=" +:+ v)
    by (right; exists "x.pth"; reflexivity).
  split; [exact Hin |]. split; [exact Hp |]. split; [exact Ht |].
  exact (ambiguous_abbreviation_exits ["--epoch"; "3"; "--w=x.pth"] "--w=x.pth" "--w"
           Hin Hp Ht).
Defined.

Lemma last_occurrence_wins_witness :
  epoch_option ∈ declared_options
  ∧ "--epoch" ∈ flags epoch_option
  ∧ action epoch_option = Store TInt
  ∧ (["--epoch=3"] = ["--epoch"; "3"] ∨ ["--epoch=3"] = ["--epoch" +:+ "=" +:+ "3"])
  ∧ parse_args (["--epoch"; "1"; "--tuning"] ++ ["--epoch=3"]) = Some Sample.namespace
  ∧ (("3" = "--" ∧ ["--epoch=3"] = ["--epoch" +:+ "=" +:+ "3"]
      ∧ Sample.namespace !! dest epoch_option = Some (VList []))
     ∨ ("3" ≠ "--"
        ∧ ∃ v, get_value TInt "3" = Some v
               ∧ Sample.namespace !! dest epoch_option = Some v)).
Proof.
  assert (Ho : epoch_option ∈ declared_options)
    by (apply list_elem_of_further, list_elem_of_here).
  assert (Hf : "--epoch" ∈ flags epoch_option) by (repeat constructor).
  assert (Ha : action epoch_option = Store TInt) by reflexivity.
  assert (Ht : ["--epoch=3"] = ["--epoch"; "3"] ∨ ["--epoch=3"] = ["--epoch" +:+ "=" +:+ "3"])
    by (right; reflexivity).
  assert (Hp : parse_args (["--epoch"; "1"; "--tuning"] ++ ["--epoch=3"])
               = Some Sample.namespace) by reflexivity.
  split; [exact Ho |]. split; [exact Hf |]. split; [exact Ha |]. split; [exact Ht |].
  split; [exact Hp |].
  exact (last_occurrence_wins ["--epoch"; "1"; "--tuning"] ["--epoch=3"] epoch_option
           "--epoch" "3" TInt Sample.namespace Ho Hf Ha Ht Hp).
Defined.

Lemma flag_given_is_true_witness :
  parse_args Sample.argv = Some Sample.namespace
  ∧ "--tuning" ∈ Sample.argv
  ∧ parse_optional parser "--tuning" = COption tuning_option None
  ∧ action tuning_option = StoreTrue
  ∧ Sample.namespace !! dest tuning_option = Some (VBool true).
Proof.
  assert (Hp : parse_args Sample.argv = Some Sample.namespace) by reflexivity.
  assert (Hin : "--tuning" ∈ Sample.argv) by (repeat constructor).
  assert (Hcl : parse_optional parser "--tuning" = COption tuning_option None)
    by reflexivity.
  assert (Ha : action tuning_option = StoreTrue) by reflexivity.
  split; [exact Hp |]. split; [exact Hin |]. split; [exact Hcl |]. split; [exact Ha |].
  exact (flag_given_is_true Sample.argv "--tuning" tuning_option None Sample.namespace
           Hp Hin Hcl Ha).
Defined.

Lemma values_follow_their_option_witness :
  parse_args Sample.argv = Some Sample.namespace
  ∧ Sample.argv !! 1%nat = Some "3"
  ∧ match parse_optional parser "3" with
    | COption o _ => o ∈ declared_options
    | CPositional =>
        ∃ j prev o t, 1%nat = S j ∧ Sample.argv !! j = Some prev
                      ∧ parse_optional parser prev = COption o None
                      ∧ o ∈ declared_options ∧ action o = Store t
    | CUnknown | CAmbiguous => False
    end.
Proof.
  assert (Hp : parse_args Sample.argv = Some Sample.namespace) by reflexivity.
  assert (Hi : Sample.argv !! 1%nat = Some "3") by reflexivity.
  split; [exact Hp |]. split; [exact Hi |].
  exact (values_follow_their_option Sample.argv Sample.namespace 1%nat "3" Hp Hi).
Defined.

Lemma abbreviations_resolve_witness :
  epoch_option ∈ declared_options
  ∧ "--epoch" ∈ flags epoch_option
  ∧ "--ep" ∈ abbreviations "--epoch"
  ∧ ("--ep" ∈ shared_prefixes
     ∨ ∃ o', parse_optional parser "--ep" = COption o' None
             ∧ (o' = epoch_option ∨ "--ep" ∈ flags o')).
Proof.
  assert (Ho : epoch_option ∈ declared_options) by (apply list_elem_of_further, list_elem_of_here).
  assert (Hf : "--epoch" ∈ flags epoch_option) by (repeat constructor).
  assert (Hp : "--ep" ∈ abbreviations "--epoch") by (vm_compute; repeat constructor).
  split; [exact Ho |]. split; [exact Hf |]. split; [exact Hp |].
  exact (abbreviations_resolve epoch_option "--epoch" "--ep" Ho Hf Hp).
Defined.

(** On the sample: [--ep 5 --tun] is read as [--epoch 5 --tuning]. *)
Example abbreviations_sample :
  (λ ns, (ns !! "epoch", ns !! "tuning")) <$> parse_args ["--ep"; "5"; "--tun"]
  = Some (Some (VNum (NInt 5)), Some (VBool true)).
Proof. reflexivity. Qed.
